(** * udplogger: a shallow embedding of [udplogger.c] and its properties

    The program receives UDP datagrams, keeps one [struct client] per sender
    holding the bytes of the line received so far, and appends completed
    lines to a log file named after the local date.

    Conventions of the embedding.
    - C [int], [time_t] and [size_t] values are [Z]; where the source relies
      on a fixed width ([%u] conversions, [htons], [round_up]) the
      wrap-around is written out.
    - [char] arrays are [list ascii].  A client's [buffer] field holds the
      [avail] valid bytes of the allocation, so [avail] is its length; the
      size of the allocation is kept in [buffer_size].
    - The C library is modelled by what the program can observe of it:
      the calls on the log stream are recorded in the trace [out]; the
      results of [fopen] and [realloc] are read from two tapes kept in the
      state ([true] is success, an exhausted tape always succeeds);
      [localtime] is a parameter, and so are [atoi] and [inet_addr] where
      the command line is read.
    - [exit] is recorded in [status]; nothing runs afterwards. *)

From Stdlib Require Import ZArith Ascii String.
From stdpp Require Import base decidable option list numbers strings.

Local Open Scope Z_scope.

(** ** Characters and [printf]-style formatting *)

Definition str (s : string) : list ascii := list_ascii_of_string s.

Definition nl : ascii := "010"%char.

Definition digit (d : Z) : ascii := ascii_of_nat (48 + Z.to_nat d).

(** The decimal digits of [n], most significant first.  An [unsigned int]
    has at most ten of them, which is the fuel [fmt_u] passes. *)
Fixpoint dec_digits (fuel : nat) (n : Z) (acc : list ascii) : list ascii :=
  match fuel with
  | O => acc
  | S fuel' =>
      let acc' := digit (n mod 10) :: acc in
      if n / 10 =? 0 then acc' else dec_digits fuel' (n / 10) acc'
  end.

(** The value an [int] argument has when [printf] reads it as [%u]. *)
Definition to_unsigned (v : Z) : Z := v mod 2 ^ 32.

(** [%0<width>u]; [%u] is [fmt_u 0]. *)
Definition fmt_u (width : nat) (v : Z) : list ascii :=
  let ds := dec_digits 10 (to_unsigned v) [] in
  replicate (width - length ds)%nat "0"%char ++ ds.

(** [snprintf(dst, size, ...)] stores at most [size - 1] characters. *)
Definition snprintf (size : nat) (text : list ascii) : list ascii :=
  take (size - 1)%nat text.

(** [#define round_up(size) ((((size) + 4095u) / 4096u) * 4096u)], in
    arithmetic of [w] bits. *)
Definition round_up (w : Z) (size : Z) : Z :=
  ((((size + 4095) mod 2 ^ w) / 4096) * 4096) mod 2 ^ w.

(** [memchr(buf, c, n)] with [n] the length of [buf]: the offset of the
    first [c], if any. *)
Fixpoint memchr (c : ascii) (buf : list ascii) : option nat :=
  match buf with
  | [] => None
  | x :: rest =>
      if decide (x = c) then Some O
      else match memchr c rest with
           | Some i => Some (S i)
           | None => None
           end
  end.

(** ** Addresses and broken-down time *)

(** [struct sockaddr_in].  [sin_port] and [s_addr] are the values a
    little-endian host reads from the network-order bytes. *)
Record sockaddr_in := {
  sin_family : Z;
  sin_port : Z;
  sin_addr : Z;
  sin_zero : Z
}.

Global Instance sockaddr_in_eq_dec : EqDecision sockaddr_in.
Proof. solve_decision. Defined.

Definition AF_INET : Z := 2.

(** [htons] on a little-endian host: the two bytes of a 16-bit value are
    swapped. *)
Definition htons (x : Z) : Z :=
  Z.lor (Z.shiftl (Z.land x 255) 8) (Z.land (Z.shiftr x 8) 255).

(** [inet_ntoa]: the four bytes in memory order, in decimal, with dots. *)
Definition inet_ntoa (a : Z) : list ascii :=
  fmt_u 0 (Z.land a 255) ++ str "." ++
  fmt_u 0 (Z.land (Z.shiftr a 8) 255) ++ str "." ++
  fmt_u 0 (Z.land (Z.shiftr a 16) 255) ++ str "." ++
  fmt_u 0 (Z.land (Z.shiftr a 24) 255).

(** The fields of [struct tm] the program reads. *)
Record tm := {
  tm_sec : Z;
  tm_min : Z;
  tm_hour : Z;
  tm_mday : Z;
  tm_mon : Z;
  tm_year : Z
}.

Global Instance tm_eq_dec : EqDecision tm.
Proof. solve_decision. Defined.

(** [static struct tm last_tm = { .tm_year = 70, .tm_mday = 1 };] *)
Definition last_tm_init : tm :=
  {| tm_sec := 0; tm_min := 0; tm_hour := 0;
     tm_mday := 1; tm_mon := 0; tm_year := 70 |}.

(** The test of [write_logfile] for a change of day. *)
Definition day_changed (t last : tm) : bool :=
  negb (tm_mday t =? tm_mday last) ||
  negb (tm_mon t =? tm_mon last) ||
  negb (tm_year t =? tm_year last).

(** ["%04u-%02u-%02u.log"] *)
Definition filename_text (t : tm) : list ascii :=
  fmt_u 4 (tm_year t + 1900) ++ str "-" ++ fmt_u 2 (tm_mon t + 1) ++
  str "-" ++ fmt_u 2 (tm_mday t) ++ str ".log".

(** ["%04u-%02u-%02u %02u:%02u:%02u "] *)
Definition stamp_text (t : tm) : list ascii :=
  fmt_u 4 (tm_year t + 1900) ++ str "-" ++ fmt_u 2 (tm_mon t + 1) ++
  str "-" ++ fmt_u 2 (tm_mday t) ++ str " " ++ fmt_u 2 (tm_hour t) ++
  str ":" ++ fmt_u 2 (tm_min t) ++ str ":" ++ fmt_u 2 (tm_sec t) ++ str " ".

(** ["%s:%u "] of [inet_ntoa(addr->sin_addr)] and [htons(addr->sin_port)]. *)
Definition addr_text (a : sockaddr_in) : list ascii :=
  inet_ntoa (sin_addr a) ++ str ":" ++ fmt_u 0 (htons (sin_port a)) ++ str " ".

(** The formatted texts are computed on concrete values only. *)
Global Arguments fmt_u : simpl never.
Global Arguments snprintf : simpl never.
Global Arguments inet_ntoa : simpl never.
Global Arguments htons : simpl never.
Global Arguments filename_text : simpl never.
Global Arguments stamp_text : simpl never.
Global Arguments addr_text : simpl never.

(** ** The program state *)

(** A [FILE *]: the name it was opened under and a serial number. *)
Record FILE := {
  f_name : list ascii;
  f_id : nat
}.

Global Instance FILE_eq_dec : EqDecision FILE.
Proof. solve_decision. Defined.

(** [struct client].  [avail] is the length of [buffer]. *)
Record client := {
  addr : sockaddr_in;
  buffer : list ascii;
  buffer_size : Z;
  addr_str : list ascii;
  stamp : Z
}.

Definition avail (c : client) : Z := Z.of_nat (length (buffer c)).

Definition set_buffer (b : list ascii) (c : client) : client :=
  {| addr := addr c; buffer := b; buffer_size := buffer_size c;
     addr_str := addr_str c; stamp := stamp c |}.

Definition set_buffer_size (n : Z) (c : client) : client :=
  {| addr := addr c; buffer := buffer c; buffer_size := n;
     addr_str := addr_str c; stamp := stamp c |}.

Definition set_stamp (t : Z) (c : client) : client :=
  {| addr := addr c; buffer := buffer c; buffer_size := buffer_size c;
     addr_str := addr_str c; stamp := t |}.

(** What the program does to the outside world.  [EvRecord] stands for the
    [fprintf(log_fp, "%s%s", stamp, ptr->addr_str)] and the [fwrite] (and,
    on a forced flush, the [fprintf(log_fp, "\n")]) that make one record;
    its last argument is everything written after the two strings. *)
Inductive event :=
| EvOpen (name : list ascii) (res : option FILE)
| EvClose (fp : FILE)
| EvRecord (fp : option FILE) (stamp_s addr_s data : list ascii)
| EvPrint (fp : option FILE) (text : list ascii)
| EvFlush (fp : option FILE)
| EvExit (code : Z).

(** The bytes an event appends to its stream. *)
Definition written (e : event) : list ascii :=
  match e with
  | EvRecord _ s a d => s ++ a ++ d
  | EvPrint _ t => t
  | _ => []
  end.

(** The global variables of the program, the [static] variables of
    [write_logfile], and what the embedding keeps of the surroundings: the
    trace, the two tapes, the number of streams opened and the exit
    status. *)
Record state := {
  clients : list client;  (* the array [clients]; [num_clients] is its length *)
  clients_size : Z;  (* bytes allocated for [clients], 0 when it is [NULL] *)
  max_clients : Z;
  wbuf_size : Z;
  wait_timeout : Z;
  try_drop_memory_usage : bool;
  log_fp : option FILE;  (* [None] is [NULL] *)
  last_tm : tm;
  last_time : Z;  (* [static time_t last_time] of [write_logfile] *)
  stamp_buf : list ascii;  (* [static char stamp[24]] of [write_logfile] *)
  out : list event;  (* the calls made on the log stream, oldest first *)
  fopen_tape : list bool;  (* results of the coming [fopen] calls *)
  realloc_tape : list bool;  (* results of the coming [realloc] calls *)
  opened : nat;  (* number of streams opened so far *)
  status : option Z  (* [Some n] once [exit(n)] was called *)
}.

Definition set_clients (v : list client) (st : state) : state :=
  {| clients := v; clients_size := clients_size st;
     max_clients := max_clients st; wbuf_size := wbuf_size st;
     wait_timeout := wait_timeout st;
     try_drop_memory_usage := try_drop_memory_usage st;
     log_fp := log_fp st; last_tm := last_tm st;
     last_time := last_time st; stamp_buf := stamp_buf st; out := out st;
     fopen_tape := fopen_tape st; realloc_tape := realloc_tape st;
     opened := opened st; status := status st |}.

Definition set_clients_size (v : Z) (st : state) : state :=
  {| clients := clients st; clients_size := v;
     max_clients := max_clients st; wbuf_size := wbuf_size st;
     wait_timeout := wait_timeout st;
     try_drop_memory_usage := try_drop_memory_usage st;
     log_fp := log_fp st; last_tm := last_tm st;
     last_time := last_time st; stamp_buf := stamp_buf st; out := out st;
     fopen_tape := fopen_tape st; realloc_tape := realloc_tape st;
     opened := opened st; status := status st |}.

Definition set_try_drop_memory_usage (v : bool) (st : state) : state :=
  {| clients := clients st; clients_size := clients_size st;
     max_clients := max_clients st; wbuf_size := wbuf_size st;
     wait_timeout := wait_timeout st; try_drop_memory_usage := v;
     log_fp := log_fp st; last_tm := last_tm st;
     last_time := last_time st; stamp_buf := stamp_buf st; out := out st;
     fopen_tape := fopen_tape st; realloc_tape := realloc_tape st;
     opened := opened st; status := status st |}.

Definition set_log_fp (v : option FILE) (st : state) : state :=
  {| clients := clients st; clients_size := clients_size st;
     max_clients := max_clients st; wbuf_size := wbuf_size st;
     wait_timeout := wait_timeout st;
     try_drop_memory_usage := try_drop_memory_usage st; log_fp := v;
     last_tm := last_tm st; last_time := last_time st;
     stamp_buf := stamp_buf st; out := out st;
     fopen_tape := fopen_tape st; realloc_tape := realloc_tape st;
     opened := opened st; status := status st |}.

Definition set_last_tm (v : tm) (st : state) : state :=
  {| clients := clients st; clients_size := clients_size st;
     max_clients := max_clients st; wbuf_size := wbuf_size st;
     wait_timeout := wait_timeout st;
     try_drop_memory_usage := try_drop_memory_usage st;
     log_fp := log_fp st; last_tm := v; last_time := last_time st;
     stamp_buf := stamp_buf st; out := out st;
     fopen_tape := fopen_tape st; realloc_tape := realloc_tape st;
     opened := opened st; status := status st |}.

Definition set_last_time (v : Z) (st : state) : state :=
  {| clients := clients st; clients_size := clients_size st;
     max_clients := max_clients st; wbuf_size := wbuf_size st;
     wait_timeout := wait_timeout st;
     try_drop_memory_usage := try_drop_memory_usage st;
     log_fp := log_fp st; last_tm := last_tm st; last_time := v;
     stamp_buf := stamp_buf st; out := out st;
     fopen_tape := fopen_tape st; realloc_tape := realloc_tape st;
     opened := opened st; status := status st |}.

Definition set_stamp_buf (v : list ascii) (st : state) : state :=
  {| clients := clients st; clients_size := clients_size st;
     max_clients := max_clients st; wbuf_size := wbuf_size st;
     wait_timeout := wait_timeout st;
     try_drop_memory_usage := try_drop_memory_usage st;
     log_fp := log_fp st; last_tm := last_tm st;
     last_time := last_time st; stamp_buf := v; out := out st;
     fopen_tape := fopen_tape st; realloc_tape := realloc_tape st;
     opened := opened st; status := status st |}.

Definition set_out (v : list event) (st : state) : state :=
  {| clients := clients st; clients_size := clients_size st;
     max_clients := max_clients st; wbuf_size := wbuf_size st;
     wait_timeout := wait_timeout st;
     try_drop_memory_usage := try_drop_memory_usage st;
     log_fp := log_fp st; last_tm := last_tm st;
     last_time := last_time st; stamp_buf := stamp_buf st; out := v;
     fopen_tape := fopen_tape st; realloc_tape := realloc_tape st;
     opened := opened st; status := status st |}.

Definition set_fopen_tape (v : list bool) (st : state) : state :=
  {| clients := clients st; clients_size := clients_size st;
     max_clients := max_clients st; wbuf_size := wbuf_size st;
     wait_timeout := wait_timeout st;
     try_drop_memory_usage := try_drop_memory_usage st;
     log_fp := log_fp st; last_tm := last_tm st;
     last_time := last_time st; stamp_buf := stamp_buf st; out := out st;
     fopen_tape := v; realloc_tape := realloc_tape st;
     opened := opened st; status := status st |}.

Definition set_realloc_tape (v : list bool) (st : state) : state :=
  {| clients := clients st; clients_size := clients_size st;
     max_clients := max_clients st; wbuf_size := wbuf_size st;
     wait_timeout := wait_timeout st;
     try_drop_memory_usage := try_drop_memory_usage st;
     log_fp := log_fp st; last_tm := last_tm st;
     last_time := last_time st; stamp_buf := stamp_buf st; out := out st;
     fopen_tape := fopen_tape st; realloc_tape := v; opened := opened st;
     status := status st |}.

Definition set_opened (v : nat) (st : state) : state :=
  {| clients := clients st; clients_size := clients_size st;
     max_clients := max_clients st; wbuf_size := wbuf_size st;
     wait_timeout := wait_timeout st;
     try_drop_memory_usage := try_drop_memory_usage st;
     log_fp := log_fp st; last_tm := last_tm st;
     last_time := last_time st; stamp_buf := stamp_buf st; out := out st;
     fopen_tape := fopen_tape st; realloc_tape := realloc_tape st;
     opened := v; status := status st |}.

Definition set_status (v : option Z) (st : state) : state :=
  {| clients := clients st; clients_size := clients_size st;
     max_clients := max_clients st; wbuf_size := wbuf_size st;
     wait_timeout := wait_timeout st;
     try_drop_memory_usage := try_drop_memory_usage st;
     log_fp := log_fp st; last_tm := last_tm st;
     last_time := last_time st; stamp_buf := stamp_buf st; out := out st;
     fopen_tape := fopen_tape st; realloc_tape := realloc_tape st;
     opened := opened st; status := v |}.

Definition num_clients (st : state) : Z := Z.of_nat (length (clients st)).

(** ** The C library, as the program sees it *)

Definition emit (e : event) (st : state) : state :=
  set_out (out st ++ [e]) st.

(** [fopen(name, "a")]. *)
Definition fopen (name : list ascii) (st : state) : option FILE * state :=
  let ok := hd true (fopen_tape st) in
  let st1 := set_fopen_tape (tail (fopen_tape st)) st in
  if ok then
    let f := {| f_name := name; f_id := opened st |} in
    (Some f, emit (EvOpen name (Some f)) (set_opened (S (opened st)) st1))
  else (None, emit (EvOpen name None) st1).

(** Whether the next [realloc] succeeds. *)
Definition realloc (st : state) : bool * state :=
  (hd true (realloc_tape st), set_realloc_tape (tail (realloc_tape st)) st).

(** [sizeof(struct client)] on an LP64 target. *)
Definition sizeof_client : Z := 64.

(** A datagram as [recvfrom] delivers it on an [AF_INET] socket: the
    sender's address and port, and the bytes stored in [buf]. *)
Record datagram := {
  src_addr : Z;
  src_port : Z;
  payload : list ascii
}.

Definition sockaddr_of (d : datagram) : sockaddr_in :=
  {| sin_family := AF_INET; sin_port := src_port d;
     sin_addr := src_addr d; sin_zero := 0 |}.

(** ** The functions of [udplogger.c] *)

(** [switch_logfile]: close yesterday's log file and open today's. *)
Definition switch_logfile (t : tm) (st : state) : state :=
  let fp := log_fp st in
  let filename := snprintf 15 (filename_text t) in
  let '(res, st1) := fopen filename st in
  let st2 := set_log_fp res st1 in
  match fp with
  | None => st2
  | Some old =>
      (* If open() failed, continue using old one. *)
      let st3 := match log_fp st2 with
                 | Some _ => emit (EvClose old) st2
                 | None => set_log_fp (Some old) st2
                 end in
      set_try_drop_memory_usage true st3
  end.

(** The loop of [write_logfile] that writes the completed lines.  Every
    round consumes at least one byte, so [S (length buffer)] rounds of fuel
    let the loop reach its [break] (lemma [write_lines_no_nl]). *)
Fixpoint write_lines (fuel : nat) (fp : option FILE) (stamp_s addr_s : list ascii)
    (buf : list ascii) : list event * list ascii :=
  match fuel with
  | O => ([], buf)
  | S fuel' =>
      match memchr nl buf with
      | None => ([], buf)
      | Some i =>
          let len := S i in
          let '(evs, rest) :=
            write_lines fuel' fp stamp_s addr_s (drop len buf) in
          (EvRecord fp stamp_s addr_s (take len buf) :: evs, rest)
      end
  end.

Section Program.

(** [localtime], which depends on the time zone of the host. *)
Variable localtime : Z -> option tm.

(** The first part of [write_logfile]: refresh the cached time stamp and
    switch the log file if the day has changed. *)
Definition update_stamp (now_time : Z) (st : state) : state :=
  if negb (last_time st =? now_time) then
    let t := default (last_tm st) (localtime now_time) in
    let st1 := set_stamp_buf (snprintf 23 (stamp_text t)) st in
    let st2 :=
      if day_changed t (last_tm st1)
      then switch_logfile t (set_last_tm t st1)
      else st1 in
    set_last_time now_time st2
  else st.

(** [write_logfile(ptr, forced)]; the client is returned as it is left in
    [*ptr]. *)
Definition write_logfile (ptr : client) (forced : bool) (st : state)
    : client * state :=
  let st1 := update_stamp (stamp ptr) st in
  (* Write the completed lines. *)
  let '(evs, rest) :=
    write_lines (S (length (buffer ptr))) (log_fp st1) (stamp_buf st1)
      (addr_str ptr) (buffer ptr) in
  let st2 := set_out (out st1 ++ evs) st1 in
  (* Write the incomplete line if forced. *)
  if forced && negb (Z.of_nat (length rest) =? 0) then
    (set_buffer [] ptr,
     emit (EvRecord (log_fp st2) (stamp_buf st2) (addr_str ptr) (rest ++ [nl])) st2)
  else (set_buffer rest ptr, st2).

(** The loop of [drop_memory_usage] over the array: a client with data has
    its buffer shrunk (if [realloc] agrees), a client without is removed. *)
Fixpoint drop_loop (cs : list client) (st : state) : list client * state :=
  match cs with
  | [] => ([], st)
  | ptr :: rest =>
      if negb (avail ptr =? 0) then
        let '(ok, st1) := realloc st in
        let ptr' :=
          if ok then set_buffer_size (round_up 32 (avail ptr)) ptr else ptr in
        let '(cs', st2) := drop_loop rest st1 in
        (ptr' :: cs', st2)
      else drop_loop rest st
  end.

(** [drop_memory_usage]: try to reduce memory usage. *)
Definition drop_memory_usage (st : state) : state :=
  if negb (try_drop_memory_usage st) then st
  else
    let st1 := set_try_drop_memory_usage false st in
    let '(cs, st2) := drop_loop (clients st1) st1 in
    let st3 := set_clients cs st2 in
    if negb (num_clients st3 =? 0) then
      let '(ok, st4) := realloc st3 in
      if ok
      then set_clients_size (round_up 64 (sizeof_client * num_clients st3)) st4
      else st4
    else set_clients_size 0 st3.

(** [for (i = 0; i < num_clients; i++) if (cond) write_logfile(&clients[i], 1);] *)
Fixpoint flush_where (cond : client -> bool) (cs : list client) (st : state)
    : list client * state :=
  match cs with
  | [] => ([], st)
  | c :: rest =>
      let '(c', st1) := if cond c then write_logfile c true st else (c, st) in
      let '(cs', st2) := flush_where cond rest st1 in
      (c' :: cs', st2)
  end.

Definition abort_marker : list ascii :=
  str "[aborted due to memory allocation failure]" ++ [nl].

(** [flush_all_and_abort]: clean up upon out of memory. *)
Definition flush_all_and_abort (st : state) : state :=
  let '(cs, st1) :=
    flush_where (fun c => negb (avail c =? 0)) (clients st) st in
  let st2 := set_clients cs st1 in
  let st3 := emit (EvPrint (log_fp st2) abort_marker) st2 in
  let st4 := emit (EvFlush (log_fp st3)) st3 in
  set_status (Some 1) (emit (EvExit 1) st4).

(** The first loop of [find_client]: the index of the client whose address
    equals [a] under [memcmp]. *)
Fixpoint lookup_client (a : sockaddr_in) (cs : list client) : option nat :=
  match cs with
  | [] => None
  | c :: rest =>
      if decide (addr c = a) then Some O
      else S <$> lookup_client a rest
  end.

(** The client [find_client] makes for a new sender: [memset] to 0, then
    the address and its rendering. *)
Definition fresh_client (a : sockaddr_in) : client :=
  {| addr := a; buffer := []; buffer_size := 0;
     addr_str := snprintf 23 (addr_text a); stamp := 0 |}.

(** The end of [find_client]: grow the array by one client. *)
Definition new_client (a : sockaddr_in) (st : state) : option nat * state :=
  let '(ok, st1) := realloc st in
  if negb ok then (None, st1)
  else
    let st2 :=
      set_clients_size (round_up 64 (sizeof_client * (num_clients st1 + 1))) st1 in
    (Some (length (clients st2)),
     set_clients (clients st2 ++ [fresh_client a]) st2).

(** [find_client(addr)]: the index of the client for [a], or [None] for
    [NULL]. *)
Definition find_client (a : sockaddr_in) (st : state) : option nat * state :=
  match lookup_client a (clients st) with
  | Some i => (Some i, st)
  | None =>
      let i := num_clients st in
      if i >=? max_clients st then
        let st1 := drop_memory_usage (set_try_drop_memory_usage true st) in
        if i >=? max_clients st1 then (None, st1)
        else new_client a st1
      else new_client a st
  end.

(** The timeout check of [do_main]. *)
Definition check_timeout (now : Z) (st : state) : state :=
  let '(cs, st1) :=
    flush_where
      (fun c => negb (avail c =? 0) && (now - stamp c >=? wait_timeout st))
      (clients st) st in
  set_clients cs st1.

(** The end of the body of the receiving loop of [do_main], once [realloc]
    has succeeded: append the data to the line, then write what is
    complete or too long. *)
Definition store_datagram (d : datagram) (ptr1 : client) (st2 : state)
    : client * state :=
  let len := Z.of_nat (length (payload d)) in
  let ptr2 :=
    set_buffer_size (round_up 32 (avail ptr1 + len))
      (set_buffer (buffer ptr1 ++ payload d) ptr1) in
  (* Write if at least one line completed. *)
  let '(ptr3, st3) :=
    if bool_decide (is_Some (memchr nl (payload d)))
    then write_logfile ptr2 false st2 else (ptr2, st2) in
  (* Write if the line is too long. *)
  if avail ptr3 >=? wbuf_size st3
  then write_logfile ptr3 true st3 else (ptr3, st3).

(** The body of the receiving loop of [do_main], for one datagram. *)
Definition recv_datagram (now : Z) (d : datagram) (st : state) : state :=
  match find_client (sockaddr_of d) st with
  | (None, st1) => st1
  | (Some i, st1) =>
      match clients st1 !! i with
      | None => st1
      | Some ptr0 =>
          (* Save current time if receiving the first byte. *)
          let ptr1 := if avail ptr0 =? 0 then set_stamp now ptr0 else ptr0 in
          let '(ok, st2) := realloc st1 in
          if negb ok
          then flush_all_and_abort (set_clients (<[i := ptr1]> (clients st2)) st2)
          else
            let '(ptr4, st4) := store_datagram d ptr1 st2 in
            set_clients (<[i := ptr4]> (clients st4)) st4
      end
  end.

(** The receiving loop of [do_main] over the datagrams that arrive within
    the current second; an empty datagram makes [recvfrom] return 0, which
    leaves the loop. *)
Fixpoint drain (now : Z) (burst : list datagram) (st : state) : state :=
  match burst with
  | [] => st
  | d :: rest =>
      if Z.of_nat (length (payload d)) <=? 0 then st
      else
        let st1 := recv_datagram now d st in
        match status st1 with
        | Some _ => st1
        | None => drain now rest st1
        end
  end.

(** One round of the loop of [do_main] up to the call of
    [drop_memory_usage]: flush the log file, wake up at time [now], check
    for timeouts and receive [burst]. *)
Definition do_main_receive (now : Z) (burst : list datagram) (st : state)
    : state :=
  let st1 := emit (EvFlush (log_fp st)) st in
  let st2 := check_timeout now st1 in
  drain now burst st2.

(** One round of the loop of [do_main]. *)
Definition do_main_round (now : Z) (burst : list datagram) (st : state)
    : state :=
  let st1 := do_main_receive now burst st in
  match status st1 with
  | Some _ => st1
  | None => drop_memory_usage st1
  end.

(** The sanity checks of [do_init]. *)
Definition clamp (lo hi v : Z) : Z :=
  let v1 := if v <? lo then lo else v in
  if v1 >? hi then hi else v1.

(** [do_init], without the socket: the options as parsed, the sanity
    checks, and the opening of the initial log file at time [now]. *)
Definition do_init (clients_opt timeout_opt wbuf_opt now : Z)
    (fopens reallocs : list bool) : state :=
  let st0 :=
    {| clients := []; clients_size := 0;
       max_clients := clamp 10 65536 clients_opt;
       wbuf_size := clamp 1024 1048576 wbuf_opt;
       wait_timeout := clamp 5 600 timeout_opt;
       try_drop_memory_usage := false; log_fp := None;
       last_tm := last_tm_init; last_time := 0; stamp_buf := [];
       out := []; fopen_tape := fopens; realloc_tape := reallocs;
       opened := O; status := None |} in
  let t := default (last_tm st0) (localtime now) in
  let st1 := switch_logfile t st0 in
  match log_fp st1 with
  | None => set_status (Some 1) st1
  | Some _ => st1
  end.

End Program.

(** ** The command line *)

(** The variables that the options of [do_init] set: [addr.sin_addr.s_addr],
    [addr.sin_port], [log_dir], [wait_timeout], [max_clients], [wbuf_size]
    and [rbuf_size]. *)
Record options := {
  opt_addr : Z;
  opt_port : Z;
  log_dir : list ascii;
  opt_wait_timeout : Z;
  opt_max_clients : Z;
  opt_wbuf_size : Z;
  rbuf_size : Z
}.

(** The initial values: [htonl(INADDR_ANY)], [htons(6666)], ["."] and the
    initializers of the variables. *)
Definition default_options : options :=
  {| opt_addr := 0; opt_port := htons 6666; log_dir := str ".";
     opt_wait_timeout := 10; opt_max_clients := 1024;
     opt_wbuf_size := 65536; rbuf_size := 8 * 1048576 |}.

(** [!strncmp(arg, prefix, strlen(prefix))] *)
Fixpoint has_prefix (prefix arg : list ascii) : bool :=
  match prefix, arg with
  | [], _ => true
  | p :: prefix', a :: arg' => Ascii.eqb p a && has_prefix prefix' arg'
  | _ :: _, [] => false
  end.

(** What [usage] prints on [stderr] before [exit(1)]. *)
Definition usage (name : list ascii) : list ascii :=
  str "Simple UDP logger" ++ [nl; nl] ++ str "Usage:" ++ [nl] ++
  str "  " ++ name ++
  str " [ip=$listen_ip] [port=$listen_port] [dir=$log_dir] [timeout=$seconds_waiting_for_newline] [clients=$max_clients] [wbuf=$write_buffer_size] [rbuf=$receive_buffer_size]" ++
  [nl; nl] ++
  str "The value of $seconds_waiting_for_newline should be between 5 and 600." ++
  [nl] ++
  str "The value of $max_clients should be between 10 and 65536." ++ [nl] ++
  str "The value of $write_buffer_size should be between 1024 and 1048576." ++
  [nl] ++
  str "The value of $receive_buffer_size should be 65536 and 1073741824 (though actual size might be adjusted by the kernel)." ++
  [nl].

(** How [do_init] ends, up to the creation of the socket: [usage] has
    printed [stderr] and called [exit(code)], or the options are set and
    the program is in the state [st]. *)
Inductive startup :=
| Exit (stderr : list ascii) (code : Z)
| Ready (o : options) (st : state).

Section CommandLine.

(** [atoi] and [inet_addr] of the C library, and [localtime]. *)
Variable atoi : list ascii -> Z.
Variable inet_addr : list ascii -> Z.
Variable localtime : Z -> option tm.

(** The body of the loop of [do_init] over the arguments; [None] where
    [usage] is called. *)
Definition set_option (arg : list ascii) (o : options) : option options :=
  if has_prefix (str "ip=") arg then
    Some {| opt_addr := inet_addr (drop 3 arg); opt_port := opt_port o;
            log_dir := log_dir o; opt_wait_timeout := opt_wait_timeout o;
            opt_max_clients := opt_max_clients o;
            opt_wbuf_size := opt_wbuf_size o; rbuf_size := rbuf_size o |}
  else if has_prefix (str "port=") arg then
    Some {| opt_addr := opt_addr o; opt_port := htons (atoi (drop 5 arg));
            log_dir := log_dir o; opt_wait_timeout := opt_wait_timeout o;
            opt_max_clients := opt_max_clients o;
            opt_wbuf_size := opt_wbuf_size o; rbuf_size := rbuf_size o |}
  else if has_prefix (str "dir=") arg then
    Some {| opt_addr := opt_addr o; opt_port := opt_port o;
            log_dir := drop 4 arg; opt_wait_timeout := opt_wait_timeout o;
            opt_max_clients := opt_max_clients o;
            opt_wbuf_size := opt_wbuf_size o; rbuf_size := rbuf_size o |}
  else if has_prefix (str "timeout=") arg then
    Some {| opt_addr := opt_addr o; opt_port := opt_port o;
            log_dir := log_dir o; opt_wait_timeout := atoi (drop 8 arg);
            opt_max_clients := opt_max_clients o;
            opt_wbuf_size := opt_wbuf_size o; rbuf_size := rbuf_size o |}
  else if has_prefix (str "clients=") arg then
    Some {| opt_addr := opt_addr o; opt_port := opt_port o;
            log_dir := log_dir o; opt_wait_timeout := opt_wait_timeout o;
            opt_max_clients := atoi (drop 8 arg);
            opt_wbuf_size := opt_wbuf_size o; rbuf_size := rbuf_size o |}
  else if has_prefix (str "wbuf=") arg then
    Some {| opt_addr := opt_addr o; opt_port := opt_port o;
            log_dir := log_dir o; opt_wait_timeout := opt_wait_timeout o;
            opt_max_clients := opt_max_clients o;
            opt_wbuf_size := atoi (drop 5 arg); rbuf_size := rbuf_size o |}
  else if has_prefix (str "rbuf=") arg then
    Some {| opt_addr := opt_addr o; opt_port := opt_port o;
            log_dir := log_dir o; opt_wait_timeout := opt_wait_timeout o;
            opt_max_clients := opt_max_clients o;
            opt_wbuf_size := opt_wbuf_size o; rbuf_size := atoi (drop 5 arg) |}
  else None.

(** [for (i = 1; i < argc; i++)] *)
Fixpoint parse_options (args : list (list ascii)) (o : options)
    : option options :=
  match args with
  | [] => Some o
  | arg :: rest =>
      match set_option arg o with
      | Some o' => parse_options rest o'
      | None => None
      end
  end.

(** The sanity check of [do_init] on the options. *)
Definition sanity_check (o : options) : options :=
  {| opt_addr := opt_addr o; opt_port := opt_port o; log_dir := log_dir o;
     opt_wait_timeout := clamp 5 600 (opt_wait_timeout o);
     opt_max_clients := clamp 10 65536 (opt_max_clients o);
     opt_wbuf_size := clamp 1024 1048576 (opt_wbuf_size o);
     rbuf_size := clamp 65536 (1024 * 1048576) (rbuf_size o) |}.

(** [do_init(argc, argv)] from the command line on, without the socket
    and the change of directory. *)
Definition do_init_argv (argv : list (list ascii)) (now : Z)
    (fopens reallocs : list bool) : startup :=
  match parse_options (tail argv) default_options with
  | None => Exit (usage (hd [] argv)) 1
  | Some o =>
      Ready (sanity_check o)
        (do_init localtime (opt_max_clients o) (opt_wait_timeout o)
           (opt_wbuf_size o) now fopens reallocs)
  end.

End CommandLine.

(** ** A host in the UTC time zone *)

(** [localtime] for UTC: the civil date of a number of seconds since the
    epoch, used to run the program on concrete inputs. *)
Definition utc (t : Z) : option tm :=
  let days := t / 86400 in
  let secs := t mod 86400 in
  let z := days + 719468 in
  let era := z / 146097 in
  let doe := z - era * 146097 in
  let yoe := (doe - doe / 1460 + doe / 36524 - doe / 146096) / 365 in
  let doy := doe - (365 * yoe + yoe / 4 - yoe / 100) in
  let mp := (5 * doy + 2) / 153 in
  let d := doy - (153 * mp + 2) / 5 + 1 in
  let m := if mp <? 10 then mp + 3 else mp - 9 in
  let y := yoe + era * 400 + (if m <=? 2 then 1 else 0) in
  Some {| tm_sec := secs mod 60; tm_min := (secs / 60) mod 60;
          tm_hour := secs / 3600; tm_mday := d; tm_mon := m - 1;
          tm_year := y - 1900 |}.

(** * The vocabulary of the properties *)

(** ** Lines of a buffer *)

(** The complete lines of [buf] (each with its newline) and the bytes after
    the last newline, when [cur] is the part of the current line already
    seen.  This is the reference against which the loop of [write_logfile]
    is compared. *)
Fixpoint cut_lines (cur buf : list ascii) : list (list ascii) * list ascii :=
  match buf with
  | [] => ([], cur)
  | x :: rest =>
      if decide (x = nl) then
        let '(ls, r) := cut_lines [] rest in ((cur ++ [x]) :: ls, r)
      else cut_lines (cur ++ [x]) rest
  end.

Definition lines_of (buf : list ascii) : list (list ascii) :=
  (cut_lines [] buf).1.

Definition after_last_nl (buf : list ascii) : list ascii :=
  (cut_lines [] buf).2.

(** Number of newline characters. *)
Definition count_nl (buf : list ascii) : nat :=
  length (filter (fun x => x = nl) buf).

(** A complete line: bytes without a newline, then one newline. *)
Definition is_line (l : list ascii) : Prop :=
  exists body, l = body ++ [nl] /\ (nl ∉ body).

(** ** Traces *)

(** The records in a trace: for each, the sender's prefix and what
    follows it. *)
Fixpoint records (evs : list event) : list (list ascii * list ascii) :=
  match evs with
  | [] => []
  | EvRecord _ _ a d :: rest => (a, d) :: records rest
  | _ :: rest => records rest
  end.

(** The names of the files the trace tries to open. *)
Fixpoint opens (evs : list event) : list (list ascii) :=
  match evs with
  | [] => []
  | EvOpen name _ :: rest => name :: opens rest
  | _ :: rest => opens rest
  end.

(** The events a step added to the trace. *)
Definition new_events (st st' : state) : list event :=
  drop (length (out st)) (out st').

(** ** What a function leaves unchanged *)

(** [unchanged_but_log st st']: [st'] differs from [st] only in the state
    of the log file (stream, cached stamp, date, trace, [fopen] results)
    and the reclamation flag. *)
Record unchanged_but_log (st st' : state) : Prop := {
  ubl_clients : clients st' = clients st;
  ubl_clients_size : clients_size st' = clients_size st;
  ubl_max_clients : max_clients st' = max_clients st;
  ubl_wbuf_size : wbuf_size st' = wbuf_size st;
  ubl_wait_timeout : wait_timeout st' = wait_timeout st;
  ubl_realloc_tape : realloc_tape st' = realloc_tape st;
  ubl_status : status st' = status st;
  ubl_log_fp : is_Some (log_fp st) -> is_Some (log_fp st');
  ubl_out : exists evs, out st' = out st ++ evs
}.

(** [unchanged_but_memory st st']: [st'] differs from [st] only in the
    clients, the allocations and the reclamation flag. *)
Record unchanged_but_memory (st st' : state) : Prop := {
  ubm_max_clients : max_clients st' = max_clients st;
  ubm_wbuf_size : wbuf_size st' = wbuf_size st;
  ubm_wait_timeout : wait_timeout st' = wait_timeout st;
  ubm_log_fp : log_fp st' = log_fp st;
  ubm_last_tm : last_tm st' = last_tm st;
  ubm_last_time : last_time st' = last_time st;
  ubm_stamp_buf : stamp_buf st' = stamp_buf st;
  ubm_out : out st' = out st;
  ubm_fopen_tape : fopen_tape st' = fopen_tape st;
  ubm_opened : opened st' = opened st;
  ubm_status : status st' = status st
}.

(** [same_data c c']: [c'] is [c] up to the size of its allocation. *)
Definition same_data (c c' : client) : Prop :=
  addr c' = addr c /\ addr_str c' = addr_str c /\
  buffer c' = buffer c /\ stamp c' = stamp c.

(** A client with bytes in its buffer ([ptr->avail] is not 0). *)
Definition has_data (c : client) : Prop := buffer c <> [].

Global Instance has_data_dec c : Decision (has_data c).
Proof. unfold has_data. apply _. Defined.

(** ** The outcomes of [find_client] and of [recv_datagram] *)

(** The outcomes of [find_client]: the client is there; or it is added at
    the end; or the array is full, the reclamation pass runs and the caller
    gets [NULL]; or [realloc] fails. *)
Inductive find_client_outcome (a : sockaddr_in) (st : state)
    : option nat -> state -> Prop :=
| fc_found i :
    lookup_client a (clients st) = Some i ->
    find_client_outcome a st (Some i) st
| fc_added st' :
    lookup_client a (clients st) = None ->
    num_clients st < max_clients st ->
    hd true (realloc_tape st) = true ->
    clients st' = clients st ++ [fresh_client a] ->
    realloc_tape st' = tail (realloc_tape st) ->
    unchanged_but_memory st st' ->
    try_drop_memory_usage st' = try_drop_memory_usage st ->
    find_client_outcome a st (Some (length (clients st))) st'
| fc_full :
    lookup_client a (clients st) = None ->
    max_clients st <= num_clients st ->
    find_client_outcome a st None
      (drop_memory_usage (set_try_drop_memory_usage true st))
| fc_nomem :
    lookup_client a (clients st) = None ->
    num_clients st < max_clients st ->
    hd true (realloc_tape st) = false ->
    find_client_outcome a st None
      (set_realloc_tape (tail (realloc_tape st)) st).

(** The client as it is when the first byte of a line gets its time. *)
Definition stamped (now : Z) (c : client) : client :=
  if avail c =? 0 then set_stamp now c else c.

(** The bytes buffered for the sender [a]. *)
Definition pending (a : sockaddr_in) (st : state) : list ascii :=
  match lookup_client a (clients st) with
  | Some i => default [] (buffer <$> clients st !! i)
  | None => []
  end.

(** A tape on which no call fails. *)
Definition all_succeed (tape : list bool) : Prop :=
  Forall (fun b => b = true) tape.

Definition any_time (t : Z) : Prop := True.

(** A clock that does not read 0, the initial value of [last_time]. *)
Definition after_epoch (t : Z) : Prop := t <> 0.

Section Steps.

Variable localtime : Z -> option tm.

(** The outcomes of [recv_datagram]: the datagram is dropped; or [realloc]
    fails and the program aborts; or the data is stored. *)
Inductive recv_outcome (now : Z) (d : datagram) (st : state) : state -> Prop :=
| ro_dropped st' :
    find_client_outcome (sockaddr_of d) st None st' ->
    recv_outcome now d st st'
| ro_abort i st1 c0 :
    find_client_outcome (sockaddr_of d) st (Some i) st1 ->
    clients st1 !! i = Some c0 ->
    hd true (realloc_tape st1) = false ->
    recv_outcome now d st
      (flush_all_and_abort localtime
         (set_clients (<[i := stamped now c0]> (clients st1))
            (set_realloc_tape (tail (realloc_tape st1)) st1)))
| ro_stored i st1 c0 c4 st4 :
    find_client_outcome (sockaddr_of d) st (Some i) st1 ->
    clients st1 !! i = Some c0 ->
    hd true (realloc_tape st1) = true ->
    store_datagram localtime d (stamped now c0)
      (set_realloc_tape (tail (realloc_tape st1)) st1) = (c4, st4) ->
    recv_outcome now d st (set_clients (<[i := c4]> (clients st4)) st4).

(** The states the program goes through when [time] only returns values
    in [clock]: after [do_init], each step is one of the actions of the
    loop of [do_main]. *)
Inductive reachable (clock : Z -> Prop) : state -> Prop :=
| reach_init c t w now fo re :
    clock now ->
    status (do_init localtime c t w now fo re) = None ->
    reachable clock (do_init localtime c t w now fo re)
| reach_wait st :
    reachable clock st -> status st = None ->
    reachable clock (emit (EvFlush (log_fp st)) st)
| reach_timeout now st :
    reachable clock st -> status st = None -> clock now ->
    reachable clock (check_timeout localtime now st)
| reach_recv now d st :
    reachable clock st -> status st = None -> clock now ->
    0 < Z.of_nat (length (payload d)) <= 65536 ->
    reachable clock (recv_datagram localtime now d st)
| reach_reclaim st :
    reachable clock st -> status st = None ->
    reachable clock (drop_memory_usage st).

(** The datagrams [steps] (time of arrival and bytes) of the sender
    [(a, p)], received one after the other. *)
Definition feed (a p : Z) (steps : list (Z * list ascii)) (st : state) : state :=
  foldl
    (fun s step =>
       recv_datagram localtime step.1
         {| src_addr := a; src_port := p; payload := step.2 |} s)
    st steps.

End Steps.

(** ** Invariants *)

(** The sender of a client: address and port. *)
Definition identity (c : client) : Z * Z :=
  (sin_addr (addr c), sin_port (addr c)).

(** A client of the registry: its address is one [recvfrom] delivers, its
    prefix is the rendering of the address, its buffer holds no newline
    and is shorter than the write-buffer limit [w]. *)
Definition client_ok (w : Z) (c : client) : Prop :=
  sin_family (addr c) = AF_INET /\ sin_zero (addr c) = 0 /\
  addr_str c = snprintf 23 (addr_text (addr c)) /\
  (nl ∉ buffer c) /\ avail c < w.

(** The invariant of the registry: the options are within their bounds,
    there are at most [max_clients] clients, no two for the same address,
    all of them well formed, and the log file is open. *)
Record inv (st : state) : Prop := {
  inv_max_clients : 10 <= max_clients st <= 65536;
  inv_wbuf_size : 1024 <= wbuf_size st <= 1048576;
  inv_wait_timeout : 5 <= wait_timeout st <= 600;
  inv_count : num_clients st <= max_clients st;
  inv_nodup : NoDup (map addr (clients st));
  inv_clients : Forall (client_ok (wbuf_size st)) (clients st);
  inv_log_fp : is_Some (log_fp st)
}.

(** ** The format of a record *)

Definition is_digit (c : ascii) : bool :=
  (48 <=? nat_of_ascii c)%nat && (nat_of_ascii c <=? 57)%nat.

(** [n] digits. *)
Definition digits (n : nat) (s : list ascii) : bool :=
  (length s =? n)%nat && forallb is_digit s.


(** A broken-down time whose fields fit the widths of the format. *)
Definition tm_printable (t : tm) : Prop :=
  0 <= tm_year t + 1900 <= 9999 /\ 0 <= tm_mon t + 1 <= 99 /\
  0 <= tm_mday t <= 99 /\ 0 <= tm_hour t <= 99 /\
  0 <= tm_min t <= 99 /\ 0 <= tm_sec t <= 99.

(** [all_below n v P]: [P] holds of the [n] integers from [v] on. *)
Fixpoint all_below (n : nat) (v : Z) (P : Z -> bool) : bool :=
  match n with
  | O => true
  | S n' => P v && all_below n' (v + 1) P
  end.






(** ** Concrete runs

    A host in the UTC time zone, started on 2024-01-31 at 23:59:50 with
    [clients=10 timeout=10 wbuf=1024]; the senders are 192.168.0.[n],
    port 6666. *)

Definition line (s : string) : list ascii := str s ++ [nl].

Definition from_host (n : Z) (data : list ascii) : datagram :=
  {| src_addr := 0x0000A8C0 + n * 2 ^ 24; src_port := 0x0A1A;
     payload := data |}.

Definition boot : state := do_init utc 10 10 1024 1706745590 [] [].

(** First round: one line from host 1.  Writing it switches the log file
    (the date is still that of [last_tm_init]), so the round ends with a
    real reclamation pass. *)
Definition day1 : state :=
  do_main_round utc 1706745591 [from_host 1 (line "boot")] boot.

(** Second round: hosts 1 to 10 send one complete line each. *)
Definition full : state :=
  do_main_round utc 1706745592
    (map (fun n => from_host n (line "up")) [1; 2; 3; 4; 5; 6; 7; 8; 9; 10])
    day1.

(** The same host with memory for six allocations only: after its second
    round it holds an unfinished line from host 1 and one from host 2. *)
Definition starving : state :=
  do_main_round utc 1706745592
    [from_host 1 (str "par"); from_host 2 (str "tial")]
    (do_main_round utc 1706745591 [from_host 1 (line "boot")]
       (do_init utc 10 10 1024 1706745590 []
          [true; true; true; true; true; true; false])).

(** The same host on a disk where the third [fopen] fails, after its first
    round. *)
Definition disk_full : state :=
  do_main_round utc 1706745591 [from_host 1 (line "boot")]
    (do_init utc 10 10 1024 1706745590 [true; true; false] []).

(** 2024-02-01 00:00:01 *)
Definition midnight : tm :=
  {| tm_sec := 1; tm_min := 0; tm_hour := 0; tm_mday := 1; tm_mon := 1;
     tm_year := 124 |}.

Definition tm_printable_b (t : tm) : bool :=
  (0 <=? tm_year t + 1900) && (tm_year t + 1900 <=? 9999) &&
  (0 <=? tm_mon t + 1) && (tm_mon t + 1 <=? 99) &&
  (0 <=? tm_mday t) && (tm_mday t <=? 99) &&
  (0 <=? tm_hour t) && (tm_hour t <=? 99) &&
  (0 <=? tm_min t) && (tm_min t <=? 99) &&
  (0 <=? tm_sec t) && (tm_sec t <=? 99).

(** [localtime] for UTC that fails, like the C library's, on a time whose
    year does not fit the four digits of the format. *)
Definition calendar (t : Z) : option tm :=
  match utc t with
  | Some r => if tm_printable_b r then Some r else None
  | None => None
  end.

(** Two rounds with [calendar] for [localtime]: a line from host 1, then a
    line from host 1 and an unfinished one from host 2. *)
Definition logged : state :=
  do_main_round calendar 1706745592
    [from_host 1 (line "up"); from_host 2 (str "partial")]
    (do_main_round calendar 1706745591 [from_host 1 (line "boot")]
       (do_init calendar 10 10 1024 1706745590 [] [])).

(** ** Memory *)

(** The allocations hold what is stored in them: every buffer its valid
    bytes, the array its clients. *)
Definition alloc_ok (st : state) : Prop :=
  Forall (fun c => avail c <= buffer_size c) (clients st) /\
  sizeof_client * num_clients st <= clients_size st.

(** The number of bytes buffered in all clients. *)
Fixpoint buffered (cs : list client) : Z :=
  match cs with
  | [] => 0
  | c :: rest => avail c + buffered rest
  end.

(** ** Timeouts and senders *)

(** The test of the timeout check of [do_main]: the client has data and
    its first byte is at least [w] seconds old. *)
Definition stale (now w : Z) (c : client) : bool :=
  negb (avail c =? 0) && (now - stamp c >=? w).

(** The buffer of the first client of [cs] whose address is [a]. *)
Fixpoint find_buffer (a : sockaddr_in) (cs : list client) : list ascii :=
  match cs with
  | [] => []
  | c :: rest => if decide (addr c = a) then buffer c else find_buffer a rest
  end.

(** ** The log file *)

(** [same_log st st']: the state of the log file (stream, date, cached
    stamp, trace, [fopen] results) is the same in [st] and [st']. *)
Record same_log (st st' : state) : Prop := {
  sl_log_fp : log_fp st' = log_fp st;
  sl_last_tm : last_tm st' = last_tm st;
  sl_last_time : last_time st' = last_time st;
  sl_stamp_buf : stamp_buf st' = stamp_buf st;
  sl_out : out st' = out st;
  sl_fopen_tape : fopen_tape st' = fopen_tape st;
  sl_opened : opened st' = opened st
}.

(** The calls on the log stream other than those of [write_logfile] and
    [switch_logfile]. *)
Inductive plain_event (st : state) : event -> Prop :=
| pe_print text : plain_event st (EvPrint (log_fp st) text)
| pe_flush : plain_event st (EvFlush (log_fp st))
| pe_exit code : plain_event st (EvExit code).

(** The streams that are open after the events [evs], when [live] were
    open before. *)
Fixpoint live_after (live : list FILE) (evs : list event) : list FILE :=
  match evs with
  | [] => live
  | EvOpen _ (Some f) :: rest => live_after (f :: live) rest
  | EvClose f :: rest => live_after (filter (fun g => g <> f) live) rest
  | _ :: rest => live_after live rest
  end.

(** The events [evs] use the streams as the C library asks: what is
    written, flushed or closed is an open stream, and [fopen] returns a
    stream that is not open already. *)
Fixpoint streams_used_ok (live : list FILE) (evs : list event) : Prop :=
  match evs with
  | [] => True
  | e :: rest =>
      match e with
      | EvRecord fp _ _ _ | EvPrint fp _ | EvFlush fp =>
          exists f, fp = Some f /\ f ∈ live
      | EvClose f => f ∈ live
      | EvOpen _ (Some f) => f ∉ live
      | _ => True
      end /\ streams_used_ok (live_after live [e]) rest
  end.

(** The invariant of the streams: the trace uses them correctly, and the
    one stream open is [log_fp]. *)
Definition streams_inv (st : state) : Prop :=
  streams_used_ok [] (out st) /\
  exists f, log_fp st = Some f /\ live_after [] (out st) = [f] /\
            (f_id f < opened st)%nat.

(** The stamp of an event, if it is a record. *)
Definition stamp_of (e : event) : option (list ascii) :=
  match e with
  | EvRecord _ s _ _ => Some s
  | _ => None
  end.

Section LogSteps.

Variable localtime : Z -> option tm.

(** What happens to the log file between two states: calls of
    [write_logfile] for clients whose time of first byte is in [clock],
    other calls on the stream, and steps that leave the log file alone. *)
Inductive log_steps (clock : Z -> Prop) : state -> state -> Prop :=
| ls_same st st' : same_log st st' -> log_steps clock st st'
| ls_write c forced st st' :
    clock (stamp c) ->
    log_steps clock (write_logfile localtime c forced st).2 st' ->
    log_steps clock st st'
| ls_emit e st st' :
    plain_event st e -> log_steps clock (emit e st) st' ->
    log_steps clock st st'
| ls_then st st1 st' :
    same_log st st1 -> log_steps clock st1 st' -> log_steps clock st st'.

(** The cached stamp is the rendering of [last_time], once [last_time] has
    left its initial value. *)
Definition cache_ok (st : state) : Prop :=
  last_time st <> 0 ->
  forall t, localtime (last_time st) = Some t ->
            stamp_buf st = snprintf 23 (stamp_text t).

End LogSteps.

(** ** The date marker *)

(** The time [s] is of the day [t]: [localtime] renders it with the date
    of [t], or fails, in which case [write_logfile] takes the date of
    [last_tm]. *)
Definition on_day (localtime : Z -> option tm) (t : tm) (s : Z) : Prop :=
  day_changed (default t (localtime s)) t = false.

(** The date marker [last_tm] holds the day of [last_time], the time of
    the record written last, once [last_time] has left its initial
    value. *)
Definition date_ok (localtime : Z -> option tm) (st : state) : Prop :=
  last_time st <> 0 -> on_day localtime (last_tm st) (last_time st).

(** ** The file of the day *)

(** A clock that never reads 0 and whose times [localtime] renders as
    dates that fit the format and differ from the initial [last_tm]. *)
Definition civil (localtime : Z -> option tm) (now : Z) : Prop :=
  now <> 0 /\
  exists t, localtime now = Some t /\ tm_printable t /\
            day_changed t last_tm_init = true.

(** [fopen] returned [NULL]. *)
Definition failed_open (e : event) : bool :=
  match e with
  | EvOpen _ None => true
  | _ => false
  end.

(** A record is in the file of its day: the stream it is written to was
    opened under the name made of the date of its stamp and [.log]. *)
Definition in_file_of_day (e : event) : Prop :=
  match e with
  | EvRecord fp s _ _ =>
      exists f, fp = Some f /\ f_name f = take 10 s ++ str ".log"
  | _ => True
  end.

Definition same_day (t u : tm) : Prop :=
  tm_mday t = tm_mday u /\ tm_mon t = tm_mon u /\ tm_year t = tm_year u.

(** The invariant of the file of the day: as long as nothing was written
    [last_tm] has its initial value; afterwards the cached stamp renders a
    time of the day of [last_tm] and the stream is the file of that day;
    and the records written so far are in the file of their day. *)
Definition day_ok (st : state) : Prop :=
  (last_time st = 0 -> last_tm st = last_tm_init) /\
  (last_time st <> 0 ->
   exists f t, log_fp st = Some f /\
               stamp_buf st = snprintf 23 (stamp_text t) /\
               tm_printable t /\
               f_name f = snprintf 15 (filename_text t) /\
               same_day t (last_tm st)) /\
  Forall in_file_of_day (out st).

(** Three rounds around midnight on a host with [calendar]: host 1 sends
    an unfinished line at 23:59:59, host 2 a line at 00:00:01, and at
    00:00:10 the line of host 1 times out. *)
Definition two_days : state :=
  do_main_round calendar 1706745610 []
    (do_main_round calendar 1706745601 [from_host 2 (line "early")]
       (do_main_round calendar 1706745599 [from_host 1 (str "late")]
          (do_init calendar 10 10 1024 1706745590 [] []))).

(** The name of the file and the data of each record. *)
Fixpoint filed (evs : list event) : list (list ascii * list ascii) :=
  match evs with
  | [] => []
  | EvRecord (Some f) _ _ d :: rest => (f_name f, d) :: filed rest
  | _ :: rest => filed rest
  end.

(** ** The options *)

(** The names of the options, as [do_init] tests them. *)
Definition option_names : list (list ascii) :=
  [str "ip="; str "port="; str "dir="; str "timeout="; str "clients=";
   str "wbuf="; str "rbuf="].

(** An argument that is one of the options. *)
Definition known (arg : list ascii) : bool :=
  existsb (fun p => has_prefix p arg) option_names.

(** The value of the last argument that begins with [name], if any. *)
Fixpoint last_value (name : list ascii) (args : list (list ascii))
    : option (list ascii) :=
  match args with
  | [] => None
  | arg :: rest =>
      match last_value name rest with
      | Some v => Some v
      | None =>
          if has_prefix name arg then Some (drop (length name) arg) else None
      end
  end.

(** [atoi] on the strings of digits. *)
Definition decimal (s : list ascii) : Z :=
  foldl (fun n c => 10 * n + (Z.of_nat (nat_of_ascii c) - 48)) 0 s.

(** [inet_addr] on the one address of the examples; [INADDR_NONE]
    elsewhere. *)
Definition loopback (s : list ascii) : Z :=
  if decide (s = str "127.0.0.1") then 0x0100007F else 0xFFFFFFFF.

(** The first round of [boot] up to the call of [drop_memory_usage], when
    host 1 sends a line and the beginning of the next. *)
Definition unfinished : state :=
  do_main_receive utc 1706745591 [from_host 1 (line "boot" ++ str "par")] boot.



(** * Properties *)

(** ** Lines of a buffer *)

Lemma memchr_None c buf : memchr c buf = None <-> c ∉ buf.
Proof.
  induction buf as [|x buf IH]; simpl.
  - split; [intros _; apply not_elem_of_nil | done].
  - case_decide as Hx.
    + subst. split; [done | intros H; exfalso; apply H; left].
    + destruct (memchr c buf) eqn:E.
      * split; [done |]. intros H. exfalso. apply H. right.
        destruct (decide (c ∈ buf)) as [|Hn]; [done |].
        apply IH in Hn. done.
      * split; [| done]. intros _. rewrite not_elem_of_cons.
        split; [congruence | by apply IH].
Qed.

Lemma memchr_Some c buf i :
  memchr c buf = Some i ->
  exists body, take (S i) buf = body ++ [c] /\ (c ∉ body) /\ (i < length buf)%nat.
Proof.
  revert i. induction buf as [|x buf IH]; intros i; simpl; [done |].
  case_decide as Hx.
  - intros [= <-]. subst. exists []. simpl. rewrite take_0.
    split_and!; [done | apply not_elem_of_nil | lia].
  - destruct (memchr c buf) as [j|] eqn:E; [| done].
    intros [= <-]. destruct (IH j eq_refl) as (body & Ht & Hb & Hl).
    exists (x :: body). simpl in *. rewrite Ht.
    split_and!; [done | | lia].
    rewrite not_elem_of_cons. split; [congruence | done].
Qed.

Lemma cut_lines_no_nl cur buf :
  nl ∉ buf -> cut_lines cur buf = ([], cur ++ buf).
Proof.
  revert cur. induction buf as [|x buf IH]; intros cur Hn; simpl.
  - by rewrite app_nil_r.
  - apply not_elem_of_cons in Hn as [Hx Hn].
    case_decide; [done |]. rewrite IH; [| done].
    by rewrite <- app_assoc.
Qed.

Lemma cut_lines_app cur x y :
  cut_lines cur (x ++ y) =
  let '(l1, r1) := cut_lines cur x in
  let '(l2, r2) := cut_lines r1 y in (l1 ++ l2, r2).
Proof.
  revert cur. induction x as [|a x IH]; intros cur; simpl.
  - by destruct (cut_lines cur y).
  - case_decide.
    + rewrite IH. destruct (cut_lines [] x) as [l1 r1].
      by destruct (cut_lines r1 y).
    + apply IH.
Qed.

Lemma cut_lines_cur cur buf :
  nl ∉ cur -> cut_lines cur buf = cut_lines [] (cur ++ buf).
Proof.
  intros Hn. rewrite cut_lines_app, (cut_lines_no_nl [] cur Hn). simpl.
  by destruct (cut_lines cur buf).
Qed.

(** What [cut_lines] returns: the lines and the rest make up the input, the
    rest has no newline, every line is one, and there are as many lines
    as newlines. *)
Lemma cut_lines_spec cur buf :
  nl ∉ cur ->
  let '(ls, r) := cut_lines cur buf in
  concat ls ++ r = cur ++ buf /\ (nl ∉ r) /\ Forall is_line ls /\
  length ls = count_nl buf.
Proof.
  revert cur. induction buf as [|x buf IH]; intros cur Hn; simpl.
  - rewrite app_nil_r. split_and!; [done | done | constructor | done].
  - case_decide as Hx.
    + subst x. specialize (IH [] (not_elem_of_nil _)).
      destruct (cut_lines [] buf) as [ls r].
      destruct IH as (Hc & Hr & Hl & Hk). simpl in *.
      split_and!.
      * rewrite <- !app_assoc. simpl. by rewrite Hc.
      * done.
      * constructor; [by exists cur | done].
      * unfold count_nl in *. rewrite filter_cons_True by done. simpl. lia.
    + assert (Hn' : nl ∉ cur ++ [x]).
      { rewrite elem_of_app, list_elem_of_singleton. intros [?|?]; congruence. }
      specialize (IH _ Hn'). destruct (cut_lines (cur ++ [x]) buf) as [ls r].
      destruct IH as (Hc & Hr & Hl & Hk).
      split_and!; [by rewrite Hc, <- app_assoc | done | done |].
      unfold count_nl in *. rewrite filter_cons_False by congruence. done.
Qed.

Lemma after_last_nl_no_nl buf : nl ∉ after_last_nl buf.
Proof.
  unfold after_last_nl.
  pose proof (cut_lines_spec [] buf (not_elem_of_nil _)) as H.
  destruct (cut_lines [] buf). simpl. tauto.
Qed.

Lemma lines_of_after buf : concat (lines_of buf) ++ after_last_nl buf = buf.
Proof.
  unfold lines_of, after_last_nl.
  pose proof (cut_lines_spec [] buf (not_elem_of_nil _)) as H.
  destruct (cut_lines [] buf). simpl. tauto.
Qed.

Lemma lines_of_is_line buf : Forall is_line (lines_of buf).
Proof.
  unfold lines_of.
  pose proof (cut_lines_spec [] buf (not_elem_of_nil _)) as H.
  destruct (cut_lines [] buf). simpl. tauto.
Qed.

Lemma lines_of_length buf : length (lines_of buf) = count_nl buf.
Proof.
  unfold lines_of.
  pose proof (cut_lines_spec [] buf (not_elem_of_nil _)) as H.
  destruct (cut_lines [] buf). simpl. tauto.
Qed.

Lemma lines_of_no_nl buf : nl ∉ buf -> lines_of buf = [].
Proof. intros H. unfold lines_of. by rewrite cut_lines_no_nl. Qed.

Lemma after_last_nl_id buf : nl ∉ buf -> after_last_nl buf = buf.
Proof. intros H. unfold after_last_nl. by rewrite cut_lines_no_nl. Qed.

(** Lines survive an append: what was cut stays cut, and the rest is
    continued. *)
Lemma lines_of_app x y :
  lines_of (x ++ y) = lines_of x ++ lines_of (after_last_nl x ++ y).
Proof.
  unfold lines_of, after_last_nl. rewrite cut_lines_app.
  pose proof (after_last_nl_no_nl x) as Hn. unfold after_last_nl in Hn.
  destruct (cut_lines [] x) as [l1 r1]. simpl in *.
  rewrite (cut_lines_cur r1 y Hn). by destruct (cut_lines [] (r1 ++ y)).
Qed.

Lemma after_last_nl_app x y :
  after_last_nl (x ++ y) = after_last_nl (after_last_nl x ++ y).
Proof.
  unfold after_last_nl. rewrite cut_lines_app.
  pose proof (after_last_nl_no_nl x) as Hn. unfold after_last_nl in Hn.
  destruct (cut_lines [] x) as [l1 r1]. simpl in *.
  rewrite (cut_lines_cur r1 y Hn). by destruct (cut_lines [] (r1 ++ y)).
Qed.

Lemma cut_first_line body rest :
  nl ∉ body ->
  lines_of ((body ++ [nl]) ++ rest) = (body ++ [nl]) :: lines_of rest /\
  after_last_nl ((body ++ [nl]) ++ rest) = after_last_nl rest.
Proof.
  intros Hb. unfold lines_of, after_last_nl.
  rewrite <- app_assoc, cut_lines_app, (cut_lines_no_nl [] body Hb). simpl.
  by destruct (cut_lines [] rest).
Qed.

(** The loop of [write_logfile] against the reference: with the fuel
    [write_logfile] gives it, it writes one record per complete line and
    stops at the bytes after the last newline. *)
Lemma write_lines_cut fuel fp s a buf :
  (length buf < fuel)%nat ->
  write_lines fuel fp s a buf =
  (map (EvRecord fp s a) (lines_of buf), after_last_nl buf).
Proof.
  revert buf. induction fuel as [|fuel IH]; intros buf Hf; [lia |].
  simpl. destruct (memchr nl buf) as [i|] eqn:E.
  - destruct (memchr_Some _ _ _ E) as (body & Ht & Hb & Hl).
    rewrite IH by (rewrite length_drop; lia).
    destruct (cut_first_line body (drop (S i) buf) Hb) as [Hls Hr].
    rewrite <- Ht, take_drop in Hls, Hr. by rewrite Hls, Hr, Ht.
  - apply memchr_None in E.
    by rewrite lines_of_no_nl, after_last_nl_id.
Qed.

Lemma write_lines_no_nl fuel fp s a buf :
  (length buf < fuel)%nat -> nl ∉ (write_lines fuel fp s a buf).2.
Proof.
  intros H. rewrite write_lines_cut by done. apply after_last_nl_no_nl.
Qed.

Lemma records_app e1 e2 : records (e1 ++ e2) = records e1 ++ records e2.
Proof.
  induction e1 as [|e e1 IH]; [done |]. destruct e; simpl; by rewrite ?IH.
Qed.

Lemma records_map fp s a ls :
  records (map (EvRecord fp s a) ls) = map (pair a) ls.
Proof. induction ls as [|l ls IH]; simpl; by rewrite ?IH. Qed.

(** ** What the functions change *)

Lemma unchanged_but_log_refl st : unchanged_but_log st st.
Proof. split; try done. exists []. by rewrite app_nil_r. Qed.

Lemma unchanged_but_log_trans st1 st2 st3 :
  unchanged_but_log st1 st2 -> unchanged_but_log st2 st3 ->
  unchanged_but_log st1 st3.
Proof.
  intros [] []. split; try congruence; [auto |].
  destruct ubl_out0 as [e1 H1], ubl_out1 as [e2 H2].
  exists (e1 ++ e2). by rewrite H2, H1, app_assoc.
Qed.

Lemma switch_logfile_unchanged t st :
  unchanged_but_log st (switch_logfile t st).
Proof.
  unfold switch_logfile, fopen, emit.
  destruct (hd true (fopen_tape st)), (log_fp st) eqn:E; simpl;
    split; simpl; try done; try (intros _; by eauto);
    try (eexists; reflexivity);
    try (eexists; rewrite <- app_assoc; reflexivity).
  rewrite E. done.
Qed.

Lemma switch_logfile_records t st :
  exists evs, out (switch_logfile t st) = out st ++ evs /\ records evs = [].
Proof.
  unfold switch_logfile, fopen, emit.
  destruct (hd true (fopen_tape st)), (log_fp st); simpl;
    try (eexists; split; [reflexivity | done]).
  eexists. split; [rewrite <- app_assoc; reflexivity | done].
Qed.

Section Properties.

Variable localtime : Z -> option tm.

Lemma update_stamp_records now_time st :
  exists evs,
    out (update_stamp localtime now_time st) = out st ++ evs /\
    records evs = [].
Proof.
  unfold update_stamp.
  case_match; [| exists []; by rewrite app_nil_r].
  set (t := default _ _). case_match.
  - destruct (switch_logfile_records t
      (set_last_tm t (set_stamp_buf (snprintf 23 (stamp_text t)) st)))
      as (evs & H1 & H2).
    exists evs. simpl in *. done.
  - exists []. simpl. by rewrite app_nil_r.
Qed.

Lemma update_stamp_unchanged now_time st :
  unchanged_but_log st (update_stamp localtime now_time st).
Proof.
  unfold update_stamp. case_match; [| apply unchanged_but_log_refl].
  set (t := default _ _). case_match.
  - pose proof (switch_logfile_unchanged t
      (set_last_tm t (set_stamp_buf (snprintf 23 (stamp_text t)) st))) as [].
    split; simpl in *; done.
  - split; simpl; try done. exists []. by rewrite app_nil_r.
Qed.

(** [write_logfile] in closed form: the records are the complete lines of
    the buffer, followed when forced by the rest with a newline added. *)
Lemma write_logfile_eq c forced st :
  write_logfile localtime c forced st =
  let st1 := update_stamp localtime (stamp c) st in
  let rest := after_last_nl (buffer c) in
  let partial :=
    if forced && negb (Z.of_nat (length rest) =? 0) then [rest ++ [nl]]
    else [] in
  (set_buffer (if forced then [] else rest) c,
   set_out (out st1 ++
            map (EvRecord (log_fp st1) (stamp_buf st1) (addr_str c))
              (lines_of (buffer c) ++ partial)) st1).
Proof.
  unfold write_logfile. rewrite write_lines_cut by lia. simpl.
  destruct forced; simpl.
  - destruct (after_last_nl (buffer c)) as [|x r] eqn:E; simpl.
    + by rewrite app_nil_r.
    + unfold emit. simpl. by rewrite map_app, app_assoc.
  - by rewrite app_nil_r.
Qed.

Lemma write_logfile_unchanged c forced st :
  unchanged_but_log st (write_logfile localtime c forced st).2.
Proof.
  rewrite write_logfile_eq. simpl.
  eapply unchanged_but_log_trans; [apply update_stamp_unchanged |].
  split; simpl; try done. eauto.
Qed.

Lemma flush_where_clients cond cs st :
  (flush_where localtime cond cs st).1 =
  map (fun c => if cond c then set_buffer [] c else c) cs.
Proof.
  revert st. induction cs as [|c cs IH]; intros st; simpl; [done |].
  destruct (cond c) eqn:Ec.
  - rewrite write_logfile_eq. simpl.
    match goal with |- context [flush_where _ _ _ ?s] =>
      specialize (IH s); destruct (flush_where localtime cond cs s) end.
    simpl in *. by rewrite IH.
  - specialize (IH st). destruct (flush_where localtime cond cs st).
    simpl in *. by rewrite IH.
Qed.

Lemma flush_where_unchanged cond cs st :
  unchanged_but_log st (flush_where localtime cond cs st).2.
Proof.
  revert st. induction cs as [|c cs IH]; intros st; simpl.
  - apply unchanged_but_log_refl.
  - destruct (cond c).
    + pose proof (write_logfile_unchanged c true st) as H1.
      destruct (write_logfile localtime c true st) as [c' st1]. simpl in *.
      specialize (IH st1). destruct (flush_where localtime cond cs st1).
      simpl in *. by eapply unchanged_but_log_trans.
    + specialize (IH st). by destruct (flush_where localtime cond cs st).
Qed.

(** The records [write_logfile] adds to the trace. *)
Lemma write_logfile_records c forced st :
  exists evs,
    out (write_logfile localtime c forced st).2 = out st ++ evs /\
    records evs =
    map (pair (addr_str c))
      (lines_of (buffer c) ++
       if forced && negb (Z.of_nat (length (after_last_nl (buffer c))) =? 0)
       then [after_last_nl (buffer c) ++ [nl]] else []).
Proof.
  rewrite write_logfile_eq. simpl.
  destruct (update_stamp_records (stamp c) st) as (e0 & H0 & R0).
  eexists. split; [rewrite H0, <- app_assoc; reflexivity |].
  by rewrite records_app, R0, records_map.
Qed.

Lemma avail_zero c : (avail c =? 0) = bool_decide (buffer c = []).
Proof.
  unfold avail. destruct (buffer c).
  - by rewrite bool_decide_eq_true_2.
  - by rewrite bool_decide_eq_false_2.
Qed.

(** [store_datagram] in terms of the lines of the buffer: the new bytes
    are appended, the complete lines are written, and what is left is
    written too if it has reached [wbuf_size]. *)
Lemma store_datagram_spec d c st :
  nl ∉ buffer c ->
  let b := buffer c ++ payload d in
  let rest := after_last_nl b in
  let full := bool_decide (wbuf_size st <= Z.of_nat (length rest)) in
  exists st' evs,
    store_datagram localtime d c st =
      (set_buffer_size
         (round_up 32 (avail c + Z.of_nat (length (payload d))))
         (set_buffer (if full then [] else rest) c), st') /\
    unchanged_but_log st st' /\
    out st' = out st ++ evs /\
    records evs =
      map (pair (addr_str c))
        (lines_of b ++
         if full && negb (Z.of_nat (length rest) =? 0)
         then [rest ++ [nl]] else []).
Proof.
  intros Hc b rest full. unfold store_datagram.
  set (ptr2 := set_buffer_size _ _).
  case_bool_decide as Hnl.
  - (* the datagram completes a line *)
    pose proof (write_logfile_unchanged ptr2 false st) as U1.
    destruct (write_logfile_records ptr2 false st) as (e1 & O1 & R1).
    rewrite write_logfile_eq in *. simpl in *. fold b rest in R1 |- *.
    set (st3 := set_out _ _) in *.
    replace (avail _ >=? wbuf_size st3) with full.
    2:{ unfold avail, full. simpl.
        rewrite (ubl_wbuf_size _ _ (update_stamp_unchanged (stamp c) st)).
        case_bool_decide; lia. }
    destruct full.
    + pose proof (write_logfile_unchanged
        (set_buffer rest ptr2) true st3) as U2.
      destruct (write_logfile_records (set_buffer rest ptr2) true st3)
        as (e2 & O2 & R2).
      rewrite write_logfile_eq in *. simpl in *.
      pose proof (after_last_nl_no_nl b) as Hr. fold rest in Hr.
      rewrite (lines_of_no_nl rest Hr), (after_last_nl_id rest Hr) in *.
      eexists _, (e1 ++ e2). split; [reflexivity |].
      split; [by eapply unchanged_but_log_trans |].
      split; [by rewrite O2, O1, app_assoc |].
      rewrite records_app, R1, R2, app_nil_r. simpl.
      by rewrite <- map_app.
    + eexists _, e1. split; [reflexivity |]. split; [done |].
      split; [done |]. by rewrite R1.
  - (* no newline in the datagram *)
    assert (Hb : nl ∉ b).
    { unfold b. rewrite not_elem_of_app. split; [done |].
      apply memchr_None. destruct (memchr nl (payload d)); [| done].
      exfalso. apply Hnl. by eexists. }
    assert (Er : rest = b) by by apply after_last_nl_id.
    replace (avail ptr2 >=? wbuf_size st) with full.
    2:{ unfold avail, full. simpl. fold b. rewrite Er.
        case_bool_decide; lia. }
    destruct full.
    + pose proof (write_logfile_unchanged ptr2 true st) as U2.
      destruct (write_logfile_records ptr2 true st) as (e2 & O2 & R2).
      rewrite write_logfile_eq in *. simpl in *. fold b rest in R2 |- *.
      eexists _, e2. split; [reflexivity |]. done.
    + eexists _, []. split; [by rewrite Er |].
      split; [apply unchanged_but_log_refl |].
      split; [by rewrite app_nil_r |].
      by rewrite (lines_of_no_nl b Hb).
Qed.

(** *** Reclamation *)

Lemma drop_loop_spec cs st :
  Forall2 same_data (filter has_data cs) (drop_loop cs st).1 /\
  exists tape, (drop_loop cs st).2 = set_realloc_tape tape st.
Proof.
  revert st. induction cs as [|c cs IH]; intros st; simpl.
  - split; [constructor |]. exists (realloc_tape st). by destruct st.
  - rewrite avail_zero. case_bool_decide as Hb; simpl.
    + rewrite filter_cons_False by (unfold has_data; tauto). apply IH.
    + rewrite filter_cons_True by done.
      destruct (IH (set_realloc_tape (tail (realloc_tape st)) st))
        as [H1 [tape H2]].
      destruct (drop_loop cs _) as [cs' st2]. simpl in *. subst st2.
      split; [| by exists tape].
      constructor; [| done]. by destruct (hd true (realloc_tape st)).
Qed.

Lemma drop_memory_usage_idle st :
  try_drop_memory_usage st = false -> drop_memory_usage st = st.
Proof. intros H. unfold drop_memory_usage. by rewrite H. Qed.

Lemma drop_memory_usage_spec st :
  try_drop_memory_usage st = true ->
  Forall2 same_data (filter has_data (clients st))
    (clients (drop_memory_usage st)) /\
  try_drop_memory_usage (drop_memory_usage st) = false /\
  unchanged_but_memory st (drop_memory_usage st).
Proof.
  intros H. unfold drop_memory_usage. rewrite H. simpl.
  destruct (drop_loop_spec (clients st) (set_try_drop_memory_usage false st))
    as [H1 [tape H2]].
  destruct (drop_loop _ _) as [cs st2]. simpl in *. subst st2.
  unfold realloc, num_clients. simpl.
  repeat case_match; simpl; done.
Qed.

Lemma drop_memory_usage_unchanged st :
  unchanged_but_memory st (drop_memory_usage st).
Proof.
  destruct (try_drop_memory_usage st) eqn:E.
  - by apply drop_memory_usage_spec.
  - by rewrite drop_memory_usage_idle.
Qed.

Lemma filter_has_data_all cs : Forall has_data cs -> filter has_data cs = cs.
Proof.
  induction 1 as [|c cs Hc _ IH]; [done |].
  by rewrite filter_cons_True, IH.
Qed.

Lemma same_data_addrs cs cs' :
  Forall2 same_data cs cs' -> map addr cs' = map addr cs.
Proof.
  induction 1 as [|c c' cs cs' (Ha & _) _ IH]; simpl; congruence.
Qed.

Lemma same_data_has_data cs cs' :
  Forall2 same_data cs cs' -> Forall has_data cs -> Forall has_data cs'.
Proof.
  induction 1 as [|c c' cs cs' (_ & _ & Hb & _) _ IH]; [done |].
  intros Hf. apply Forall_cons in Hf as [H1 H2].
  constructor; [| auto]. unfold has_data in *. congruence.
Qed.

(** *** Finding a client *)

Lemma lookup_client_Some a cs i :
  lookup_client a cs = Some i ->
  exists c, cs !! i = Some c /\ addr c = a.
Proof.
  revert i. induction cs as [|c cs IH]; intros i; simpl; [done |].
  case_decide as Ha.
  - intros [= <-]. by exists c.
  - destruct (lookup_client a cs) as [j|]; [| done].
    intros [= <-]. apply (IH j eq_refl).
Qed.

Lemma lookup_client_None a cs :
  lookup_client a cs = None <-> a ∉ map addr cs.
Proof.
  induction cs as [|c cs IH]; simpl.
  - split; [intros _; apply not_elem_of_nil | done].
  - rewrite not_elem_of_cons. case_decide as Ha.
    + split; [done | intros [? _]; congruence].
    + destruct (lookup_client a cs); simpl.
      * split; [done |]. intros [_ H]. by apply IH in H.
      * split; [| done]. intros _. split; [congruence | by apply IH].
Qed.

Lemma find_client_spec a st :
  find_client_outcome a st (find_client a st).1 (find_client a st).2.
Proof.
  unfold find_client.
  destruct (lookup_client a (clients st)) as [i|] eqn:El; simpl.
  - by constructor.
  - destruct (num_clients st >=? max_clients st) eqn:Ec.
    + pose proof (drop_memory_usage_unchanged
        (set_try_drop_memory_usage true st)) as U.
      rewrite (ubm_max_clients _ _ U). simpl. rewrite Ec. simpl.
      apply fc_full; [done | lia].
    + unfold new_client, realloc. simpl.
      destruct (hd true (realloc_tape st)) eqn:Eh; simpl.
      * apply fc_added; simpl; try done; try lia.
      * apply fc_nomem; [done | lia | done].
Qed.

(** *** Receiving a datagram *)

Lemma find_client_index a st i st1 :
  find_client_outcome a st (Some i) st1 ->
  exists c, clients st1 !! i = Some c /\ addr c = a.
Proof.
  inversion 1 as [j Hl | st' Hl Hn Hh Hc | |]; subst.
  - by apply lookup_client_Some.
  - exists (fresh_client a). split; [| done].
    rewrite Hc. by apply list_lookup_middle.
Qed.

Lemma recv_datagram_spec now d st :
  recv_outcome localtime now d st (recv_datagram localtime now d st).
Proof.
  unfold recv_datagram.
  pose proof (find_client_spec (sockaddr_of d) st) as Hf.
  destruct (find_client (sockaddr_of d) st) as [[i|] st1]; simpl in Hf.
  - destruct (find_client_index _ _ _ _ Hf) as (c0 & Hc0 & _).
    rewrite Hc0. unfold realloc. fold (stamped now c0).
    destruct (hd true (realloc_tape st1)) eqn:Eh; simpl.
    + destruct (store_datagram _ _ _ _) as [c4 st4] eqn:Es.
      by eapply ro_stored.
    + by eapply ro_abort.
  - by apply ro_dropped.
Qed.

(** *** The invariant of the registry *)

Lemma inv_update st st' :
  inv st ->
  max_clients st' = max_clients st ->
  wbuf_size st' = wbuf_size st ->
  wait_timeout st' = wait_timeout st ->
  (is_Some (log_fp st) -> is_Some (log_fp st')) ->
  num_clients st' <= max_clients st ->
  NoDup (map addr (clients st')) ->
  Forall (client_ok (wbuf_size st)) (clients st') ->
  inv st'.
Proof.
  intros [] E1 E2 E3 Hl Hc Hn Hf.
  split; rewrite ?E1, ?E2, ?E3; auto.
Qed.

Lemma inv_unchanged_but_log st st' :
  inv st -> unchanged_but_log st st' -> inv st'.
Proof.
  intros Hi []. eapply inv_update; try done; unfold num_clients;
    rewrite ?ubl_clients0; by destruct Hi.
Qed.

Lemma clamp_range lo hi v : lo <= hi -> lo <= clamp lo hi v <= hi.
Proof. unfold clamp. intros. repeat case_match; lia. Qed.

Lemma inv_do_init c t w now fo re :
  status (do_init localtime c t w now fo re) = None ->
  inv (do_init localtime c t w now fo re).
Proof.
  unfold do_init. set (st0 := Build_state _ _ _ _ _ _ _ _ _ _ _ _ _ _ _).
  set (tm0 := default _ _).
  pose proof (switch_logfile_unchanged tm0 st0) as [].
  destruct (log_fp (switch_logfile tm0 st0)) eqn:E; simpl; [| done].
  intros _. split; rewrite ?ubl_max_clients0, ?ubl_wbuf_size0,
    ?ubl_wait_timeout0; unfold num_clients; rewrite ?ubl_clients0; simpl;
    try (apply clamp_range; lia).
  - pose proof (clamp_range 10 65536 c). lia.
  - constructor.
  - constructor.
  - by rewrite E.
Qed.

Lemma client_ok_flushed w c :
  0 < w -> client_ok w c -> client_ok w (set_buffer [] c).
Proof.
  intros Hw (H1 & H2 & H3 & H4 & H5). unfold client_ok, avail. simpl.
  split_and!; try done. apply not_elem_of_nil.
Qed.

Lemma flushed_addrs (cond : client -> bool) cs :
  map addr (map (fun c => if cond c then set_buffer [] c else c) cs) =
  map addr cs.
Proof.
  induction cs as [|c cs IH]; simpl; [done |]. rewrite IH.
  by destruct (cond c).
Qed.

Lemma flushed_ok (cond : client -> bool) w cs :
  0 < w -> Forall (client_ok w) cs ->
  Forall (client_ok w)
    (map (fun c => if cond c then set_buffer [] c else c) cs).
Proof.
  intros Hw. induction 1 as [|c cs Hc _ IH]; simpl; constructor; [| done].
  destruct (cond c); [by apply client_ok_flushed | done].
Qed.

Lemma inv_flush_where cond st :
  inv st ->
  inv (set_clients (flush_where localtime cond (clients st) st).1
         (flush_where localtime cond (clients st) st).2).
Proof.
  intros Hi. pose proof (flush_where_unchanged cond (clients st) st) as U.
  rewrite flush_where_clients. destruct U. destruct Hi.
  eapply (inv_update st); simpl; try done; try (split; done).
  - unfold num_clients in *. simpl. by rewrite length_map.
  - by rewrite flushed_addrs.
  - apply flushed_ok; [lia | done].
Qed.

Lemma inv_check_timeout now st : inv st -> inv (check_timeout localtime now st).
Proof.
  intros Hi. unfold check_timeout.
  pose proof (inv_flush_where
    (fun c => negb (avail c =? 0) && (now - stamp c >=? wait_timeout st))
    st Hi) as H.
  by destruct (flush_where _ _ _ _).
Qed.

Lemma inv_flush_all_and_abort st : inv st -> inv (flush_all_and_abort localtime st).
Proof.
  intros Hi. unfold flush_all_and_abort.
  pose proof (inv_flush_where (fun c => negb (avail c =? 0)) st Hi) as H.
  destruct (flush_where _ _ _ _) as [cs st1]. simpl in *.
  destruct H. split; simpl; done.
Qed.

Lemma client_ok_same_data w cs cs' :
  Forall2 same_data cs cs' -> Forall (client_ok w) cs ->
  Forall (client_ok w) cs'.
Proof.
  induction 1 as [|c c' cs cs' (Ha & Hs & Hb & _) _ IH]; [done |].
  intros Hf. apply Forall_cons in Hf as [(H1 & H2 & H3 & H4 & H5) Hf].
  constructor; [| auto]. unfold client_ok, avail in *.
  rewrite Ha, Hs, Hb. done.
Qed.

Lemma filter_addrs_sublist (cs : list client) :
  sublist (map addr (filter has_data cs)) (map addr cs).
Proof.
  induction cs as [|c cs IH]; simpl; [done |].
  rewrite filter_cons. case_decide; simpl; by constructor.
Qed.

Lemma inv_drop_memory_usage st : inv st -> inv (drop_memory_usage st).
Proof.
  intros Hi. destruct (try_drop_memory_usage st) eqn:E.
  2:{ by rewrite drop_memory_usage_idle. }
  destruct (drop_memory_usage_spec st E) as (Hc & _ & []).
  destruct Hi.
  eapply (inv_update st); try done.
  - by rewrite ubm_log_fp0.
  - unfold num_clients in *. apply Forall2_length in Hc. rewrite <- Hc.
    pose proof (length_filter has_data (clients st)). lia.
  - rewrite (same_data_addrs _ _ Hc).
    eapply sublist_NoDup; [done | apply filter_addrs_sublist].
  - eapply client_ok_same_data; [done |].
    apply Forall_forall. intros x [_ Hx]%list_elem_of_filter.
    rewrite Forall_forall in inv_clients0. auto.
Qed.

Lemma inv_insert st i c0 c :
  inv st -> clients st !! i = Some c0 -> addr c = addr c0 ->
  client_ok (wbuf_size st) c ->
  inv (set_clients (<[i := c]> (clients st)) st).
Proof.
  intros [] Hi Ha Hc. split; simpl; try done.
  - unfold num_clients in *. simpl. by rewrite length_insert.
  - rewrite list_fmap_insert, Ha, list_insert_id; [done |].
    by rewrite list_lookup_fmap, Hi.
  - by apply Forall_insert.
Qed.

Lemma inv_set_realloc_tape st tape : inv st -> inv (set_realloc_tape tape st).
Proof. intros []. by split. Qed.

Lemma inv_set_try_drop_memory_usage st b :
  inv st -> inv (set_try_drop_memory_usage b st).
Proof. intros []. by split. Qed.

Lemma client_ok_fresh w d : 0 < w -> client_ok w (fresh_client (sockaddr_of d)).
Proof.
  intros Hw. unfold client_ok, avail. simpl.
  split_and!; try done. apply not_elem_of_nil.
Qed.

Lemma inv_find_client d st r st1 :
  inv st -> find_client_outcome (sockaddr_of d) st r st1 -> inv st1.
Proof.
  intros Hi.
  inversion 1 as [j Hl | st' Hl Hn Hh Hc Ht U Hd | Hl Hn | Hl Hn Hh]; subst.
  - done.
  - destruct U, Hi. eapply (inv_update st); try done.
    + by rewrite ubm_log_fp0.
    + unfold num_clients in *. rewrite Hc, length_app. simpl. lia.
    + rewrite Hc, map_app. simpl. apply NoDup_app. split_and!.
      * done.
      * intros x Hx. rewrite list_elem_of_singleton. intros ->.
        by apply lookup_client_None in Hl.
      * apply NoDup_singleton.
    + rewrite Hc. apply Forall_app. split; [done |].
      constructor; [| done]. apply client_ok_fresh. lia.
  - by apply inv_drop_memory_usage, inv_set_try_drop_memory_usage.
  - by apply inv_set_realloc_tape.
Qed.

Lemma client_ok_stamped w now c : client_ok w c -> client_ok w (stamped now c).
Proof. unfold stamped. by destruct (avail c =? 0). Qed.

Lemma addr_stamped now c : addr (stamped now c) = addr c.
Proof. unfold stamped. by destruct (avail c =? 0). Qed.

Lemma buffer_stamped now c : buffer (stamped now c) = buffer c.
Proof. unfold stamped. by destruct (avail c =? 0). Qed.

Lemma addr_str_stamped now c : addr_str (stamped now c) = addr_str c.
Proof. unfold stamped. by destruct (avail c =? 0). Qed.

Lemma inv_recv_datagram now d st :
  inv st -> inv (recv_datagram localtime now d st).
Proof.
  intros Hi.
  destruct (recv_datagram_spec now d st)
    as [st' Hf | i st1 c0 Hf Hc Hh | i st1 c0 c4 st4 Hf Hc Hh Hs].
  - by eapply inv_find_client.
  - apply inv_flush_all_and_abort.
    pose proof (inv_find_client _ _ _ _ Hi Hf) as Hi1.
    pose proof (inv_clients _ Hi1) as Hok.
    rewrite Forall_lookup in Hok. specialize (Hok _ _ Hc).
    apply (inv_insert (set_realloc_tape _ st1) i c0);
      [by apply inv_set_realloc_tape | done | apply addr_stamped |].
    by apply client_ok_stamped.
  - pose proof (inv_find_client _ _ _ _ Hi Hf) as Hi1.
    pose proof (inv_clients _ Hi1) as Hok.
    rewrite Forall_lookup in Hok. specialize (Hok _ _ Hc).
    apply (client_ok_stamped _ now) in Hok.
    destruct Hok as (H1 & H2 & H3 & H4 & H5).
    destruct (store_datagram_spec d (stamped now c0)
      (set_realloc_tape (tail (realloc_tape st1)) st1) H4)
      as (st' & evs & Es & U & _).
    rewrite Hs in Es. injection Es as -> ->.
    assert (Hi4 : inv st').
    { eapply inv_unchanged_but_log; [| exact U].
      by apply inv_set_realloc_tape. }
    apply (inv_insert st' i c0); [done | | apply addr_stamped |].
    { by rewrite (ubl_clients _ _ U). }
    rewrite (ubl_wbuf_size _ _ U). simpl.
    unfold client_ok, avail. simpl. split_and!; try done.
    + case_bool_decide; [apply not_elem_of_nil | apply after_last_nl_no_nl].
    + pose proof (inv_wbuf_size _ Hi1).
      case_bool_decide; simpl in *; lia.
Qed.

Lemma inv_emit e st : inv st -> inv (emit e st).
Proof. intros []. by split. Qed.

(** ** Reachable states *)

Lemma reachable_inv clock st : reachable localtime clock st -> inv st.
Proof.
  induction 1.
  - by apply inv_do_init.
  - by apply inv_emit.
  - by apply inv_check_timeout.
  - by apply inv_recv_datagram.
  - by apply inv_drop_memory_usage.
Qed.

Lemma reachable_drain clock now burst st :
  reachable localtime clock st -> status st = None -> clock now ->
  Forall (fun d => Z.of_nat (length (payload d)) <= 65536) burst ->
  reachable localtime clock (drain localtime now burst st).
Proof.
  intros Hr Hs Hc Hb. revert st Hr Hs.
  induction Hb as [|d burst Hd _ IH]; intros st Hr Hs; simpl; [done |].
  destruct (Z.leb_spec (Z.of_nat (length (payload d))) 0); [done |].
  assert (Hr1 : reachable localtime clock (recv_datagram localtime now d st)).
  { apply reach_recv; try done; lia. }
  destruct (status (recv_datagram localtime now d st)) eqn:E; [done |].
  by apply IH.
Qed.

Lemma reachable_round clock now burst st :
  reachable localtime clock st -> status st = None -> clock now ->
  Forall (fun d => Z.of_nat (length (payload d)) <= 65536) burst ->
  reachable localtime clock (do_main_round localtime now burst st).
Proof.
  intros Hr Hs Hc Hb. unfold do_main_round, do_main_receive.
  set (st1 := emit _ st).
  assert (H1 : reachable localtime clock st1) by by apply reach_wait.
  assert (H2 : reachable localtime clock (check_timeout localtime now st1))
    by by apply reach_timeout.
  assert (E2 : status (check_timeout localtime now st1) = None).
  { unfold check_timeout.
    pose proof (flush_where_unchanged
      (fun c => negb (avail c =? 0) && (now - stamp c >=? wait_timeout st1))
      (clients st1) st1) as U.
    destruct (flush_where _ _ _ _). simpl in *.
    by rewrite (ubl_status _ _ U). }
  pose proof (reachable_drain clock now burst _ H2 E2 Hc Hb) as H3.
  destruct (status (drain _ _ _ _)) eqn:E3; [done |].
  by apply reach_reclaim.
Qed.

End Properties.

(** ** The registry *)

(** C7.  In every state reachable by datagram arrivals, timeout scans and
    reclamation passes, the number of clients is at most [max_clients];
    and whenever [find_client] returns with a longer array, the count was
    below the limit and exactly one client was appended. *)
Theorem registry_within_capacity localtime st :
  reachable localtime any_time st ->
  num_clients st <= max_clients st /\
  forall a,
    num_clients st < num_clients (find_client a st).2 ->
    num_clients st < max_clients st /\
    clients (find_client a st).2 = clients st ++ [fresh_client a].
Proof.
  intros Hr. pose proof (reachable_inv _ _ _ Hr) as Hi.
  split; [by destruct Hi |].
  intros a Hn. pose proof (find_client_spec a st) as Hf.
  inversion Hf as [j Hl E1 E2 | st' Hl Hc Hh Hcs Ht U Hd E1 E2
                  | Hl Hc E1 E2 | Hl Hc Hh E1 E2].
  - rewrite <- E2 in Hn. lia.
  - by rewrite Hcs.
  - rewrite <- E2 in Hn.
    pose proof (inv_count _ (inv_drop_memory_usage _
      (inv_set_try_drop_memory_usage _ true Hi))) as Hc'.
    exfalso. revert Hn.
    destruct (drop_memory_usage_spec (set_try_drop_memory_usage true st)
      eq_refl) as (H2 & _). apply Forall2_length in H2.
    unfold num_clients. rewrite <- H2. simpl.
    pose proof (length_filter has_data (clients st)). lia.
  - rewrite <- E2 in Hn. unfold num_clients in Hn. simpl in Hn. lia.
Qed.

(** C10.  In every reachable state no two clients have the same sender
    (address and port); [find_client] returns the client of a sender that
    has one and leaves the state as it is; and it appends a client only
    when no client of the array has the sender's address. *)
Theorem one_client_per_sender localtime st :
  reachable localtime any_time st ->
  NoDup (map identity (clients st)) /\
  forall d,
    let a := sockaddr_of d in
    (forall i, lookup_client a (clients st) = Some i ->
       find_client a st = (Some i, st) /\
       exists c, clients st !! i = Some c /\ identity c = (src_addr d, src_port d)) /\
    (clients (find_client a st).2 = clients st ++ [fresh_client a] ->
       Forall (fun c => identity c <> (src_addr d, src_port d)) (clients st)).
Proof.
  intros Hr. pose proof (reachable_inv _ _ _ Hr) as Hi.
  assert (Hid : forall c, c ∈ clients st ->
            addr c = {| sin_family := AF_INET; sin_port := (identity c).2;
                        sin_addr := (identity c).1; sin_zero := 0 |}).
  { intros c Hc. pose proof (inv_clients _ Hi) as Hok.
    rewrite Forall_forall in Hok. destruct (Hok c Hc) as (H1 & H2 & _).
    destruct (addr c) eqn:E. unfold identity. rewrite E. simpl in *.
    by subst. }
  split.
  - pose proof (inv_nodup _ Hi) as Hn.
    apply NoDup_fmap_1 in Hn as Hn'.
    apply NoDup_fmap_2_strong; [| done].
    intros x y Hx Hy Hxy.
    assert (Ha : addr x = addr y) by (rewrite (Hid x Hx), (Hid y Hy); by rewrite Hxy).
    apply list_elem_of_lookup in Hx as [i Hx], Hy as [j Hy].
    assert (i = j).
    { eapply NoDup_lookup; [exact Hn | |];
        rewrite list_lookup_fmap; [by rewrite Hx | by rewrite Hy, Ha]. }
    subst. congruence.
  - intros d a. split.
    + intros i Hl. unfold find_client. rewrite Hl. split; [done |].
      destruct (lookup_client_Some _ _ _ Hl) as (c & Hc & Ha).
      exists c. split; [done |]. unfold identity. by rewrite Ha.
    + intros Hc. pose proof (find_client_spec a st) as Hf.
      assert (Hl : lookup_client a (clients st) = None).
      { inversion Hf as [j Hl E1 E2 | | |]; [| done ..].
        rewrite <- E2 in Hc. apply (f_equal length) in Hc.
        rewrite length_app in Hc. simpl in Hc. lia. }
      apply lookup_client_None in Hl. apply Forall_forall.
      intros c Hin Heq. apply Hl.
      apply list_elem_of_fmap. exists c. split; [| done].
      rewrite (Hid c Hin), Heq. done.
Qed.

(** C9.  [drop_memory_usage] is idempotent: a second call right after the
    first leaves the whole state, and so the array and every buffer, as
    the first call left it.  This does not rest on the flag alone: were
    the flag set again in between, the pass would still remove no client
    and change no buffer. *)
Theorem drop_memory_usage_idempotent st :
  drop_memory_usage (drop_memory_usage st) = drop_memory_usage st /\
  (try_drop_memory_usage st = true ->
   Forall2 same_data (clients (drop_memory_usage st))
     (clients (drop_memory_usage
                 (set_try_drop_memory_usage true (drop_memory_usage st))))).
Proof.
  split.
  - apply drop_memory_usage_idle.
    destruct (try_drop_memory_usage st) eqn:E.
    + by apply drop_memory_usage_spec.
    + by rewrite drop_memory_usage_idle.
  - intros E. destruct (drop_memory_usage_spec st E) as (H1 & _).
    destruct (drop_memory_usage_spec
      (set_try_drop_memory_usage true (drop_memory_usage st)) eq_refl)
      as (H2 & _).
    simpl in H2. rewrite filter_has_data_all in H2; [done |].
    eapply same_data_has_data; [exact H1 |].
    apply Forall_forall. by intros x [Hx _]%list_elem_of_filter.
Qed.

(** ** The concrete runs are reachable *)

Ltac short_payloads :=
  repeat constructor; vm_compute; discriminate.

Lemma reachable_boot : reachable utc any_time boot.
Proof. apply reach_init; [done | by vm_compute]. Qed.

Lemma reachable_day1 : reachable utc any_time day1.
Proof.
  apply reachable_round; [apply reachable_boot | by vm_compute | done |].
  short_payloads.
Qed.

Lemma reachable_full : reachable utc any_time full.
Proof.
  apply reachable_round; [apply reachable_day1 | by vm_compute | done |].
  short_payloads.
Qed.

(** The first round of a run, before its call of [drop_memory_usage]: the
    flag is set, host 1 has no data left and host 2 has some. *)
Lemma drop_memory_usage_idempotent_witness :
  let st :=
    do_main_receive utc 1706745591
      [from_host 1 (line "boot"); from_host 2 (str "par")] boot in
  try_drop_memory_usage st = true /\
  Forall2 same_data (clients (drop_memory_usage st))
    (clients (drop_memory_usage
                (set_try_drop_memory_usage true (drop_memory_usage st)))).
Proof.
  intros st.
  assert (E : try_drop_memory_usage st = true) by by vm_compute.
  exact (conj E (proj2 (drop_memory_usage_idempotent st) E)).
Defined.

Lemma registry_within_capacity_witness :
  reachable utc any_time full /\ num_clients full <= max_clients full.
Proof.
  pose proof (registry_within_capacity utc full reachable_full) as H.
  exact (conj reachable_full (proj1 H)).
Defined.

Lemma one_client_per_sender_witness :
  reachable utc any_time full /\ NoDup (map identity (clients full)).
Proof.
  pose proof (one_client_per_sender utc full reachable_full) as H.
  exact (conj reachable_full (proj1 H)).
Defined.

(** C2, at a full registry.  [full] holds [max_clients] clients, all with
    an empty buffer.  When host 11 sends a line, [find_client] runs the
    reclamation pass, which empties the array, and still returns [NULL]:
    the test after the pass reads [i], which the pass does not change.
    The datagram is dropped and nothing is written. *)
Example newcomer_rejected_after_reclaim :
  let d := from_host 11 (line "hello") in
  let r := find_client (sockaddr_of d) full in
  reachable utc any_time full /\
  num_clients full = max_clients full /\
  r.1 = None /\ num_clients r.2 = 0 /\ max_clients r.2 = 10 /\
  recv_datagram utc 1706745593 d full = r.2 /\
  out r.2 = out full.
Proof.
  split; [apply reachable_full |]. by vm_compute.
Qed.

(** [find_client] at a full array, in general: the newcomer is rejected
    whatever the reclamation pass frees. *)
Lemma find_client_full a st :
  lookup_client a (clients st) = None ->
  max_clients st <= num_clients st ->
  find_client a st =
  (None, drop_memory_usage (set_try_drop_memory_usage true st)).
Proof.
  intros Hl Hn. pose proof (find_client_spec a st) as Hf.
  destruct (find_client a st) as [r st']. simpl in Hf.
  inversion Hf; subst; try done; try lia. congruence.
Qed.

(** ** Reclamation after a round *)

(** C4 as stated fails: the second round of the run above ends with ten
    clients in the array, all with an empty buffer. *)
Lemma reclaim_after_round_counterexample :
  reachable utc any_time day1 /\
  status full = None /\
  num_clients full = 10 /\
  ~ Forall has_data (clients full).
Proof.
  split; [apply reachable_day1 |].
  split; [by vm_compute |]. split; [by vm_compute |].
  apply (bool_decide_eq_false (Forall has_data (clients full))).
  by vm_compute.
Qed.

(** C4, amended.  A round of [do_main] ends with a call of
    [drop_memory_usage], which does its work only if
    [try_drop_memory_usage] is set at that point: then every client left
    has data, the clients with data are kept in order, and the flag is
    cleared.  If the flag is not set the state is left as it is. *)
Theorem reclaim_after_round localtime now burst st :
  let st1 := do_main_receive localtime now burst st in
  let st2 := do_main_round localtime now burst st in
  status st1 = None ->
  (try_drop_memory_usage st1 = true ->
     Forall has_data (clients st2) /\
     Forall2 same_data (filter has_data (clients st1)) (clients st2) /\
     try_drop_memory_usage st2 = false) /\
  (try_drop_memory_usage st1 = false -> st2 = st1).
Proof.
  intros st1 st2 Hs. unfold st2, do_main_round. fold st1. rewrite Hs.
  split; intros Hf.
  - destruct (drop_memory_usage_spec st1 Hf) as (H1 & H2 & _).
    split_and!; try done.
    eapply same_data_has_data; [exact H1 |].
    apply Forall_forall. by intros x [Hx _]%list_elem_of_filter.
  - by apply drop_memory_usage_idle.
Qed.

Lemma reclaim_after_round_witness :
  let st1 := do_main_receive utc 1706745591 [from_host 1 (line "boot")] boot in
  status st1 = None /\ try_drop_memory_usage st1 = true /\
  Forall has_data (clients day1).
Proof.
  intros st1.
  assert (Hs : status st1 = None) by by vm_compute.
  assert (Hf : try_drop_memory_usage st1 = true) by by vm_compute.
  pose proof (reclaim_after_round utc 1706745591
    [from_host 1 (line "boot")] boot Hs) as H.
  exact (conj Hs (conj Hf (proj1 (proj1 H Hf)))).
Defined.

(** ** Running out of memory *)

Section Abort.

Variable localtime : Z -> option tm.

(** The records of a forced flush of the clients [cond] selects, none of
    which holds a newline: one record per client with data, made of its
    buffer and a newline. *)
Lemma flush_where_records (cond : client -> bool) cs st :
  Forall (fun c => nl ∉ buffer c) cs ->
  (forall c, cond c = true -> has_data c) ->
  exists evs,
    out (flush_where localtime cond cs st).2 = out st ++ evs /\
    records evs =
    map (fun c => (addr_str c, buffer c ++ [nl])) (filter (fun c => cond c) cs).
Proof.
  intros Hn Hc. revert st.
  induction Hn as [|c cs Hnl _ IH]; intros st; simpl.
  - exists []. by rewrite app_nil_r.
  - rewrite filter_cons. destruct (cond c) eqn:Ec; simpl.
    + destruct (write_logfile_records localtime c true st) as (e1 & O1 & R1).
      destruct (write_logfile localtime c true st) as [c' st1]. simpl in *.
      destruct (IH st1) as (e2 & O2 & R2).
      destruct (flush_where localtime cond cs st1) as [cs' st2]. simpl in *.
      exists (e1 ++ e2). split; [by rewrite O2, O1, app_assoc |].
      rewrite records_app, R1, R2, lines_of_no_nl, after_last_nl_id by done.
      specialize (Hc c Ec). unfold has_data in Hc.
      destruct (buffer c); [done |]. done.
    + destruct (IH st) as (e2 & O2 & R2).
      destruct (flush_where localtime cond cs st) as [cs' st2]. simpl in *.
      exists e2. by split.
Qed.

Lemma filter_has_data_insert now (cs : list client) i c :
  cs !! i = Some c ->
  map (fun c => (addr_str c, buffer c ++ [nl]))
    (filter has_data (<[i := stamped now c]> cs)) =
  map (fun c => (addr_str c, buffer c ++ [nl])) (filter has_data cs).
Proof.
  revert i. induction cs as [|x cs IH]; intros i Hi; [done |].
  destruct i as [|i]; simpl in *.
  - injection Hi as ->.
    assert (Hs : has_data (stamped now c) <-> has_data c)
      by (unfold has_data; by rewrite buffer_stamped).
    destruct (decide (has_data c)) as [Hd|Hd].
    + rewrite !filter_cons_True by tauto. simpl.
      by rewrite buffer_stamped, addr_str_stamped.
    + by rewrite !filter_cons_False by tauto.
  - rewrite !filter_cons. case_decide; simpl; by rewrite (IH i Hi).
Qed.

(** C6.  When the [realloc] that makes room for the received bytes fails,
    [recv_datagram] ends in [flush_all_and_abort]: every client with data
    has its buffer written as a record with a newline added, in the order
    of the array; then the marker line is written, the stream is flushed,
    and the program exits with status 1.  No buffered byte is left. *)
Theorem abort_flushes_all now d st i st1 :
  reachable localtime any_time st ->
  find_client (sockaddr_of d) st = (Some i, st1) ->
  hd true (realloc_tape st1) = false ->
  let st' := recv_datagram localtime now d st in
  status st' = Some 1 /\
  Forall (fun c => buffer c = []) (clients st') /\
  is_Some (log_fp st') /\
  exists evs,
    out st' =
      out st ++ evs ++
      [EvPrint (log_fp st') abort_marker; EvFlush (log_fp st'); EvExit 1] /\
    records evs =
      map (fun c => (addr_str c, buffer c ++ [nl]))
        (filter has_data (clients st)).
Proof.
  intros Hr Hf Hh st'. pose proof (reachable_inv _ _ _ Hr) as Hi.
  pose proof (find_client_spec (sockaddr_of d) st) as Ho.
  rewrite Hf in Ho. simpl in Ho.
  pose proof (inv_find_client _ _ _ _ Hi Ho) as Hi1.
  destruct (find_client_index _ _ _ _ Ho) as (c0 & Hc0 & Ha).
  (* the state in which [flush_all_and_abort] is called *)
  set (st2 := set_clients (<[i := stamped now c0]> (clients st1))
                (set_realloc_tape (tail (realloc_tape st1)) st1)).
  assert (E : st' = flush_all_and_abort localtime st2).
  { unfold st', recv_datagram. rewrite Hf, Hc0. unfold realloc.
    rewrite Hh. simpl. done. }
  assert (Hi2 : inv st2).
  { pose proof (inv_clients _ Hi1) as Hok.
    rewrite Forall_lookup in Hok. specialize (Hok _ _ Hc0).
    apply (inv_insert (set_realloc_tape _ st1) i c0);
      [by apply inv_set_realloc_tape | done | apply addr_stamped |].
    by apply client_ok_stamped. }
  assert (Hout : out st2 = out st /\
    map (fun c => (addr_str c, buffer c ++ [nl])) (filter has_data (clients st2)) =
    map (fun c => (addr_str c, buffer c ++ [nl])) (filter has_data (clients st))).
  { unfold st2. simpl. rewrite (filter_has_data_insert now _ i c0 Hc0).
    inversion Ho as [j Hl E1 E2 | stx Hl Hc Hh' Hcs Ht U Hd E1 E2 | |]; subst.
    - done.
    - split; [by destruct U |].
      rewrite Hcs, filter_app, map_app. simpl. by rewrite app_nil_r. }
  destruct Hout as [Hout Hrec].
  pose proof (inv_flush_all_and_abort localtime _ Hi2) as Hi3.
  rewrite E. unfold flush_all_and_abort in *.
  pose proof (flush_where_clients localtime
    (fun c => negb (avail c =? 0)) (clients st2) st2) as Hcs.
  destruct (flush_where_records (fun c => negb (avail c =? 0))
    (clients st2) st2) as (evs & O & R).
  { eapply Forall_impl; [apply (inv_clients _ Hi2) |].
    by intros c (_ & _ & _ & H & _). }
  { intros c. rewrite avail_zero. unfold has_data.
    case_bool_decide; [done | tauto]. }
  destruct (flush_where _ _ _ _) as [cs st3]. simpl in *.
  split; [done |]. split.
  { subst cs. apply Forall_forall. intros c [x [-> Hx]]%list_elem_of_fmap.
    rewrite avail_zero. case_bool_decide; simpl; done. }
  split; [apply (inv_log_fp _ Hi3) |].
  exists evs. unfold emit. simpl. split.
  - by rewrite O, Hout, <- !app_assoc.
  - rewrite R, <- Hrec. f_equal. apply list_filter_iff.
    intros c. rewrite avail_zero. unfold has_data.
    case_bool_decide; simpl; split; try done; tauto.
Qed.

End Abort.

Lemma reachable_starving : reachable utc any_time starving.
Proof.
  apply reachable_round; [| by vm_compute | done | short_payloads].
  apply reachable_round; [| by vm_compute | done | short_payloads].
  apply reach_init; [done | by vm_compute].
Qed.

Lemma abort_flushes_all_witness :
  let st' := recv_datagram utc 1706745593 (from_host 1 (str "ly")) starving in
  status st' = Some 1 /\ Forall (fun c => buffer c = []) (clients st').
Proof.
  intros st'.
  assert (Hf : find_client (sockaddr_of (from_host 1 (str "ly"))) starving
               = (Some O, starving)) by by vm_compute.
  assert (Hh : hd true (realloc_tape starving) = false) by by vm_compute.
  pose proof (abort_flushes_all utc 1706745593 _ _ _ _
    reachable_starving Hf Hh) as H.
  exact (conj (proj1 H) (proj1 (proj2 H))).
Defined.

(** ** The write-buffer limit *)

Lemma new_events_app st st' evs :
  out st' = out st ++ evs -> new_events st st' = evs.
Proof. intros H. unfold new_events. by rewrite H, drop_app_length. Qed.

(** C5 as stated fails.  With [wbuf=1024], host 1 sends 1100 bytes to an
    empty registry: 1097 letters, a newline, and ["bc"].  The buffer holds
    1100 bytes once the datagram is appended, yet there is no forced flush:
    the complete line is written with its own newline and ["bc"] stays in
    the buffer. *)
Lemma forced_flush_counterexample :
  let d := from_host 1 (replicate 1097 "a"%char ++ [nl] ++ str "bc") in
  let st' := recv_datagram utc 1706745592 d day1 in
  reachable utc any_time day1 /\
  clients day1 = [] /\
  wbuf_size day1 <= Z.of_nat (length (payload d)) /\
  buffer <$> clients st' = [str "bc"] /\
  (records (new_events day1 st')).*2 = [replicate 1097 "a"%char ++ [nl]].
Proof.
  split; [apply reachable_day1 |]. by vm_compute.
Qed.

Section Limit.

Variable localtime : Z -> option tm.

(** C5, amended.  Take the buffer of the sender's client with the datagram
    appended, and let [rest] be what follows its last newline.  If [rest]
    is at least [wbuf_size] long then, within [recv_datagram], the
    complete lines are written, [rest] is written as one more record with
    a newline added, and the buffer is left empty. *)
Theorem forced_flush_when_full now d st i st1 c :
  reachable localtime any_time st ->
  find_client (sockaddr_of d) st = (Some i, st1) ->
  clients st1 !! i = Some c ->
  hd true (realloc_tape st1) = true ->
  let rest := after_last_nl (buffer c ++ payload d) in
  wbuf_size st <= Z.of_nat (length rest) ->
  let st' := recv_datagram localtime now d st in
  status st' = status st /\
  (exists c', clients st' !! i = Some c' /\ addr c' = sockaddr_of d /\
              buffer c' = []) /\
  records (new_events st st') =
    map (pair (addr_str c))
      (lines_of (buffer c ++ payload d) ++ [rest ++ [nl]]).
Proof.
  intros Hr Hf Hc Hh rest Hfull st'.
  pose proof (reachable_inv _ _ _ Hr) as Hi.
  pose proof (find_client_spec (sockaddr_of d) st) as Ho.
  rewrite Hf in Ho. simpl in Ho.
  pose proof (inv_find_client _ _ _ _ Hi Ho) as Hi1.
  destruct (find_client_index _ _ _ _ Ho) as (c0 & Hc0 & Ha).
  assert (c0 = c) by congruence. subst c0.
  assert (Hst1 : out st1 = out st /\ wbuf_size st1 = wbuf_size st /\
                 status st1 = status st).
  { inversion Ho as [j Hl E1 E2 | stx Hl Hn Hh' Hcs Ht U Hd E1 E2 | |];
      subst; [done | by destruct U]. }
  destruct Hst1 as (Eo & Ew & Es).
  pose proof (inv_clients _ Hi1) as Hok.
  rewrite Forall_lookup in Hok. specialize (Hok _ _ Hc).
  destruct Hok as (_ & _ & _ & Hnl & _).
  destruct (store_datagram_spec localtime d (stamped now c)
    (set_realloc_tape (tail (realloc_tape st1)) st1))
    as (st4 & evs & E & U & O & R).
  { by rewrite buffer_stamped. }
  rewrite buffer_stamped, addr_str_stamped in *. fold rest in E, R.
  change (wbuf_size (set_realloc_tape (tail (realloc_tape st1)) st1))
    with (wbuf_size st1) in E, R.
  change (out (set_realloc_tape (tail (realloc_tape st1)) st1))
    with (out st1) in O.
  rewrite Ew in E, R.
  rewrite bool_decide_eq_true_2 in E, R by done.
  assert (Hne : negb (Z.of_nat (length rest) =? 0) = true).
  { pose proof (inv_wbuf_size _ Hi). apply negb_true_iff, Z.eqb_neq. lia. }
  rewrite Hne in R. simpl in R.
  assert (E' : st' = set_clients
    (<[i := set_buffer_size
              (round_up 32 (avail (stamped now c) + Z.of_nat (length (payload d))))
              (set_buffer [] (stamped now c))]> (clients st4)) st4).
  { unfold st', recv_datagram. rewrite Hf, Hc. unfold realloc.
    rewrite Hh. cbv beta iota zeta delta [negb]. fold (stamped now c).
    by rewrite E. }
  set (c4 := set_buffer_size _ _) in E, E'.
  rewrite E'. simpl. split_and!.
  - by rewrite (ubl_status _ _ U).
  - exists c4. split_and!.
    + apply list_lookup_insert_eq. rewrite (ubl_clients _ _ U). simpl.
      by eapply lookup_lt_Some.
    + unfold c4. simpl. by rewrite addr_stamped.
    + done.
  - rewrite <- R. f_equal. apply new_events_app. simpl. by rewrite O, Eo.
Qed.

End Limit.

Lemma forced_flush_when_full_witness :
  let d := from_host 1 (replicate 1100 "a"%char) in
  let st' := recv_datagram utc 1706745592 d day1 in
  status st' = None /\
  (records (new_events day1 st')).*2 = [replicate 1100 "a"%char ++ [nl]].
Proof.
  intros d st'.
  assert (Hf : exists st1, find_client (sockaddr_of d) day1 = (Some O, st1) /\
    clients st1 !! O = Some (fresh_client (sockaddr_of d)) /\
    hd true (realloc_tape st1) = true).
  { eexists. split; [by vm_compute |]. split; by vm_compute. }
  destruct Hf as (st1 & Hf & Hc & Hh).
  pose proof (forced_flush_when_full utc 1706745592 d day1 O st1 _
    reachable_day1 Hf Hc Hh ltac:(by vm_compute)) as (H1 & _ & H3).
  split; [exact H1 |]. fold st' in H3. rewrite H3. by vm_compute.
Defined.

(** ** Switching the log file *)

Lemma opens_app e1 e2 : opens (e1 ++ e2) = opens e1 ++ opens e2.
Proof.
  induction e1 as [|e e1 IH]; [done |]. destruct e; simpl; by rewrite ?IH.
Qed.

Lemma opens_records fp s a ls : opens (map (EvRecord fp s a) ls) = [].
Proof. by induction ls. Qed.

Section Rotation.

Variable localtime : Z -> option tm.

(** What [write_logfile] leaves of the log-file state is what
    [update_stamp] made of it, and it opens what [update_stamp] opens. *)
Lemma write_logfile_log_state c forced st :
  let st1 := update_stamp localtime (stamp c) st in
  let st' := (write_logfile localtime c forced st).2 in
  log_fp st' = log_fp st1 /\ last_tm st' = last_tm st1 /\
  last_time st' = last_time st1 /\ fopen_tape st' = fopen_tape st1 /\
  opens (new_events st st') = opens (new_events st st1).
Proof.
  rewrite write_logfile_eq. simpl. split_and!; try done.
  destruct (update_stamp_records localtime (stamp c) st) as (e0 & O & _).
  rewrite (new_events_app st (update_stamp localtime (stamp c) st) e0 O).
  erewrite new_events_app; [| simpl; rewrite O, <- app_assoc; reflexivity].
  by rewrite opens_app, opens_records, app_nil_r.
Qed.

(** A switch that fails: the stream is kept, the date is advanced. *)
Lemma update_stamp_failed_switch now_time st t old :
  log_fp st = Some old ->
  last_time st <> now_time ->
  localtime now_time = Some t ->
  day_changed t (last_tm st) = true ->
  hd true (fopen_tape st) = false ->
  let st1 := update_stamp localtime now_time st in
  log_fp st1 = Some old /\ last_tm st1 = t /\ last_time st1 = now_time /\
  try_drop_memory_usage st1 = true /\
  out st1 = out st ++ [EvOpen (snprintf 15 (filename_text t)) None].
Proof.
  intros Hfp Hlt Hloc Hday Hopen. unfold update_stamp.
  rewrite (proj2 (Z.eqb_neq _ _) Hlt), Hloc. simpl. rewrite Hday.
  unfold switch_logfile, fopen. simpl. rewrite Hopen, Hfp. simpl. done.
Qed.

(** No switch when the day is that of [last_tm]. *)
Lemma update_stamp_same_day now_time st :
  day_changed (default (last_tm st) (localtime now_time)) (last_tm st) = false ->
  let st1 := update_stamp localtime now_time st in
  log_fp st1 = log_fp st /\ last_tm st1 = last_tm st /\ out st1 = out st /\
  fopen_tape st1 = fopen_tape st.
Proof.
  intros Hday. unfold update_stamp.
  destruct (last_time st =? now_time); simpl; [done |].
  by rewrite Hday.
Qed.

(** A switch is attempted when the day differs from that of [last_tm]. *)
Lemma update_stamp_other_day now_time st t :
  last_time st <> now_time ->
  localtime now_time = Some t ->
  day_changed t (last_tm st) = true ->
  opens (new_events st (update_stamp localtime now_time st)) =
  [snprintf 15 (filename_text t)].
Proof.
  intros Hlt Hloc Hday. unfold update_stamp.
  rewrite (proj2 (Z.eqb_neq _ _) Hlt), Hloc. simpl. rewrite Hday.
  unfold switch_logfile, fopen, emit. simpl.
  destruct (hd true (fopen_tape st)), (log_fp st); simpl;
    erewrite new_events_app;
    try (simpl; rewrite <- ?app_assoc; reflexivity); done.
Qed.

Lemma day_changed_refl t : day_changed t t = false.
Proof. unfold day_changed. by rewrite !Z.eqb_refl. Qed.

End Rotation.

Lemma reachable_disk_full : reachable utc any_time disk_full.
Proof.
  apply reachable_round; [| by vm_compute | done | short_payloads].
  apply reach_init; [done | by vm_compute].
Qed.

(** C3 as stated fails.  The log file of 2024-01-31 is open and a line
    arrives on 2024-02-01 at 00:00:01.  Opening [2024-02-01.log] fails:
    the stream is kept, but [last_tm] now holds the new date. *)
Lemma failed_switch_counterexample :
  let st' :=
    recv_datagram utc 1706745601 (from_host 1 (line "midnight")) disk_full in
  reachable utc any_time disk_full /\
  (f_name <$> log_fp disk_full) = Some (str "2024-01-31.log") /\
  (tm_year (last_tm disk_full), tm_mon (last_tm disk_full),
   tm_mday (last_tm disk_full)) = (124, 0, 31) /\
  new_events disk_full st' =
    [EvOpen (str "2024-02-01.log") None;
     EvRecord (log_fp disk_full) (str "2024-02-01 00:00:01 ")
       (str "192.168.0.1:6666 ") (line "midnight")] /\
  log_fp st' = log_fp disk_full /\
  (tm_year (last_tm st'), tm_mon (last_tm st'), tm_mday (last_tm st'))
    = (124, 1, 1) /\
  last_tm st' <> last_tm disk_full.
Proof.
  split; [apply reachable_disk_full |]. by vm_compute.
Qed.

(** ** Complete lines *)

Lemma lookup_client_insert a (cs : list client) i c :
  lookup_client a cs = Some i -> addr c = a ->
  lookup_client a (<[i := c]> cs) = Some i.
Proof.
  revert i. induction cs as [|x cs IH]; intros i; simpl; [done |].
  case_decide as Hx.
  - intros [= <-] Ha. simpl. by rewrite decide_True.
  - destruct (lookup_client a cs) as [j|] eqn:E; [| done].
    intros [= <-] Ha. simpl. rewrite decide_False by done.
    by rewrite (IH j eq_refl Ha).
Qed.

Lemma lookup_client_snoc a (cs : list client) c :
  lookup_client a cs = None -> addr c = a ->
  lookup_client a (cs ++ [c]) = Some (length cs).
Proof.
  intros Hl Ha. induction cs as [|x cs IH]; simpl in *.
  - by rewrite decide_True.
  - case_decide; [done |].
    destruct (lookup_client a cs); [done |]. by rewrite IH.
Qed.

Lemma snd_pair {A B} (a : A) (l : list B) : (map (pair a) l).*2 = l.
Proof. induction l as [|y l IH]; simpl; [done | by f_equal]. Qed.

Lemma count_nl_app x y : count_nl (x ++ y) = (count_nl x + count_nl y)%nat.
Proof. unfold count_nl. by rewrite filter_app, length_app. Qed.

Lemma count_nl_no_nl x : nl ∉ x -> count_nl x = O.
Proof.
  intros H. rewrite <- lines_of_length. by rewrite lines_of_no_nl.
Qed.

Lemma all_succeed_hd tape : all_succeed tape -> hd true tape = true.
Proof. by destruct 1. Qed.

Lemma all_succeed_tail tape : all_succeed tape -> all_succeed (tail tape).
Proof. destruct 1; [constructor | done]. Qed.

Section Lines.

Variable localtime : Z -> option tm.

(** One datagram, when memory is available, the sender has or gets a
    client, and what is left after the complete lines stays below the
    write-buffer limit: the complete lines of the buffer with the datagram
    appended are written, and the rest is the new buffer. *)
Lemma recv_datagram_lines now d st :
  inv st -> status st = None -> all_succeed (realloc_tape st) ->
  let a := sockaddr_of d in
  is_Some (lookup_client a (clients st)) \/ num_clients st < max_clients st ->
  let b := pending a st ++ payload d in
  Z.of_nat (length (after_last_nl b)) < wbuf_size st ->
  let st' := recv_datagram localtime now d st in
  inv st' /\ status st' = None /\ all_succeed (realloc_tape st') /\
  is_Some (lookup_client a (clients st')) /\
  wbuf_size st' = wbuf_size st /\
  pending a st' = after_last_nl b /\
  exists evs,
    out st' = out st ++ evs /\
    records evs = map (pair (snprintf 23 (addr_text a))) (lines_of b).
Proof.
  intros Hi Hs Ht a Hroom b Hlen st'.
  pose proof (inv_recv_datagram localtime now d st Hi) as Hi'.
  fold st' in Hi'. unfold st'.
  destruct (recv_datagram_spec localtime now d st)
    as [stx Hf | i st1 c0 Hf Hc Hh | i st1 c0 c4 st4 Hf Hc Hh Hst].
  - (* dropped: excluded *)
    exfalso. inversion Hf as [| | Hl Hn | Hl Hn Hh]; subst.
    + destruct Hroom as [[j Hj] | Hr]; [fold a in Hl; congruence | lia].
    + rewrite all_succeed_hd in Hh by done. done.
  - (* no memory: excluded *)
    exfalso.
    inversion Hf as [j Hl E1 E2 | stx Hl Hn Hh' Hcs Htp U Hd E1 E2 | |]; subst.
    + rewrite all_succeed_hd in Hh by done. done.
    + rewrite Htp, all_succeed_hd in Hh by by apply all_succeed_tail. done.
  - (* stored *)
    pose proof (inv_find_client _ _ _ _ Hi Hf) as Hi1.
    pose proof (inv_clients _ Hi1) as Hok.
    rewrite Forall_lookup in Hok. specialize (Hok _ _ Hc).
    destruct Hok as (_ & _ & Hstr & Hnl & _).
    destruct (find_client_index _ _ _ _ Hf) as (c0' & Hc0' & Ha).
    assert (c0' = c0) by congruence. subst c0'.
    assert (H1 : out st1 = out st /\ wbuf_size st1 = wbuf_size st /\
                 status st1 = status st /\ all_succeed (realloc_tape st1) /\
                 lookup_client a (clients st1) = Some i /\
                 pending a st = buffer c0).
    { inversion Hf as [j Hl E1 E2 | stx Hl Hn Hh' Hcs Htp U Hd E1 E2 | |];
        subst.
      - split_and!; try done. unfold pending. fold a in Hl. by rewrite Hl, Hc.
      - destruct U. split_and!; try done.
        + rewrite Htp. by apply all_succeed_tail.
        + rewrite Hcs. by apply lookup_client_snoc.
        + unfold pending. fold a in Hl. rewrite Hl.
          rewrite Hcs, list_lookup_middle in Hc by done.
          by injection Hc as <-. }
    destruct H1 as (Eo & Ew & Es & Et & El & Ep).
    destruct (store_datagram_spec localtime d (stamped now c0)
      (set_realloc_tape (tail (realloc_tape st1)) st1))
      as (st4' & evs & E & U & O & R).
    { by rewrite buffer_stamped. }
    rewrite Hst in E. injection E as E4 <-.
    rewrite buffer_stamped, addr_str_stamped, <- Ep in *. fold b in E4, R.
    change (wbuf_size (set_realloc_tape (tail (realloc_tape st1)) st1))
      with (wbuf_size st1) in E4, R.
    change (out (set_realloc_tape (tail (realloc_tape st1)) st1))
      with (out st1) in O.
    rewrite Ew in E4, R.
    rewrite bool_decide_eq_false_2 in E4, R by lia. simpl in R.
    rewrite app_nil_r in R.
    split; [done |]. simpl. destruct U. simpl in *.
    assert (Hl4 : lookup_client a (<[i := c4]> (clients st4)) = Some i).
    { rewrite ubl_clients0. apply lookup_client_insert; [done |].
      rewrite E4. simpl. by rewrite addr_stamped. }
    split_and!.
    + congruence.
    + rewrite ubl_realloc_tape0. by apply all_succeed_tail.
    + by rewrite Hl4.
    + congruence.
    + unfold pending. simpl. rewrite Hl4.
      rewrite list_lookup_insert_eq
        by (rewrite ubl_clients0; by eapply lookup_lt_Some).
      simpl. by rewrite E4.
    + exists evs. split; [by rewrite O, Eo |]. by rewrite R, Hstr, Ha.
Qed.

Lemma feed_lines a p steps st :
  let sender :=
    sockaddr_of {| src_addr := a; src_port := p; payload := [] |} in
  inv st -> status st = None -> all_succeed (realloc_tape st) ->
  is_Some (lookup_client sender (clients st)) \/
    num_clients st < max_clients st ->
  (forall n,
     Z.of_nat (length (after_last_nl
       (pending sender st ++ concat (take n steps).*2))) < wbuf_size st) ->
  let input := pending sender st ++ concat steps.*2 in
  let st' := feed localtime a p steps st in
  inv st' /\
  pending sender st' = after_last_nl input /\
  exists evs,
    out st' = out st ++ evs /\
    records evs = map (pair (snprintf 23 (addr_text sender))) (lines_of input).
Proof.
  intros sender. revert st.
  induction steps as [|[now chunk] steps IH]; intros st Hi Hs Ht Hroom Hlen;
    simpl.
  - rewrite app_nil_r. pose proof (inv_clients _ Hi) as Hok.
    assert (Hnl : nl ∉ pending sender st).
    { unfold pending. destruct (lookup_client sender (clients st)) as [i|];
        [| apply not_elem_of_nil].
      destruct (clients st !! i) as [c|] eqn:E; [| apply not_elem_of_nil].
      rewrite Forall_lookup in Hok. by destruct (Hok _ _ E) as (_ & _ & _ & H & _). }
    split_and!; [done | by rewrite after_last_nl_id |].
    exists []. by rewrite app_nil_r, lines_of_no_nl.
  - set (d := {| src_addr := a; src_port := p; payload := chunk |}).
    destruct (recv_datagram_lines now d st Hi Hs Ht Hroom)
      as (Hi1 & Hs1 & Ht1 & Hl1 & Hw1 & Hp1 & e1 & O1 & R1).
    { specialize (Hlen 1%nat). simpl in Hlen. by rewrite app_nil_r in Hlen. }
    change (sockaddr_of d) with sender in *. simpl in Hp1, R1.
    destruct (IH (recv_datagram localtime now d st) Hi1 Hs1 Ht1 (or_introl Hl1))
      as (Hi2 & Hp2 & e2 & O2 & R2).
    { intros n. specialize (Hlen (S n)). simpl in Hlen.
      rewrite Hw1, Hp1, <- after_last_nl_app, <- app_assoc. done. }
    rewrite Hp1 in Hp2, R2.
    rewrite <- after_last_nl_app, <- app_assoc in Hp2.
    split_and!; [done | done |].
    exists (e1 ++ e2). split; [by rewrite O2, O1, app_assoc |].
    rewrite records_app, R1, R2, <- map_app. f_equal.
    by rewrite (app_assoc (pending sender st)), (lines_of_app (_ ++ chunk)).
Qed.

(** C1.  A sender's client holds [pending] bytes (none for a new sender).
    Its datagrams [steps] arrive one after the other; memory is available,
    the sender has or gets a client, and the bytes after the last newline
    never reach [wbuf_size], so that nothing is flushed by force.  Then the
    records written are the sender's, there is one per newline of the
    datagrams, each is a complete line, and the lines followed by the bytes
    left in the buffer, which hold no newline, are the input. *)
Theorem complete_lines_round_trip a p steps st :
  let sender :=
    sockaddr_of {| src_addr := a; src_port := p; payload := [] |} in
  reachable localtime any_time st -> status st = None ->
  all_succeed (realloc_tape st) ->
  is_Some (lookup_client sender (clients st)) \/
    num_clients st < max_clients st ->
  (forall n,
     Z.of_nat (length (after_last_nl
       (pending sender st ++ concat (take n steps).*2))) < wbuf_size st) ->
  let input := pending sender st ++ concat steps.*2 in
  let st' := feed localtime a p steps st in
  let written := records (new_events st st') in
  Forall (fun r => r.1 = snprintf 23 (addr_text sender)) written /\
  length written = count_nl (concat steps.*2) /\
  Forall is_line written.*2 /\
  concat written.*2 ++ pending sender st' = input /\
  nl ∉ pending sender st'.
Proof.
  intros sender Hr Hs Ht Hroom Hlen input st' written.
  pose proof (reachable_inv _ _ _ Hr) as Hi.
  destruct (feed_lines a p steps st Hi Hs Ht Hroom Hlen)
    as (Hi' & Hp & evs & O & R).
  fold sender input st' in Hp, O, R.
  assert (Hw : written = map (pair (snprintf 23 (addr_text sender))) (lines_of input)).
  { unfold written. by rewrite (new_events_app _ _ _ O). }
  assert (Hw2 : written.*2 = lines_of input).
  { rewrite Hw. apply snd_pair. }
  assert (Hnl : nl ∉ pending sender st).
  { pose proof (inv_clients _ Hi) as Hok.
    unfold pending. destruct (lookup_client sender (clients st)) as [i|];
      [| apply not_elem_of_nil].
    destruct (clients st !! i) as [c|] eqn:E; [| apply not_elem_of_nil].
    rewrite Forall_lookup in Hok. by destruct (Hok _ _ E) as (_ & _ & _ & H & _). }
  split_and!.
  - rewrite Hw. apply Forall_forall. by intros r [l [-> _]]%list_elem_of_fmap.
  - rewrite Hw, length_map, lines_of_length. unfold input.
    by rewrite count_nl_app, (count_nl_no_nl _ Hnl).
  - rewrite Hw2. apply lines_of_is_line.
  - rewrite Hw2, Hp. apply lines_of_after.
  - rewrite Hp. apply after_last_nl_no_nl.
Qed.

End Lines.

Lemma complete_lines_round_trip_witness :
  let sender :=
    sockaddr_of {| src_addr := 0x0100A8C0; src_port := 0x0A1A; payload := [] |} in
  let steps :=
    [(1706745592, str "one"); (1706745592, line " line" ++ str "two");
     (1706745593, line "" ++ line "three" ++ str "fo")] in
  let st' := feed utc 0x0100A8C0 0x0A1A steps day1 in
  let written := records (new_events day1 st') in
  length written = count_nl (concat steps.*2) /\
  concat written.*2 ++ pending sender st' = pending sender day1 ++ concat steps.*2.
Proof.
  intros sender steps st' written.
  assert (Hlen : forall n, Z.of_nat (length (after_last_nl
      (pending sender day1 ++ concat (take n steps).*2))) < wbuf_size day1).
  { intros n. do 4 (destruct n as [|n]; [by vm_compute |]). by vm_compute. }
  pose proof (complete_lines_round_trip utc 0x0100A8C0 0x0A1A steps day1
    reachable_day1 ltac:(by vm_compute) ltac:(by vm_compute)
    ltac:(right; by vm_compute) Hlen) as H.
  exact (conj (proj1 (proj2 H)) (proj1 (proj2 (proj2 (proj2 H))))).
Defined.

(** ** The format of a record *)

Lemma all_below_spec n v P x :
  all_below n v P = true -> v <= x < v + Z.of_nat n -> P x = true.
Proof.
  revert v. induction n as [|n IH]; intros v H Hx; [lia |].
  simpl in H. apply andb_true_iff in H as [H1 H2].
  destruct (Z.eq_dec x v) as [->|]; [done |].
  apply (IH (v + 1)); [done | lia].
Qed.

Lemma fmt_u_2 v : 0 <= v <= 99 -> digits 2 (fmt_u 2 v) = true.
Proof.
  intros Hv.
  apply (all_below_spec 100 0 (fun v => digits 2 (fmt_u 2 v)));
    [by vm_compute | lia].
Qed.

Lemma fmt_u_4 v : 0 <= v <= 9999 -> digits 4 (fmt_u 4 v) = true.
Proof.
  intros Hv.
  apply (all_below_spec (Z.to_nat 10000) 0 (fun v => digits 4 (fmt_u 4 v)));
    [by vm_compute | lia].
Qed.





(** The stamp of a printable time is a timestamp and a space, and fits in
    the [stamp] array. *)
Lemma digits_2 s :
  digits 2 s = true ->
  exists a b, s = [a; b] /\ is_digit a = true /\ is_digit b = true.
Proof.
  unfold digits. destruct s as [|a [|b [|]]]; try done.
  cbn [length Nat.eqb forallb andb]. rewrite andb_true_r.
  intros [? ?]%andb_true_iff. by exists a, b.
Qed.

Lemma digits_4 s :
  digits 4 s = true ->
  exists a b c d,
    s = [a; b; c; d] /\ forallb is_digit [a; b; c; d] = true.
Proof.
  unfold digits. destruct s as [|a [|b [|c [|d [|]]]]]; try done.
  cbn [length Nat.eqb andb]. intros H. by exists a, b, c, d.
Qed.



Lemma switch_logfile_stamp t st :
  last_tm (switch_logfile t st) = last_tm st /\
  last_time (switch_logfile t st) = last_time st /\
  stamp_buf (switch_logfile t st) = stamp_buf st.
Proof.
  unfold switch_logfile, fopen, emit.
  by destruct (hd true (fopen_tape st)), (log_fp st).
Qed.

Section Format.

Variable localtime : Z -> option tm.








Lemma avail_has_data c : negb (avail c =? 0) = true -> has_data c.
Proof.
  rewrite avail_zero. unfold has_data. case_bool_decide; [done | tauto].
Qed.





Lemma reachable_any clock st :
  reachable localtime clock st -> reachable localtime any_time st.
Proof.
  induction 1; [apply reach_init | apply reach_wait | apply reach_timeout
               | apply reach_recv | apply reach_reclaim]; done.
Qed.



End Format.

Lemma calendar_printable t r : calendar t = Some r -> tm_printable r.
Proof.
  unfold calendar. destruct (utc t) as [r'|]; [| done].
  destruct (tm_printable_b r') eqn:E; [| done]. intros [= <-].
  unfold tm_printable_b in E. unfold tm_printable.
  repeat match goal with
         | H : _ && _ = true |- _ => apply andb_true_iff in H as [H ?]
         end.
  lia.
Qed.

Lemma reachable_logged : reachable calendar after_epoch logged.
Proof.
  apply reachable_round; [| by vm_compute | done | short_payloads].
  apply reachable_round; [| by vm_compute | done | short_payloads].
  apply reach_init; [done | by vm_compute].
Qed.








(** * Further properties *)

(** ** The sizes of the allocations *)

Lemma round_up_fits w size :
  12 <= w -> 0 <= size <= 2 ^ w - 4096 ->
  size <= round_up w size < size + 4096 /\ round_up w size mod 4096 = 0.
Proof.
  intros Hw Hs. unfold round_up.
  assert (Hm : 4096 <= 2 ^ w).
  { change 4096 with (2 ^ 12). apply Z.pow_le_mono_r; lia. }
  set (m := 2 ^ w) in *. clearbody m.
  rewrite (Z.mod_small (size + 4095)) by lia.
  pose proof (Z.div_mod (size + 4095) 4096 ltac:(lia)) as Hd.
  pose proof (Z.mod_pos_bound (size + 4095) 4096 ltac:(lia)) as Hr.
  set (q := (size + 4095) / 4096) in *.
  rewrite (Z.mod_small (q * 4096)) by lia.
  split; [lia |]. apply Z.mod_mul. lia.
Qed.

Lemma round_up_ge w size :
  12 <= w -> 0 <= size <= 2 ^ w - 4096 -> size <= round_up w size.
Proof. intros Hw Hs. by destruct (round_up_fits w size Hw Hs) as [[? _] _]. Qed.

(** X1.  [round_up] returns the next multiple of 4096: as long as
    [size + 4095] fits in the [w] bits of the arithmetic, the result is a
    multiple of 4096, at least [size] and less than [size + 4096].  Above
    that the addition wraps and the result is 0. *)
Theorem round_up_next_multiple w size :
  12 <= w ->
  (0 <= size <= 2 ^ w - 4096 ->
   size <= round_up w size < size + 4096 /\ round_up w size mod 4096 = 0) /\
  (2 ^ w - 4096 < size < 2 ^ w -> round_up w size = 0).
Proof.
  intros Hw. split; [by apply round_up_fits |].
  unfold round_up.
  assert (Hm : 4096 <= 2 ^ w).
  { change 4096 with (2 ^ 12). apply Z.pow_le_mono_r; lia. }
  set (m := 2 ^ w) in *. clearbody m.
  intros Hs.
  assert (E : (size + 4095) mod m = size + 4095 - m).
  { symmetry. apply (Z.mod_unique _ _ 1); lia. }
  rewrite E, Z.div_small by lia. done.
Qed.

Lemma round_up_next_multiple_witness :
  5000 <= round_up 32 5000 < 5000 + 4096 /\ round_up 32 (2 ^ 32 - 1) = 0.
Proof.
  pose proof (round_up_next_multiple 32 5000 ltac:(lia)) as H1.
  pose proof (round_up_next_multiple 32 (2 ^ 32 - 1) ltac:(lia)) as H2.
  exact (conj (proj1 (proj1 H1 ltac:(lia))) (proj2 H2 ltac:(lia))).
Defined.

Lemma after_last_nl_length buf :
  (length (after_last_nl buf) <= length buf)%nat.
Proof.
  rewrite <- (lines_of_after buf) at 2. rewrite length_app. lia.
Qed.

Lemma drop_loop_alloc cs st :
  Forall (fun c => avail c <= 2 ^ 32 - 4096) cs ->
  Forall (fun c => avail c <= buffer_size c) cs ->
  Forall (fun c => avail c <= buffer_size c) (drop_loop cs st).1.
Proof.
  intros Hb. revert st. induction Hb as [|c cs Hc _ IH]; intros st Ha; simpl.
  - constructor.
  - apply Forall_cons in Ha as [H1 H2]. destruct (avail c =? 0); simpl; [auto |].
    specialize (IH (set_realloc_tape (tail (realloc_tape st)) st) H2).
    destruct (drop_loop cs _) as [cs' st2]. simpl in *.
    constructor; [| done].
    destruct (hd true (realloc_tape st)); [| done].
    unfold avail in *. simpl. apply round_up_ge; lia.
Qed.

Lemma alloc_ok_drop_memory_usage st :
  inv st -> alloc_ok st -> alloc_ok (drop_memory_usage st).
Proof.
  intros Hi [Hb Hc]. pose proof (inv_drop_memory_usage st Hi) as Hi'.
  pose proof (inv_count _ Hi') as Hn. pose proof (inv_max_clients _ Hi') as Hm.
  revert Hn Hm. unfold drop_memory_usage.
  destruct (try_drop_memory_usage st); simpl; [| by split].
  pose proof (drop_loop_alloc (clients st)
    (set_try_drop_memory_usage false st)) as Ha.
  destruct (drop_loop_spec (clients st) (set_try_drop_memory_usage false st))
    as [Hf [tape Ht]].
  destruct (drop_loop _ _) as [cs st2]. simpl in *. subst st2.
  assert (Hlen : (length cs <= length (clients st))%nat).
  { apply Forall2_length in Hf. rewrite <- Hf. apply length_filter. }
  assert (Hcs : Forall (fun c => avail c <= buffer_size c) cs).
  { apply Ha; [| done]. eapply Forall_impl; [apply (inv_clients _ Hi) |].
    intros c (_ & _ & _ & _ & Hw). pose proof (inv_wbuf_size _ Hi). lia. }
  unfold realloc, num_clients in *. simpl.
  destruct (Z.of_nat (length cs) =? 0) eqn:E0; simpl.
  - intros _ _. split; simpl; [done |]. apply Z.eqb_eq in E0.
    unfold num_clients, sizeof_client. simpl. lia.
  - destruct (hd true tape); simpl; intros Hn Hm;
      (split; simpl; [done |]); unfold num_clients, sizeof_client in *;
      simpl in *.
    + apply round_up_ge; lia.
    + lia.
Qed.

Lemma alloc_ok_find_client a st :
  inv st -> alloc_ok st -> alloc_ok (find_client a st).2.
Proof.
  intros Hi Ha. unfold find_client.
  destruct (lookup_client a (clients st)); simpl; [done |].
  destruct (num_clients st >=? max_clients st) eqn:Ec.
  - pose proof (drop_memory_usage_unchanged
      (set_try_drop_memory_usage true st)) as U.
    rewrite (ubm_max_clients _ _ U). simpl. rewrite Ec. simpl.
    apply alloc_ok_drop_memory_usage;
      [by apply inv_set_try_drop_memory_usage | done].
  - unfold new_client, realloc. simpl.
    destruct (hd true (realloc_tape st)); simpl; [| done].
    destruct Ha as [Hb Hc]. pose proof (inv_max_clients _ Hi).
    split; simpl.
    + apply Forall_app. split; [done |]. by repeat constructor.
    + unfold num_clients in *. simpl. rewrite length_app. simpl.
      unfold sizeof_client in *.
      pose proof (round_up_ge 64 (64 * (Z.of_nat (length (clients st)) + 1))
        ltac:(lia) ltac:(lia)). lia.
Qed.

Section Memory.

Variable localtime : Z -> option tm.

Lemma alloc_ok_flush_where (cond : client -> bool) st :
  alloc_ok st ->
  alloc_ok (set_clients (flush_where localtime cond (clients st) st).1
              (flush_where localtime cond (clients st) st).2).
Proof.
  intros [Hb Hc].
  pose proof (flush_where_unchanged localtime cond (clients st) st) as U.
  rewrite flush_where_clients. split; simpl.
  - clear -Hb. induction Hb as [|c cs H _ IH]; simpl; constructor; [| done].
    destruct (cond c); [| done]. unfold avail in *. simpl. lia.
  - unfold num_clients. simpl. rewrite length_map, (ubl_clients_size _ _ U).
    done.
Qed.

Lemma alloc_ok_recv_datagram now d st :
  inv st -> alloc_ok st -> Z.of_nat (length (payload d)) <= 65536 ->
  alloc_ok (recv_datagram localtime now d st).
Proof.
  intros Hi Ha Hd. unfold recv_datagram.
  pose proof (find_client_spec (sockaddr_of d) st) as Hf.
  pose proof (alloc_ok_find_client (sockaddr_of d) st Hi Ha) as Ha1.
  destruct (find_client (sockaddr_of d) st) as [[i|] st1]; simpl in *;
    [| done].
  pose proof (inv_find_client _ _ _ _ Hi Hf) as Hi1.
  destruct (find_client_index _ _ _ _ Hf) as (c0 & Hc0 & _).
  rewrite Hc0. unfold realloc. fold (stamped now c0).
  pose proof (inv_clients _ Hi1) as Hok.
  rewrite Forall_lookup in Hok. specialize (Hok _ _ Hc0).
  destruct Hok as (_ & _ & _ & Hnl & Hw).
  pose proof (inv_wbuf_size _ Hi1) as Hwb.
  destruct Ha1 as [Hb1 Hc1].
  assert (Hb0 : avail c0 <= buffer_size c0).
  { rewrite Forall_lookup in Hb1. apply (Hb1 _ _ Hc0). }
  destruct (hd true (realloc_tape st1)); cbv beta iota zeta delta [negb].
  - destruct (store_datagram_spec localtime d (stamped now c0)
      (set_realloc_tape (tail (realloc_tape st1)) st1))
      as (st4 & evs & E & U & _); [by rewrite buffer_stamped |].
    rewrite E. split; simpl.
    + rewrite (ubl_clients _ _ U). simpl. apply Forall_insert; [done |].
      unfold avail. simpl. rewrite !buffer_stamped.
      pose proof (after_last_nl_length (buffer c0 ++ payload d)) as Hl.
      rewrite length_app in Hl.
      pose proof (round_up_ge 32
        (Z.of_nat (length (buffer c0)) + Z.of_nat (length (payload d)))
        ltac:(lia)) as Hr.
      unfold avail in Hw. specialize (Hr ltac:(lia)).
      destruct (bool_decide (wbuf_size st1 <= _)); cbn [length]; lia.
    + unfold num_clients in *. simpl.
      rewrite length_insert, (ubl_clients _ _ U), (ubl_clients_size _ _ U).
      done.
  - pose proof (alloc_ok_flush_where (fun c => negb (avail c =? 0))
      (set_clients (<[i := stamped now c0]> (clients st1))
         (set_realloc_tape (tail (realloc_tape st1)) st1))) as H.
    unfold flush_all_and_abort.
    destruct (flush_where _ _ _ _) as [cs st3]. simpl in *.
    apply H. split; simpl.
    + apply Forall_insert; [done |]. unfold stamped.
      by destruct (avail c0 =? 0).
    + unfold num_clients in *. simpl. by rewrite length_insert.
Qed.

(** X2.  In every reachable state the allocations hold what is stored in
    them: each client's buffer is at least as large as its valid bytes
    (so the [memmove] that appends a datagram stays inside the block
    [realloc] returned), and the array is at least as large as its
    [num_clients] entries. *)
Theorem allocations_hold_contents st :
  reachable localtime any_time st ->
  Forall (fun c => avail c <= buffer_size c) (clients st) /\
  sizeof_client * num_clients st <= clients_size st.
Proof.
  induction 1 as [c t w now fo re Hc Hs | st Hr IH Hs | now st Hr IH Hs Hc
                 | now d st Hr IH Hs Hc Hd | st Hr IH Hs].
  - revert Hs. unfold do_init.
    set (st0 := Build_state _ _ _ _ _ _ _ _ _ _ _ _ _ _ _).
    set (tm0 := default _ _).
    pose proof (switch_logfile_unchanged tm0 st0) as U.
    destruct (log_fp (switch_logfile tm0 st0)); simpl; [| done].
    intros _. unfold num_clients.
    rewrite (ubl_clients _ _ U), (ubl_clients_size _ _ U). simpl.
    split; [constructor | done].
  - done.
  - pose proof (alloc_ok_flush_where
      (fun c => negb (avail c =? 0) && (now - stamp c >=? wait_timeout st))
      st IH) as H.
    unfold check_timeout. by destruct (flush_where _ _ _ _).
  - apply alloc_ok_recv_datagram; [by eapply reachable_inv | done | lia].
  - apply alloc_ok_drop_memory_usage; [by eapply reachable_inv | done].
Qed.

(** X3.  In every reachable state each client holds fewer than
    [wbuf_size] bytes and no newline, so that the bytes buffered in all
    clients stay below [max_clients * wbuf_size]. *)
Theorem buffers_bounded st :
  reachable localtime any_time st ->
  Forall (fun c => avail c < wbuf_size st /\ (nl ∉ buffer c)) (clients st) /\
  buffered (clients st) <= max_clients st * (wbuf_size st - 1).
Proof.
  intros Hr. pose proof (reachable_inv _ _ _ Hr) as Hi.
  pose proof (inv_clients _ Hi) as Hok.
  pose proof (inv_count _ Hi) as Hn. pose proof (inv_wbuf_size _ Hi) as Hw.
  split.
  - eapply Forall_impl; [exact Hok |]. by intros c (_ & _ & _ & H1 & H2).
  - assert (H : buffered (clients st) <= num_clients st * (wbuf_size st - 1)).
    { unfold num_clients. clear -Hok.
      induction Hok as [|c cs (_ & _ & _ & _ & Hc) _ IH]; simpl; [lia |].
      rewrite Nat2Z.inj_succ. lia. }
    nia.
Qed.

End Memory.

Lemma allocations_hold_contents_witness :
  Forall (fun c => avail c <= buffer_size c) (clients starving) /\
  sizeof_client * num_clients starving <= clients_size starving.
Proof.
  exact (allocations_hold_contents utc starving reachable_starving).
Defined.

Lemma buffers_bounded_witness :
  buffered (clients starving) <= max_clients starving * (wbuf_size starving - 1).
Proof.
  exact (proj2 (buffers_bounded utc starving reachable_starving)).
Defined.

(** ** The timeout check *)

Section Timeout.

Variable localtime : Z -> option tm.

Lemma check_timeout_inv now st :
  inv st ->
  let st' := check_timeout localtime now st in
  clients st' =
    map (fun c => if stale now (wait_timeout st) c then set_buffer [] c else c)
      (clients st) /\
  wait_timeout st' = wait_timeout st /\
  records (new_events st st') =
    map (fun c => (addr_str c, buffer c ++ [nl]))
      (filter (fun c => stale now (wait_timeout st) c) (clients st)).
Proof.
  intros Hi st'. unfold st', check_timeout. fold (stale now (wait_timeout st)).
  pose proof (flush_where_clients localtime (stale now (wait_timeout st))
    (clients st) st) as Hc.
  pose proof (flush_where_unchanged localtime (stale now (wait_timeout st))
    (clients st) st) as U.
  destruct (flush_where_records localtime (stale now (wait_timeout st))
    (clients st) st) as (evs & O & R).
  { eapply Forall_impl; [apply (inv_clients _ Hi) |].
    by intros c (_ & _ & _ & H & _). }
  { intros c [H _]%andb_true_iff. by apply avail_has_data. }
  destruct (flush_where _ _ _ _) as [cs st1]. simpl in *.
  split_and!; [done | apply (ubl_wait_timeout _ _ U) |].
  rewrite <- R. f_equal. by apply new_events_app.
Qed.

(** X4.  The timeout check at time [now], in a reachable state: every
    client that has data whose first byte is [wait_timeout] seconds old or
    more is flushed, once, as one record made of its buffer and a
    newline, in the order of the array, and is left empty; the other
    clients are left as they are.  After the check no client with data
    is that old, and a second check at the same time writes nothing and
    changes no client. *)
Theorem timeout_check_flushes_stale now st :
  reachable localtime any_time st ->
  let w := wait_timeout st in
  let st' := check_timeout localtime now st in
  let st'' := check_timeout localtime now st' in
  clients st' =
    map (fun c => if stale now w c then set_buffer [] c else c) (clients st) /\
  records (new_events st st') =
    map (fun c => (addr_str c, buffer c ++ [nl]))
      (filter (fun c => stale now w c) (clients st)) /\
  Forall (fun c => has_data c -> now - stamp c < w) (clients st') /\
  records (new_events st' st'') = [] /\ clients st'' = clients st'.
Proof.
  intros Hr w st' st''. pose proof (reachable_inv _ _ _ Hr) as Hi.
  destruct (check_timeout_inv now st Hi) as (Hc & Hw & Hrec).
  fold st' w in Hc, Hw, Hrec.
  assert (Hfresh : Forall (fun c => stale now w c = false) (clients st')).
  { rewrite Hc. apply Forall_forall. intros c' [c [-> _]]%list_elem_of_fmap.
    destruct (stale now w c) eqn:E; [| done].
    unfold stale, avail. simpl. done. }
  destruct (check_timeout_inv now st' (inv_check_timeout localtime now st Hi))
    as (Hc2 & _ & Hrec2).
  fold st' st'' in Hc2, Hrec2. rewrite Hw in Hc2, Hrec2. fold w in Hc2, Hrec2.
  split_and!; try done.
  - eapply Forall_impl; [exact Hfresh |]. intros c Hs Hd.
    unfold stale in Hs. rewrite avail_zero in Hs. unfold has_data in Hd.
    rewrite bool_decide_eq_false_2 in Hs by done. simpl in Hs. lia.
  - rewrite Hrec2. clear -Hfresh.
    induction Hfresh as [|c cs H _ IH]; [done |].
    rewrite filter_cons_False; [done |]. rewrite H. by intros [].
  - rewrite Hc2. clear -Hfresh.
    induction Hfresh as [|c cs H _ IH]; [done |]. simpl. by rewrite H, IH.
Qed.

End Timeout.

Lemma timeout_check_flushes_stale_witness :
  records (new_events starving (check_timeout utc 1706745602 starving)) =
    [(str "192.168.0.1:6666 ", line "par");
     (str "192.168.0.2:6666 ", line "tial")].
Proof.
  pose proof (timeout_check_flushes_stale utc 1706745602 starving
    reachable_starving) as H.
  destruct H as (_ & H & _). rewrite H. by vm_compute.
Defined.

(** ** What a datagram and a reclamation pass leave alone *)

Lemma pending_find_buffer a st : pending a st = find_buffer a (clients st).
Proof.
  unfold pending. induction (clients st) as [|c cs IH]; simpl; [done |].
  case_decide; [done |].
  destruct (lookup_client a cs) as [i|]; simpl in *; done.
Qed.

Lemma find_buffer_absent a cs : a ∉ map addr cs -> find_buffer a cs = [].
Proof.
  induction cs as [|c cs IH]; simpl; [done |].
  rewrite not_elem_of_cons. intros [H1 H2]. case_decide; [congruence | auto].
Qed.

Lemma find_buffer_filter a cs :
  NoDup (map addr cs) ->
  find_buffer a (filter has_data cs) = find_buffer a cs.
Proof.
  induction cs as [|c cs IH]; simpl; [done |].
  intros [Hc Hn]%NoDup_cons. rewrite filter_cons.
  destruct (decide (has_data c)) as [Hd|Hd]; simpl.
  - case_decide; [done | auto].
  - case_decide as Ha; [| auto].
    unfold has_data in Hd. destruct (buffer c) eqn:E; [| by destruct Hd].
    apply find_buffer_absent. subst a. intros Hin. apply Hc.
    eapply elem_of_sublist; [exact Hin |]. apply filter_addrs_sublist.
Qed.

Lemma find_buffer_same_data a cs cs' :
  Forall2 same_data cs cs' -> find_buffer a cs' = find_buffer a cs.
Proof.
  induction 1 as [|c c' cs cs' (Ha & _ & Hb & _) _ IH]; simpl; [done |].
  rewrite Ha, Hb, IH. done.
Qed.

Lemma find_buffer_insert a (cs : list client) i c0 c :
  cs !! i = Some c0 -> addr c = addr c0 -> addr c0 <> a ->
  find_buffer a (<[i := c]> cs) = find_buffer a cs.
Proof.
  revert i. induction cs as [|x cs IH]; intros i Hi Ha Hne; [done |].
  destruct i as [|i]; simpl in *.
  - injection Hi as ->. rewrite Ha. by rewrite !decide_False.
  - by rewrite (IH i Hi Ha Hne).
Qed.

Lemma find_buffer_snoc_fresh a b cs :
  find_buffer a (cs ++ [fresh_client b]) = find_buffer a cs.
Proof.
  induction cs as [|c cs IH]; simpl.
  - by case_decide.
  - by rewrite IH.
Qed.

Lemma pending_drop_memory_usage a st :
  inv st -> pending a (drop_memory_usage st) = pending a st.
Proof.
  intros Hi. destruct (try_drop_memory_usage st) eqn:E.
  2:{ by rewrite drop_memory_usage_idle. }
  destruct (drop_memory_usage_spec st E) as (H & _).
  rewrite !pending_find_buffer, (find_buffer_same_data _ _ _ H).
  apply find_buffer_filter, (inv_nodup _ Hi).
Qed.

Section Senders.

Variable localtime : Z -> option tm.

(** X5.  A reclamation pass is invisible to the senders: whether it is
    the call that ends a round or the one [find_client] forces at a full
    array, it leaves the bytes buffered for every sender as they are,
    writes nothing to the log and keeps the log file and the exit status. *)
Theorem reclamation_keeps_pending st :
  reachable localtime any_time st ->
  forall forced,
    let st0 :=
      if forced : bool then set_try_drop_memory_usage true st else st in
    let st' := drop_memory_usage st0 in
    (forall a, pending a st' = pending a st) /\
    out st' = out st /\ log_fp st' = log_fp st /\ status st' = status st.
Proof.
  intros Hr forced st0 st'. pose proof (reachable_inv _ _ _ Hr) as Hi.
  assert (Hi0 : inv st0).
  { unfold st0. destruct forced; [| done].
    by apply inv_set_try_drop_memory_usage. }
  assert (E0 : clients st0 = clients st /\ out st0 = out st /\
               log_fp st0 = log_fp st /\ status st0 = status st).
  { unfold st0. by destruct forced. }
  destruct E0 as (Ec & Eo & El & Es).
  pose proof (drop_memory_usage_unchanged st0) as U.
  split_and!.
  - intros a. unfold st'. rewrite (pending_drop_memory_usage a st0 Hi0).
    by rewrite !pending_find_buffer, Ec.
  - unfold st'. by rewrite (ubm_out _ _ U).
  - unfold st'. by rewrite (ubm_log_fp _ _ U).
  - unfold st'. by rewrite (ubm_status _ _ U).
Qed.

(** X6.  [find_client] returns [NULL] exactly when the sender has no client
    and either the array is full or [realloc] fails.  The datagram is then
    dropped without a trace: nothing is written, the program goes on, and
    the bytes buffered for every sender stay as they are. *)
Theorem dropped_datagram_is_silent now d st :
  reachable localtime any_time st ->
  let a := sockaddr_of d in
  ((find_client a st).1 = None <->
   lookup_client a (clients st) = None /\
   (max_clients st <= num_clients st \/ hd true (realloc_tape st) = false)) /\
  ((find_client a st).1 = None ->
   let st' := recv_datagram localtime now d st in
   out st' = out st /\ status st' = status st /\
   forall b, pending b st' = pending b st).
Proof.
  intros Hr a. pose proof (reachable_inv _ _ _ Hr) as Hi.
  pose proof (find_client_spec a st) as Hf.
  split.
  - destruct (find_client a st) as [r st1]. simpl in *.
    inversion Hf as [j Hl | st' Hl Hn Hh Hc Ht U Hd | Hl Hn | Hl Hn Hh];
      subst.
    + split; [done |]. intros [Hl' _]. congruence.
    + split; [done |]. intros [_ [H | H]]; [lia | congruence].
    + split; [| done]. intros _. split; [done | by left].
    + split; [| done]. intros _. split; [done | by right].
  - intros Hnone st'. unfold st', recv_datagram. fold a.
    destruct (find_client a st) as [r st1]. simpl in *. subst r.
    inversion Hf as [| | Hl Hn | Hl Hn Hh]; subst.
    + pose proof (drop_memory_usage_unchanged
        (set_try_drop_memory_usage true st)) as U.
      split_and!.
      * exact (ubm_out _ _ U).
      * exact (ubm_status _ _ U).
      * intros b.
        rewrite (pending_drop_memory_usage b _
                   (inv_set_try_drop_memory_usage _ true Hi)).
        by rewrite !pending_find_buffer.
    + by split_and!.
Qed.

(** X7.  A datagram that is stored touches its sender's client only: the
    clients at the other places of the array are what they were, and so
    are the bytes buffered for every other address.  The sender's client
    gets [now] as the time of its first byte if it had no data, and keeps
    its time if it had. *)
Theorem stored_datagram_touches_sender_only now d st i st1 :
  reachable localtime any_time st ->
  find_client (sockaddr_of d) st = (Some i, st1) ->
  hd true (realloc_tape st1) = true ->
  let a := sockaddr_of d in
  let st' := recv_datagram localtime now d st in
  (forall j, j <> i -> clients st' !! j = clients st !! j) /\
  (forall b, b <> a -> pending b st' = pending b st) /\
  exists c', clients st' !! i = Some c' /\ addr c' = a /\
    stamp c' =
      match clients st !! i with
      | Some c0 => if avail c0 =? 0 then now else stamp c0
      | None => now
      end.
Proof.
  intros Hr Hf Hh a st'. pose proof (reachable_inv _ _ _ Hr) as Hi.
  pose proof (find_client_spec a st) as Ho. fold a in Hf.
  rewrite Hf in Ho. simpl in Ho.
  pose proof (inv_find_client _ _ _ _ Hi Ho) as Hi1.
  destruct (find_client_index _ _ _ _ Ho) as (c0 & Hc0 & Ha).
  pose proof (inv_clients _ Hi1) as Hok.
  rewrite Forall_lookup in Hok. specialize (Hok _ _ Hc0).
  destruct Hok as (_ & _ & _ & Hnl & _).
  destruct (store_datagram_spec localtime d (stamped now c0)
    (set_realloc_tape (tail (realloc_tape st1)) st1))
    as (st4 & evs & E & U & _); [by rewrite buffer_stamped |].
  set (c4 := set_buffer_size _ _) in E.
  assert (E' : st' = set_clients (<[i := c4]> (clients st4)) st4).
  { unfold st', recv_datagram. fold a. rewrite Hf, Hc0. unfold realloc.
    rewrite Hh. cbv beta iota zeta delta [negb]. fold (stamped now c0).
    by rewrite E. }
  assert (Ecl : clients st4 = clients st1) by apply (ubl_clients _ _ U).
  assert (Hst1 : (clients st1 = clients st /\ clients st !! i = Some c0) \/
                 (clients st1 = clients st ++ [fresh_client a] /\
                  i = length (clients st) /\ c0 = fresh_client a)).
  { inversion Ho as [j Hl E1 E2 | stx Hl Hn Hh' Hcs Ht U' Hd E1 E2 | |]; subst.
    - by left.
    - right. split_and!; try done.
      rewrite Hcs, list_lookup_middle in Hc0 by done. congruence. }
  rewrite E'. simpl. rewrite Ecl. split_and!.
  - intros j Hj. rewrite list_lookup_insert_ne by done.
    destruct Hst1 as [[-> _] | (-> & -> & _)]; [done |].
    destruct (decide (j < length (clients st))%nat).
    + by rewrite lookup_app_l.
    + rewrite !lookup_ge_None_2; [done | lia |].
      rewrite length_app. simpl. lia.
  - intros b Hb. rewrite !pending_find_buffer. simpl.
    rewrite (find_buffer_insert b _ i c0 c4 Hc0);
      [| unfold c4; simpl; apply addr_stamped | congruence].
    destruct Hst1 as [[-> _] | (-> & _ & _)]; [done |].
    apply find_buffer_snoc_fresh.
  - exists c4. split_and!.
    + apply list_lookup_insert_eq. by eapply lookup_lt_Some.
    + unfold c4. simpl. by rewrite addr_stamped.
    + unfold c4. simpl.
      destruct Hst1 as [[_ ->] | (_ & -> & ->)].
      * unfold stamped. by destruct (avail c0 =? 0).
      * by rewrite lookup_ge_None_2.
Qed.

End Senders.

Lemma reclamation_keeps_pending_witness :
  let st' := drop_memory_usage (set_try_drop_memory_usage true starving) in
  (forall a, pending a st' = pending a starving) /\ out st' = out starving.
Proof.
  pose proof (reclamation_keeps_pending utc starving reachable_starving true)
    as H.
  exact (conj (proj1 H) (proj1 (proj2 H))).
Defined.

Lemma dropped_datagram_is_silent_witness :
  let d := from_host 11 (line "hello") in
  out (recv_datagram utc 1706745593 d full) = out full /\
  status (recv_datagram utc 1706745593 d full) = status full.
Proof.
  intros d.
  pose proof (dropped_datagram_is_silent utc 1706745593 d full reachable_full)
    as [_ H].
  specialize (H ltac:(by vm_compute)).
  exact (conj (proj1 H) (proj1 (proj2 H))).
Defined.

Lemma stored_datagram_touches_sender_only_witness :
  let d := from_host 2 (str "more") in
  let b := sockaddr_of (from_host 1 []) in
  pending b (recv_datagram calendar 1706745593 d logged) = pending b logged.
Proof.
  intros d b.
  assert (Hf : find_client (sockaddr_of d) logged = (Some 1%nat, logged))
    by by vm_compute.
  assert (Hh : hd true (realloc_tape logged) = true) by by vm_compute.
  assert (Hb : b <> sockaddr_of d) by (vm_compute; intros [=]).
  exact (proj1 (proj2 (stored_datagram_touches_sender_only calendar
    1706745593 d logged 1%nat logged
    (reachable_any calendar after_epoch logged reachable_logged) Hf Hh))
    b Hb).
Defined.

(** ** The log file between two states *)

Lemma same_log_refl st : same_log st st.
Proof. by split. Qed.

Lemma same_log_trans st1 st2 st3 :
  same_log st1 st2 -> same_log st2 st3 -> same_log st1 st3.
Proof. intros [] []. split; congruence. Qed.

Lemma unchanged_but_memory_same_log st st' :
  unchanged_but_memory st st' -> same_log st st'.
Proof. intros []. by split. Qed.

Lemma find_client_same_log a st r st1 :
  find_client_outcome a st r st1 -> same_log st st1.
Proof.
  inversion 1 as [j Hl | st' Hl Hn Hh Hc Ht U Hd | Hl Hn | Hl Hn Hh]; subst.
  - apply same_log_refl.
  - by apply unchanged_but_memory_same_log.
  - apply (same_log_trans _ (set_try_drop_memory_usage true st)); [by split |].
    apply unchanged_but_memory_same_log, drop_memory_usage_unchanged.
  - by split.
Qed.

(** The clients with data got their first byte at a time of the clock. *)
Lemma stamps_flushed (clock : Z -> Prop) (cond : client -> bool) cs :
  Forall (fun c => has_data c -> clock (stamp c)) cs ->
  Forall (fun c => has_data c -> clock (stamp c))
    (map (fun c => if cond c then set_buffer [] c else c) cs).
Proof.
  induction 1 as [|c cs Hc _ IH]; simpl; constructor; [| done].
  destruct (cond c); [| done]. intros H. by destruct H.
Qed.

Lemma stamps_drop_memory_usage (clock : Z -> Prop) st :
  Forall (fun c => has_data c -> clock (stamp c)) (clients st) ->
  Forall (fun c => has_data c -> clock (stamp c))
    (clients (drop_memory_usage st)).
Proof.
  intros Hcs. destruct (try_drop_memory_usage st) eqn:E.
  2:{ by rewrite drop_memory_usage_idle. }
  destruct (drop_memory_usage_spec st E) as (H2 & _).
  assert (Hf : Forall (fun c => has_data c -> clock (stamp c))
                 (filter has_data (clients st))).
  { apply Forall_forall. intros x [_ Hx]%list_elem_of_filter.
    rewrite Forall_forall in Hcs. auto. }
  clear -H2 Hf. induction H2 as [|c c' cs cs' (_ & _ & Hb & Hs) _ IH];
    [constructor |].
  apply Forall_cons in Hf as [H1 Hf]. constructor; [| auto].
  unfold has_data in *. rewrite Hb, Hs. done.
Qed.

Lemma stamps_find_client (clock : Z -> Prop) a st r st1 :
  Forall (fun c => has_data c -> clock (stamp c)) (clients st) ->
  find_client_outcome a st r st1 ->
  Forall (fun c => has_data c -> clock (stamp c)) (clients st1).
Proof.
  intros Hcs.
  inversion 1 as [j Hl | st' Hl Hn Hh Hc Ht U Hd | Hl Hn | Hl Hn Hh]; subst.
  - done.
  - rewrite Hc. apply Forall_app. split; [done |].
    constructor; [| done]. intros Hd'. by destruct Hd'.
  - by apply stamps_drop_memory_usage.
  - done.
Qed.

Lemma stamps_stamped (clock : Z -> Prop) now c :
  clock now -> (has_data c -> clock (stamp c)) -> clock (stamp (stamped now c)).
Proof.
  intros Hn Hc. unfold stamped. rewrite avail_zero.
  case_bool_decide as Hb; [done |]. by apply Hc.
Qed.

Section LogStepsFacts.

Variable localtime : Z -> option tm.
Variable clock : Z -> Prop.

Lemma log_steps_trans st1 st2 st3 :
  log_steps localtime clock st1 st2 -> log_steps localtime clock st2 st3 ->
  log_steps localtime clock st1 st3.
Proof.
  induction 1 as [st st' Hs | c forced st st' Hc H IH | e st st' He H IH
                 | st sta st' Hs H IH]; intros H3.
  - by eapply ls_then.
  - eapply ls_write; [done |]. by apply IH.
  - eapply ls_emit; [done |]. by apply IH.
  - eapply ls_then; [done |]. by apply IH.
Qed.

Lemma log_steps_write c forced st :
  clock (stamp c) ->
  log_steps localtime clock st (write_logfile localtime c forced st).2.
Proof. intros H. eapply ls_write; [done |]. apply ls_same, same_log_refl. Qed.

Lemma log_steps_flush_where cond cs st :
  Forall (fun c => cond c = true -> clock (stamp c)) cs ->
  log_steps localtime clock st (flush_where localtime cond cs st).2.
Proof.
  intros Hcs. revert st.
  induction Hcs as [|c cs Hc _ IH]; intros st; simpl.
  - apply ls_same, same_log_refl.
  - destruct (cond c).
    + pose proof (log_steps_write c true st (Hc eq_refl)) as H1.
      destruct (write_logfile localtime c true st) as [c' st1]. simpl in H1.
      specialize (IH st1). destruct (flush_where localtime cond cs st1).
      simpl in *. by eapply log_steps_trans.
    + specialize (IH st). by destruct (flush_where localtime cond cs st).
Qed.

Lemma store_datagram_stamp d c st :
  stamp (store_datagram localtime d c st).1 = stamp c /\
  clients (store_datagram localtime d c st).2 = clients st.
Proof.
  unfold store_datagram.
  set (c2 := set_buffer_size _ _).
  assert (H1 : stamp (if bool_decide (is_Some (memchr nl (payload d)))
     then write_logfile localtime c2 false st else (c2, st)).1 = stamp c /\
     clients (if bool_decide (is_Some (memchr nl (payload d)))
     then write_logfile localtime c2 false st else (c2, st)).2 = clients st).
  { destruct (bool_decide _); [| done].
    pose proof (write_logfile_unchanged localtime c2 false st) as U.
    split; [| apply (ubl_clients _ _ U)].
    rewrite write_logfile_eq. done. }
  destruct (if bool_decide _ then _ else _) as [c3 st3]. simpl in H1.
  destruct H1 as [H1 H2].
  destruct (avail c3 >=? wbuf_size st3); [| done].
  pose proof (write_logfile_unchanged localtime c3 true st3) as U.
  split; [| by rewrite (ubl_clients _ _ U)].
  rewrite write_logfile_eq. done.
Qed.

Lemma log_steps_store_datagram d c st :
  clock (stamp c) ->
  log_steps localtime clock st (store_datagram localtime d c st).2.
Proof.
  intros Hc. unfold store_datagram.
  set (c2 := set_buffer_size _ _).
  assert (H1 : log_steps localtime clock st
    (if bool_decide (is_Some (memchr nl (payload d)))
     then write_logfile localtime c2 false st else (c2, st)).2 /\
    stamp (if bool_decide (is_Some (memchr nl (payload d)))
     then write_logfile localtime c2 false st else (c2, st)).1 = stamp c).
  { destruct (bool_decide _).
    - split; [by apply log_steps_write |]. rewrite write_logfile_eq. done.
    - split; [apply ls_same, same_log_refl | done]. }
  destruct (if bool_decide _ then _ else _) as [c3 st3]. simpl in H1.
  destruct H1 as [H1 H2].
  destruct (avail c3 >=? wbuf_size st3); [| done].
  eapply log_steps_trans; [exact H1 | apply log_steps_write]. by rewrite H2.
Qed.

Lemma log_steps_check_timeout now st :
  Forall (fun c => has_data c -> clock (stamp c)) (clients st) ->
  log_steps localtime clock st (check_timeout localtime now st).
Proof.
  intros Hcs. unfold check_timeout.
  pose proof (log_steps_flush_where
    (fun c => negb (avail c =? 0) && (now - stamp c >=? wait_timeout st))
    (clients st) st) as H.
  destruct (flush_where _ _ _ _) as [cs st1]. simpl in H.
  eapply log_steps_trans; [apply H | by apply ls_same].
  eapply Forall_impl; [exact Hcs |].
  intros c Hc [H1 _]%andb_true_iff. by apply Hc, avail_has_data.
Qed.

Lemma log_steps_flush_all_and_abort st :
  Forall (fun c => has_data c -> clock (stamp c)) (clients st) ->
  log_steps localtime clock st (flush_all_and_abort localtime st).
Proof.
  intros Hcs. unfold flush_all_and_abort.
  pose proof (log_steps_flush_where (fun c => negb (avail c =? 0))
    (clients st) st) as H.
  destruct (flush_where _ _ _ _) as [cs st1]. simpl in H.
  eapply log_steps_trans.
  { apply H. eapply Forall_impl; [exact Hcs |].
    intros c Hc H1. by apply Hc, avail_has_data. }
  eapply ls_then with (st1 := set_clients cs st1); [by split |].
  eapply ls_emit; [apply pe_print |].
  eapply ls_emit; [apply pe_flush |].
  eapply ls_emit; [apply (pe_exit _ 1) |].
  by apply ls_same.
Qed.

Lemma log_steps_recv_datagram now d st :
  clock now ->
  Forall (fun c => has_data c -> clock (stamp c)) (clients st) ->
  log_steps localtime clock st (recv_datagram localtime now d st) /\
  Forall (fun c => has_data c -> clock (stamp c))
    (clients (recv_datagram localtime now d st)).
Proof.
  intros Hn Hcs.
  destruct (recv_datagram_spec localtime now d st)
    as [st' Hf | i st1 c0 Hf Hc Hh | i st1 c0 c4 st4 Hf Hc Hh Hs].
  - split; [by eapply ls_same, find_client_same_log |].
    by eapply stamps_find_client.
  - pose proof (stamps_find_client clock _ _ _ _ Hcs Hf) as Hcs1.
    assert (Hc0 : has_data c0 -> clock (stamp c0)).
    { rewrite Forall_lookup in Hcs1. apply (Hcs1 _ _ Hc). }
    set (st2 := set_clients _ _).
    assert (Hcs2 : Forall (fun c => has_data c -> clock (stamp c))
                     (clients st2)).
    { simpl. apply Forall_insert; [done |]. intros _.
      by apply stamps_stamped. }
    split.
    + eapply ls_then; [by eapply find_client_same_log |].
      eapply ls_then with (st1 := st2); [by split |].
      by apply log_steps_flush_all_and_abort.
    + unfold flush_all_and_abort.
      pose proof (flush_where_clients localtime (fun c => negb (avail c =? 0))
        (clients st2) st2) as E.
      destruct (flush_where _ _ _ _) as [cs st3]. simpl in *. subst cs.
      by apply stamps_flushed.
  - pose proof (stamps_find_client clock _ _ _ _ Hcs Hf) as Hcs1.
    assert (Hc0 : has_data c0 -> clock (stamp c0)).
    { rewrite Forall_lookup in Hcs1. apply (Hcs1 _ _ Hc). }
    pose proof (stamps_stamped clock now c0 Hn Hc0) as Hst.
    pose proof (log_steps_store_datagram d (stamped now c0)
      (set_realloc_tape (tail (realloc_tape st1)) st1) Hst) as H.
    destruct (store_datagram_stamp d (stamped now c0)
      (set_realloc_tape (tail (realloc_tape st1)) st1)) as [S4 C4].
    rewrite Hs in H, S4, C4. simpl in H, S4, C4.
    split.
    + eapply ls_then; [by eapply find_client_same_log |].
      eapply ls_then with
        (st1 := set_realloc_tape (tail (realloc_tape st1)) st1); [by split |].
      eapply log_steps_trans; [exact H |]. by apply ls_same.
    + simpl. rewrite C4. apply Forall_insert; [done |]. intros _.
      by rewrite S4.
Qed.

(** A property of the log file that the calls on the log file keep is
    kept from a state to a later one. *)
Lemma log_steps_invariant (P : state -> Prop) :
  (forall st st', same_log st st' -> P st -> P st') ->
  (forall c forced st,
     clock (stamp c) -> P st -> P (write_logfile localtime c forced st).2) ->
  (forall e st, plain_event st e -> P st -> P (emit e st)) ->
  forall st st', log_steps localtime clock st st' -> P st -> P st'.
Proof.
  intros Hs Hw He. induction 1; eauto.
Qed.

(** In a run the clients with data got their first byte at a time of the
    clock, and the log file changes by [log_steps] only. *)
Lemma reachable_log_steps (P : state -> Prop) :
  (forall st st', log_steps localtime clock st st' -> P st -> P st') ->
  (forall c t w now fo re,
     clock now ->
     status (do_init localtime c t w now fo re) = None ->
     P (do_init localtime c t w now fo re)) ->
  forall st, reachable localtime clock st ->
    P st /\ Forall (fun c => has_data c -> clock (stamp c)) (clients st).
Proof.
  intros Hl Hi.
  induction 1 as [c t w now fo re Hc Hs | st Hr [IH IC] Hs
                 | now st Hr [IH IC] Hs Hc
                 | now d st Hr [IH IC] Hs Hc Hd | st Hr [IH IC] Hs].
  - split; [by apply Hi |]. revert Hs. unfold do_init.
    set (st0 := Build_state _ _ _ _ _ _ _ _ _ _ _ _ _ _ _).
    set (tm0 := default _ _).
    pose proof (switch_logfile_unchanged tm0 st0) as U.
    destruct (log_fp (switch_logfile tm0 st0)); simpl; [| done].
    intros _. rewrite (ubl_clients _ _ U). constructor.
  - split; [| done]. eapply Hl; [| exact IH].
    eapply ls_emit; [apply pe_flush |]. apply ls_same, same_log_refl.
  - split.
    + eapply Hl; [by apply log_steps_check_timeout | exact IH].
    + unfold check_timeout.
      pose proof (flush_where_clients localtime
        (fun c => negb (avail c =? 0) && (now - stamp c >=? wait_timeout st))
        (clients st) st) as E.
      destruct (flush_where _ _ _ _) as [cs st1]. simpl in *. subst cs.
      by apply stamps_flushed.
  - destruct (log_steps_recv_datagram now d st Hc IC) as [H1 H2].
    split; [| done]. eapply Hl; [exact H1 | exact IH].
  - split; [| by apply stamps_drop_memory_usage].
    eapply Hl; [| exact IH]. apply ls_same, unchanged_but_memory_same_log,
      drop_memory_usage_unchanged.
Qed.

End LogStepsFacts.

(** ** The cached time stamp *)

Section Stamp.

Variable localtime : Z -> option tm.

Lemma update_stamp_last_time now st :
  last_time (update_stamp localtime now st) = now.
Proof.
  unfold update_stamp. destruct (Z.eqb_spec (last_time st) now); simpl;
    done.
Qed.

Lemma cache_ok_update_stamp now st :
  cache_ok localtime st -> cache_ok localtime (update_stamp localtime now st).
Proof.
  intros Hc. unfold cache_ok. rewrite update_stamp_last_time.
  intros Hnow t Ht. unfold update_stamp.
  destruct (Z.eqb_spec (last_time st) now) as [E|E]; simpl.
  - subst now. by apply Hc.
  - rewrite Ht. simpl. destruct (day_changed t (last_tm st)); simpl; [| done].
    by rewrite (proj2 (proj2 (switch_logfile_stamp _ _))).
Qed.

Lemma cache_ok_reachable st :
  reachable localtime any_time st -> cache_ok localtime st.
Proof.
  intros Hr.
  apply (reachable_log_steps localtime any_time (cache_ok localtime));
    [| | exact Hr].
  - apply log_steps_invariant.
    + intros s s' U H. unfold cache_ok.
      rewrite (sl_last_time _ _ U), (sl_stamp_buf _ _ U). exact H.
    + intros c forced s _ H. rewrite write_logfile_eq. simpl.
      apply (cache_ok_update_stamp (stamp c)) in H. exact H.
    + intros e s _ H. exact H.
  - intros c t w now fo re _ _. unfold do_init.
    set (st0 := Build_state _ _ _ _ _ _ _ _ _ _ _ _ _ _ _).
    set (tm0 := default _ _).
    pose proof (switch_logfile_stamp tm0 st0) as (_ & H & _).
    assert (H0 : last_time (match log_fp (switch_logfile tm0 st0) with
                            | Some _ => switch_logfile tm0 st0
                            | None => set_status (Some 1) (switch_logfile tm0 st0)
                            end) = 0).
    { by destruct (log_fp (switch_logfile tm0 st0)). }
    intros Hn. by rewrite H0 in Hn.
Qed.

(** X8.  The records that [write_logfile] writes for a client carry the
    local time of the client's first byte, provided that time is not 0
    and [localtime] renders it: then, whether the stamp comes from the
    cache or is computed, the call adds no record but the complete lines
    of the buffer (and the rest when forced), each with the rendering of
    that time and written to the stream that is current when the call
    returns.  When the client's time is [last_time] the cached stamp is
    used as it is; so a client whose time is 0, written before any other
    record, gets the empty stamp the cache starts with. *)
Theorem records_carry_time_of_first_byte st c forced :
  reachable localtime any_time st ->
  let st' := (write_logfile localtime c forced st).2 in
  let rest := after_last_nl (buffer c) in
  let recs s :=
    map (EvRecord (log_fp st') s (addr_str c))
      (lines_of (buffer c) ++
       if forced && negb (Z.of_nat (length rest) =? 0)
       then [rest ++ [nl]] else []) in
  (forall t,
     stamp c <> 0 -> localtime (stamp c) = Some t ->
     exists evs,
       records evs = [] /\
       new_events st st' = evs ++ recs (snprintf 23 (stamp_text t))) /\
  (stamp c = last_time st -> new_events st st' = recs (stamp_buf st)).
Proof.
  intros Hr. cbv zeta. split.
  - intros t Hs Ht. pose proof (cache_ok_reachable st Hr) as Hc.
    apply (cache_ok_update_stamp (stamp c)) in Hc.
    unfold cache_ok in Hc. rewrite update_stamp_last_time in Hc.
    specialize (Hc Hs t Ht).
    destruct (update_stamp_records localtime (stamp c) st) as (evs & O & R).
    rewrite write_logfile_eq. cbv zeta. exists evs. split; [done |].
    apply new_events_app. simpl. rewrite O, Hc. by rewrite <- app_assoc.
  - intros Hs. rewrite write_logfile_eq. cbv zeta.
    assert (E : update_stamp localtime (stamp c) st = st).
    { unfold update_stamp. by rewrite Hs, Z.eqb_refl. }
    rewrite E. by apply new_events_app.
Qed.

End Stamp.

Lemma records_carry_time_of_first_byte_witness :
  let c := {| addr := sockaddr_of (from_host 1 []);
              buffer := str "one" ++ [nl] ++ str "two"; buffer_size := 4096;
              addr_str := str "192.168.0.1:6666 "; stamp := 1706745600 |} in
  let c0 := set_stamp 0 c in
  let t := {| tm_sec := 0; tm_min := 0; tm_hour := 0; tm_mday := 1;
              tm_mon := 1; tm_year := 124 |} in
  let st' := (write_logfile utc c true day1).2 in
  let st0 := (write_logfile utc c0 true boot).2 in
  (snprintf 23 (stamp_text t) = str "2024-02-01 00:00:00 " /\
   exists evs,
     records evs = [] /\
     new_events day1 st' =
     evs ++ map (EvRecord (log_fp st') (snprintf 23 (stamp_text t))
                   (addr_str c))
              [str "one" ++ [nl]; str "two" ++ [nl]]) /\
  (stamp_buf boot = [] /\
   new_events boot st0 =
   map (EvRecord (log_fp st0) (stamp_buf boot) (addr_str c0))
     [str "one" ++ [nl]; str "two" ++ [nl]]).
Proof.
  intros c c0 t.
  assert (Hs : stamp c <> 0) by done.
  assert (Ht : utc (stamp c) = Some t) by by vm_compute.
  assert (H0 : stamp c0 = last_time boot) by by vm_compute.
  split; (split; [by vm_compute |]).
  - exact (proj1 (records_carry_time_of_first_byte utc day1 c true
                    reachable_day1) t Hs Ht).
  - exact (proj2 (records_carry_time_of_first_byte utc boot c0 true
                    reachable_boot) H0).
Defined.

(** ** The date marker *)

Section Marker.

Variable localtime : Z -> option tm.

Lemma date_ok_update_stamp now st :
  date_ok localtime st -> date_ok localtime (update_stamp localtime now st).
Proof.
  intros Hd. unfold date_ok, on_day. rewrite update_stamp_last_time.
  intros Hn. unfold update_stamp.
  destruct (Z.eqb_spec (last_time st) now) as [E|E]; simpl.
  - subst now. by apply Hd.
  - destruct (day_changed (default (last_tm st) (localtime now)) (last_tm st))
      eqn:Ed; simpl; [| done].
    rewrite (proj1 (switch_logfile_stamp _ _)). simpl.
    destruct (localtime now) as [r|]; simpl in *.
    + apply day_changed_refl.
    + by rewrite day_changed_refl in Ed.
Qed.

Lemma date_ok_reachable st :
  reachable localtime any_time st -> date_ok localtime st.
Proof.
  intros Hr.
  refine (proj1 (reachable_log_steps localtime any_time (date_ok localtime)
    _ _ st Hr)).
  - apply log_steps_invariant.
    + intros s s' U H. unfold date_ok.
      rewrite (sl_last_time _ _ U), (sl_last_tm _ _ U). exact H.
    + intros c forced s _ H.
      destruct (write_logfile_log_state localtime c forced s)
        as (_ & W2 & W3 & _).
      apply (date_ok_update_stamp (stamp c)) in H.
      unfold date_ok in *. by rewrite W2, W3.
    + intros e s _ H. exact H.
  - intros c t w now fo re _ _. unfold do_init.
    set (st0 := Build_state _ _ _ _ _ _ _ _ _ _ _ _ _ _ _).
    set (tm0 := default _ _).
    pose proof (switch_logfile_stamp tm0 st0) as (_ & H & _).
    assert (H0 : last_time (match log_fp (switch_logfile tm0 st0) with
                            | Some _ => switch_logfile tm0 st0
                            | None => set_status (Some 1) (switch_logfile tm0 st0)
                            end) = 0).
    { by destruct (log_fp (switch_logfile tm0 st0)). }
    intros Hn. by rewrite H0 in Hn.
Qed.

(** In a running program a client whose time of first byte is not 0 and
    whose date is not that of [last_tm] makes [write_logfile] refresh its
    stamp: the time is not the cached [last_time]. *)
Lemma other_day_refreshes st c t :
  reachable localtime any_time st ->
  stamp c <> 0 ->
  localtime (stamp c) = Some t ->
  day_changed t (last_tm st) = true ->
  last_time st <> stamp c.
Proof.
  intros Hr Hs Hloc Hday E.
  pose proof (date_ok_reachable st Hr) as Hd.
  unfold date_ok, on_day in Hd. rewrite E, Hloc in Hd. simpl in Hd.
  rewrite (Hd Hs) in Hday. done.
Qed.

(** C3, amended.  In a running program, a record whose time of first byte
    is not 0 and whose local date differs from the date marker [last_tm]
    makes [write_logfile] store its date in the marker and then try to
    open the file of that date.  If that fails, the previous stream stays
    in use, with the marker advanced.  From then on, whatever the program
    does, as long as it writes only records of that day (or records whose
    time [localtime] cannot render, which take the date of the marker) it
    opens nothing and keeps the previous stream and the marker; and the
    first record of another day makes the next attempt. *)
Theorem failed_switch_keeps_stream c forced st t :
  reachable localtime any_time st ->
  stamp c <> 0 ->
  localtime (stamp c) = Some t ->
  day_changed t (last_tm st) = true ->
  hd true (fopen_tape st) = false ->
  let st' := (write_logfile localtime c forced st).2 in
  is_Some (log_fp st) /\ log_fp st' = log_fp st /\ last_tm st' = t /\
  opens (new_events st st') = [snprintf 15 (filename_text t)] /\
  forall st'',
    log_steps localtime (on_day localtime t) st' st'' ->
    log_fp st'' = log_fp st /\ last_tm st'' = t /\
    opens (new_events st' st'') = [] /\
    forall c2 forced2 t2,
      localtime (stamp c2) = Some t2 -> day_changed t2 t = true ->
      opens (new_events st'' (write_logfile localtime c2 forced2 st'').2) =
      [snprintf 15 (filename_text t2)].
Proof.
  intros Hr Hs Hloc Hday Hopen st'.
  pose proof (other_day_refreshes st c t Hr Hs Hloc Hday) as Hlt.
  destruct (inv_log_fp _ (reachable_inv _ _ _ Hr)) as [old Hfp].
  destruct (update_stamp_failed_switch localtime (stamp c) st t old
    Hfp Hlt Hloc Hday Hopen) as (F1 & F2 & F3 & _ & F5).
  destruct (write_logfile_log_state localtime c forced st)
    as (W1 & W2 & W3 & _ & W5).
  fold st' in W1, W2, W3, W5.
  assert (Hfp' : log_fp st' = log_fp st) by congruence.
  assert (Htm' : last_tm st' = t) by congruence.
  split_and!; try done.
  { rewrite W5. erewrite new_events_app; [| exact F5]. done. }
  intros st'' Hsteps.
  assert (P : log_fp st'' = log_fp st' /\ last_tm st'' = t /\
              on_day localtime t (last_time st'') /\
              exists evs, out st'' = out st' ++ evs /\ opens evs = []).
  { refine (log_steps_invariant localtime (on_day localtime t)
      (fun s => log_fp s = log_fp st' /\ last_tm s = t /\
                on_day localtime t (last_time s) /\
                exists evs, out s = out st' ++ evs /\ opens evs = [])
      _ _ _ st' st'' Hsteps _).
    - intros s s' U (P1 & P2 & P3 & P4).
      rewrite (sl_log_fp _ _ U), (sl_last_tm _ _ U), (sl_last_time _ _ U),
        (sl_out _ _ U). done.
    - intros c2 forced2 s Hc2 (P1 & P2 & P3 & evs & P4 & P5).
      destruct (write_logfile_log_state localtime c2 forced2 s)
        as (V1 & V2 & V3 & _).
      destruct (update_stamp_same_day localtime (stamp c2) s)
        as (S1 & S2 & S3 & _).
      { rewrite P2. exact Hc2. }
      rewrite V1, V2, V3, S1, S2, update_stamp_last_time.
      split_and!; try done.
      rewrite write_logfile_eq. cbv zeta. unfold snd.
      cbn [out set_out]. rewrite S3, P4. eexists.
      split; [by rewrite <- app_assoc |].
      by rewrite opens_app, opens_records, P5.
    - intros e s He (P1 & P2 & P3 & evs & P4 & P5).
      unfold emit. cbn [log_fp last_tm last_time out set_out].
      split_and!; try done. exists (evs ++ [e]).
      split; [by rewrite P4, <- app_assoc |].
      rewrite opens_app, P5. by destruct He.
    - split_and!; try done.
      + unfold on_day. rewrite W3, F3, Hloc. apply day_changed_refl.
      + exists []. by rewrite app_nil_r. }
  destruct P as (P1 & P2 & P3 & evs & P4 & P5).
  split_and!; try congruence.
  { by rewrite (new_events_app _ _ _ P4). }
  intros c2 forced2 t2 Hloc2 Hday2.
  destruct (write_logfile_log_state localtime c2 forced2 st'')
    as (_ & _ & _ & _ & V5).
  rewrite V5.
  apply update_stamp_other_day; [| done | by rewrite P2].
  intros Heq. unfold on_day in P3. rewrite Heq, Hloc2 in P3. simpl in P3.
  congruence.
Qed.

End Marker.

Lemma failed_switch_keeps_stream_witness :
  let c := set_stamp 1706745601
    (set_buffer (line "midnight")
       (fresh_client (sockaddr_of (from_host 1 [])))) in
  let c2 := set_stamp 1706745602 c in
  let c3 := set_stamp 1706832001 c in
  let st' := (write_logfile utc c false disk_full).2 in
  let st'' := (write_logfile utc c2 false st').2 in
  (log_fp st' = log_fp disk_full /\
   opens (new_events disk_full st') = [str "2024-02-01.log"]) /\
  (log_fp st'' = log_fp disk_full /\ opens (new_events st' st'') = []) /\
  opens (new_events st'' (write_logfile utc c3 false st'').2) =
  [str "2024-02-02.log"].
Proof.
  intros c c2 c3 st' st''.
  assert (Hs : stamp c <> 0) by done.
  assert (Hloc : utc (stamp c) = Some midnight) by by vm_compute.
  assert (Hday : day_changed midnight (last_tm disk_full) = true)
    by by vm_compute.
  assert (Hopen : hd true (fopen_tape disk_full) = false) by by vm_compute.
  pose proof (failed_switch_keeps_stream utc c false disk_full midnight
    reachable_disk_full Hs Hloc Hday Hopen) as (_ & F1 & _ & F2 & F3).
  assert (H2 : on_day utc midnight (stamp c2)) by by vm_compute.
  pose proof (F3 st'' (ls_write utc _ c2 false st' st'' H2
    (ls_same utc _ st'' st'' (same_log_refl st'')))) as (G1 & _ & G2 & G3).
  assert (Hloc3 : utc (stamp c3) =
            Some {| tm_sec := 1; tm_min := 0; tm_hour := 0; tm_mday := 2;
                    tm_mon := 1; tm_year := 124 |}) by by vm_compute.
  pose proof (G3 c3 false _ Hloc3 eq_refl) as G4.
  assert (N1 : snprintf 15 (filename_text midnight) = str "2024-02-01.log")
    by by vm_compute.
  assert (N2 : snprintf 15 (filename_text
            {| tm_sec := 1; tm_min := 0; tm_hour := 0; tm_mday := 2;
               tm_mon := 1; tm_year := 124 |}) = str "2024-02-02.log")
    by by vm_compute.
  rewrite N1 in F2. rewrite N2 in G4.
  exact (conj (conj F1 F2) (conj (conj G1 G2) G4)).
Defined.

(** ** The streams *)

Lemma live_after_app live e1 e2 :
  live_after live (e1 ++ e2) = live_after (live_after live e1) e2.
Proof.
  revert live. induction e1 as [|e e1 IH]; intros live; [done |].
  destruct e as [name [f|] | f | | | |]; simpl; by rewrite ?IH.
Qed.

Lemma streams_used_ok_app live e1 e2 :
  streams_used_ok live (e1 ++ e2) <->
  streams_used_ok live e1 /\ streams_used_ok (live_after live e1) e2.
Proof.
  revert live. induction e1 as [|e e1 IH]; intros live; simpl; [tauto |].
  rewrite IH.
  destruct e as [name [f|] | f | | | |]; simpl; tauto.
Qed.

Lemma live_after_records live fp s a ls :
  live_after live (map (EvRecord fp s a) ls) = live.
Proof. induction ls as [|l ls IH]; simpl; by rewrite ?IH. Qed.

Lemma streams_used_ok_records live f s a ls :
  f ∈ live -> streams_used_ok live (map (EvRecord (Some f) s a) ls).
Proof.
  intros Hf. induction ls as [|l ls IH]; simpl; [done |]. split; eauto.
Qed.

Lemma streams_inv_same_log st st' :
  same_log st st' -> streams_inv st -> streams_inv st'.
Proof.
  intros U (H1 & f & H2 & H3 & H4). unfold streams_inv.
  rewrite (sl_out _ _ U), (sl_log_fp _ _ U), (sl_opened _ _ U). eauto.
Qed.

Lemma streams_inv_emit e st :
  plain_event st e -> streams_inv st -> streams_inv (emit e st).
Proof.
  intros He (H1 & f & H2 & H3 & H4). unfold streams_inv, emit. simpl.
  rewrite streams_used_ok_app, live_after_app, H3.
  split; [split; [done |] |].
  - destruct He; simpl; rewrite ?H2; (split; [| done]); try done;
      exists f; split; [done | apply list_elem_of_singleton; done
                       | done | apply list_elem_of_singleton; done].
  - exists f. by destruct He.
Qed.

Lemma streams_inv_switch_logfile t st :
  streams_inv st -> streams_inv (switch_logfile t st).
Proof.
  intros (H1 & old & H2 & H3 & H4).
  unfold streams_inv, switch_logfile, fopen, emit. rewrite H2.
  destruct (hd true (fopen_tape st)); simpl.
  - set (f := Build_FILE _ _).
    assert (Hne : f <> old).
    { intros E. rewrite <- E in H4. simpl in H4. lia. }
    rewrite !streams_used_ok_app, !live_after_app, H3. simpl.
    rewrite filter_cons, decide_True by done.
    rewrite filter_cons, decide_False by (intros H; by apply H).
    rewrite filter_nil.
    split.
    + repeat split; try done.
      * by intros ->%list_elem_of_singleton.
      * apply elem_of_cons. right. by apply list_elem_of_singleton.
    + exists f. repeat split. simpl. lia.
  - rewrite streams_used_ok_app, live_after_app, H3. simpl.
    split; [done |]. by exists old.
Qed.

Section Streams.

Variable localtime : Z -> option tm.

Lemma streams_inv_update_stamp now st :
  streams_inv st -> streams_inv (update_stamp localtime now st).
Proof.
  intros H. unfold update_stamp.
  destruct (last_time st =? now); simpl; [done |].
  set (t := default _ _).
  destruct (day_changed t (last_tm st)); simpl.
  - pose proof (streams_inv_switch_logfile t
      (set_last_tm t (set_stamp_buf (snprintf 23 (stamp_text t)) st)) H)
      as H'.
    exact H'.
  - exact H.
Qed.

Lemma streams_inv_write_logfile c forced st :
  streams_inv st -> streams_inv (write_logfile localtime c forced st).2.
Proof.
  intros H. apply (streams_inv_update_stamp (stamp c)) in H.
  rewrite write_logfile_eq. cbv zeta. unfold snd.
  destruct H as (H1 & f & H2 & H3 & H4). unfold streams_inv. simpl.
  rewrite streams_used_ok_app, live_after_app, H2, H3, live_after_records.
  split; [split; [done |] |].
  - apply streams_used_ok_records, list_elem_of_singleton. done.
  - by exists f.
Qed.

Lemma streams_inv_do_init c t w now fo re :
  status (do_init localtime c t w now fo re) = None ->
  streams_inv (do_init localtime c t w now fo re).
Proof.
  unfold do_init, switch_logfile, fopen, emit. simpl.
  destruct (hd true fo); simpl; [| done]. intros _.
  unfold streams_inv. simpl. split.
  - split; [| done]. apply not_elem_of_nil.
  - eexists. repeat split. simpl. lia.
Qed.

(** X9.  The program uses its streams as the C library asks in every run:
    each record, message and [fflush] goes to a stream that is open, only
    an open stream is closed (so none is closed twice), and at any time
    exactly one stream is open, the one [log_fp] points to. *)
Theorem one_open_stream st :
  reachable localtime any_time st ->
  streams_used_ok [] (out st) /\
  exists f, log_fp st = Some f /\ live_after [] (out st) = [f].
Proof.
  intros Hr.
  assert (H : streams_inv st).
  { apply (reachable_log_steps localtime any_time streams_inv);
      [| | exact Hr].
    - apply log_steps_invariant.
      + apply streams_inv_same_log.
      + intros c forced s _. apply streams_inv_write_logfile.
      + apply streams_inv_emit.
    - intros c t w now fo re _. apply streams_inv_do_init. }
  destruct H as (H1 & f & H2 & H3 & _). eauto.
Qed.

End Streams.

Lemma one_open_stream_witness :
  streams_used_ok [] (out disk_full) /\
  exists f, log_fp disk_full = Some f /\ live_after [] (out disk_full) = [f].
Proof. exact (one_open_stream utc disk_full reachable_disk_full). Defined.

(** ** A successful switch of the log file *)

(** For a date that fits the widths of the format the name of the log file
    is not truncated: it is the date of the stamp followed by [.log]. *)
Lemma filename_shape t :
  tm_printable t ->
  snprintf 15 (filename_text t) =
  take 10 (snprintf 23 (stamp_text t)) ++ str ".log" /\
  length (snprintf 15 (filename_text t)) = 14%nat.
Proof.
  intros (Hy & Hm & Hd & Hh & Hn & Hs). unfold filename_text, stamp_text.
  destruct (digits_4 _ (fmt_u_4 _ Hy)) as (y1 & y2 & y3 & y4 & -> & _).
  destruct (digits_2 _ (fmt_u_2 _ Hm)) as (m1 & m2 & -> & _).
  destruct (digits_2 _ (fmt_u_2 _ Hd)) as (d1 & d2 & -> & _).
  destruct (digits_2 _ (fmt_u_2 _ Hh)) as (h1 & h2 & -> & _).
  destruct (digits_2 _ (fmt_u_2 _ Hn)) as (n1 & n2 & -> & _).
  destruct (digits_2 _ (fmt_u_2 _ Hs)) as (s1 & s2 & -> & _).
  done.
Qed.

Section Switch.

Variable localtime : Z -> option tm.

(** X10.  In a running program, when [write_logfile] is called for a
    client whose time of first byte is not 0 and whose local date is not
    the one kept in the date marker [last_tm] (the date of the last
    attempt to switch, which after a failed [fopen] is not the date of
    the file in use), and [fopen] succeeds: the date is stored in the
    marker, the file that [snprintf] names after that date is opened,
    then the old stream is closed, the client's records are written to
    the new stream only, and a pass of [drop_memory_usage] is requested.
    If the fields of the date fit the widths of the format (a year up to
    9999), the name is not truncated: it is [YYYY-MM-DD.log], the date
    with which the records begin. *)
Theorem successful_switch c forced st t :
  reachable localtime any_time st ->
  stamp c <> 0 ->
  localtime (stamp c) = Some t ->
  day_changed t (last_tm st) = true ->
  hd true (fopen_tape st) = true ->
  let st' := (write_logfile localtime c forced st).2 in
  let stamp_s := snprintf 23 (stamp_text t) in
  let f := {| f_name := snprintf 15 (filename_text t); f_id := opened st |} in
  let rest := after_last_nl (buffer c) in
  log_fp st' = Some f /\ last_tm st' = t /\
  try_drop_memory_usage st' = true /\
  (exists old,
     log_fp st = Some old /\
     new_events st st' =
     [EvOpen (f_name f) (Some f); EvClose old] ++
     map (EvRecord (Some f) stamp_s (addr_str c))
       (lines_of (buffer c) ++
        if forced && negb (Z.of_nat (length rest) =? 0)
        then [rest ++ [nl]] else [])) /\
  (tm_printable t -> f_name f = take 10 stamp_s ++ str ".log").
Proof.
  intros Hr Hs Hloc Hday Hopen.
  pose proof (other_day_refreshes localtime st c t Hr Hs Hloc Hday) as Hlt.
  destruct (inv_log_fp _ (reachable_inv _ _ _ Hr)) as [old Hfp].
  rewrite write_logfile_eq. cbv zeta. unfold snd.
  assert (E : update_stamp localtime (stamp c) st =
    set_last_time (stamp c)
      (switch_logfile t
         (set_last_tm t (set_stamp_buf (snprintf 23 (stamp_text t)) st)))).
  { unfold update_stamp. rewrite (proj2 (Z.eqb_neq _ _) Hlt), Hloc. simpl.
    by rewrite Hday. }
  rewrite E. unfold switch_logfile, fopen, emit. simpl.
  rewrite Hfp, Hopen. simpl.
  split_and!; try done.
  - exists old. split; [done |]. apply new_events_app. simpl.
    by rewrite <- !app_assoc.
  - intros Hp. apply (filename_shape t Hp).
Qed.

End Switch.

Lemma successful_switch_witness :
  let c := {| addr := sockaddr_of (from_host 1 []);
              buffer := str "one" ++ [nl] ++ str "two"; buffer_size := 4096;
              addr_str := str "192.168.0.1:6666 "; stamp := 1706745601 |} in
  let st' := (write_logfile utc c false day1).2 in
  let f := {| f_name := str "2024-02-01.log"; f_id := opened day1 |} in
  log_fp st' = Some f /\
  exists old,
    log_fp day1 = Some old /\
    new_events day1 st' =
    [EvOpen (f_name f) (Some f); EvClose old;
     EvRecord (Some f) (str "2024-02-01 00:00:01 ") (addr_str c)
       (str "one" ++ [nl])].
Proof.
  intros c.
  assert (H2 : stamp c <> 0) by done.
  assert (H3 : utc (stamp c) = Some midnight) by by vm_compute.
  assert (H5 : day_changed midnight (last_tm day1) = true) by by vm_compute.
  assert (H6 : hd true (fopen_tape day1) = true) by by vm_compute.
  pose proof (successful_switch utc c false day1 midnight
                reachable_day1 H2 H3 H5 H6) as (Ha & _ & _ & Hb & _).
  assert (Hs : snprintf 23 (stamp_text midnight) = str "2024-02-01 00:00:01 ")
    by by vm_compute.
  assert (Hn : snprintf 15 (filename_text midnight) = str "2024-02-01.log")
    by by vm_compute.
  rewrite Hs, Hn in Hb. rewrite Hn in Ha.
  split; [exact Ha |]. exact Hb.
Defined.

(** ** Each record in the file of its day *)

Lemma day_changed_false t u : day_changed t u = false -> same_day t u.
Proof.
  unfold day_changed, same_day.
  intros [[H1 H2]%orb_false_iff H3]%orb_false_iff.
  apply negb_false_iff in H1, H2, H3. lia.
Qed.

Lemma filename_same_day t u :
  same_day t u -> filename_text t = filename_text u.
Proof. intros (H1 & H2 & H3). unfold filename_text. by rewrite H1, H2, H3. Qed.

Lemma same_day_trans t u v : same_day t u -> same_day v u -> same_day t v.
Proof. unfold same_day. intros (? & ? & ?) (? & ? & ?). lia. Qed.

Lemma existsb_failed_open_app e1 e2 :
  existsb failed_open (e1 ++ e2) = false ->
  existsb failed_open e1 = false /\ existsb failed_open e2 = false.
Proof. rewrite existsb_app. apply orb_false_iff. Qed.

Lemma failed_open_spec evs :
  (forall name, EvOpen name None ∉ evs) -> existsb failed_open evs = false.
Proof.
  induction evs as [|e evs IH]; intros H; [done |]. simpl.
  rewrite IH.
  - destruct e as [name [f|] | | | | |]; try done.
    destruct (H name). by left.
  - intros name Hn. apply (H name). by right.
Qed.

Lemma no_failed_open evs :
  existsb failed_open evs = false -> forall name, EvOpen name None ∉ evs.
Proof.
  induction evs as [|e evs IH]; intros H name; [apply not_elem_of_nil |].
  simpl in H. apply orb_false_iff in H as [H1 H2].
  apply not_elem_of_cons. split; [| by apply IH].
  intros <-. done.
Qed.

Lemma civil_calendar now :
  now <> 0 ->
  match calendar now with
  | Some t => day_changed t last_tm_init
  | None => false
  end = true ->
  civil calendar now.
Proof.
  intros Hn H. split; [done |].
  destruct (calendar now) as [t|] eqn:E; [| done].
  exists t. split_and!; [done | by eapply calendar_printable | done].
Qed.

Section Day.

Variable localtime : Z -> option tm.

Lemma day_ok_update_stamp now st :
  civil localtime now ->
  (existsb failed_open (out st) = false -> day_ok st) ->
  existsb failed_open (out (update_stamp localtime now st)) = false ->
  day_ok (update_stamp localtime now st) /\
  last_time (update_stamp localtime now st) <> 0.
Proof.
  intros (Hn & t & Ht & Hp & Hd) K.
  rewrite update_stamp_last_time. intros Hf. split; [| done].
  revert Hf. unfold update_stamp.
  destruct (Z.eqb_spec (last_time st) now) as [E|E]; simpl; [done |].
  rewrite Ht. simpl.
  destruct (day_changed t (last_tm st)) eqn:Ed; simpl.
  - unfold switch_logfile, fopen, emit. simpl.
    destruct (hd true (fopen_tape st)) eqn:Eh; simpl.
    + destruct (log_fp st) as [old|]; simpl;
        rewrite <- ?app_assoc;
        intros [Hf _]%existsb_failed_open_app;
        destruct (K Hf) as (_ & _ & Ho);
        (split; [done |]); simpl;
        (split; [intros _; eexists _, t; by split_and! |]);
        rewrite Forall_app; (split; [done |]); by repeat constructor.
    + destruct (log_fp st) as [old|]; simpl;
        intros [_ Hf]%existsb_failed_open_app; done.
  - intros Hf. destruct (K Hf) as (K0 & K1 & Ho).
    split; [done |]. simpl. split; [| done]. intros _.
    destruct (decide (last_time st = 0)) as [E0|E0].
    { rewrite (K0 E0) in Ed. congruence. }
    destruct (K1 E0) as (f & t0 & Hfp & _ & _ & Hname & Hday).
    exists f, t. split_and!; try done.
    + rewrite Hname. f_equal. apply filename_same_day.
      eapply same_day_trans; [exact Hday | by apply day_changed_false].
    + by apply day_changed_false.
Qed.

Lemma day_ok_write_logfile c forced st :
  civil localtime (stamp c) ->
  (existsb failed_open (out st) = false -> day_ok st) ->
  existsb failed_open (out (write_logfile localtime c forced st).2) = false ->
  day_ok (write_logfile localtime c forced st).2.
Proof.
  intros Hc K. rewrite write_logfile_eq. cbv zeta. unfold snd. simpl.
  intros [Hf _]%existsb_failed_open_app.
  destruct (day_ok_update_stamp (stamp c) st Hc K Hf) as [(K0 & K1 & Ho) Hl].
  split; [done |]. split; [done |]. simpl.
  apply Forall_app. split; [done |].
  destruct (K1 Hl) as (f & t & Hfp & Hst & Hp & Hname & _).
  apply Forall_forall. intros e [l [-> _]]%list_elem_of_fmap.
  simpl. exists f. split; [done |].
  rewrite Hname, Hst. apply (filename_shape t Hp).
Qed.

Lemma day_ok_reachable st :
  reachable localtime (civil localtime) st ->
  existsb failed_open (out st) = false -> day_ok st.
Proof.
  intros Hr.
  refine (proj1 (reachable_log_steps localtime (civil localtime)
    (fun st => existsb failed_open (out st) = false -> day_ok st)
    _ _ st Hr)).
  - apply (log_steps_invariant localtime (civil localtime)
      (fun st => existsb failed_open (out st) = false -> day_ok st)).
    + intros s s' U K. unfold day_ok.
      rewrite (sl_out _ _ U), (sl_last_time _ _ U), (sl_last_tm _ _ U),
        (sl_log_fp _ _ U), (sl_stamp_buf _ _ U). exact K.
    + intros c forced s Hc K. by apply day_ok_write_logfile.
    + intros e s He K. unfold emit. simpl.
      intros [Hf _]%existsb_failed_open_app.
      destruct (K Hf) as (K0 & K1 & Ho). split; [done |]. split; [done |].
      simpl. apply Forall_app. split; [done |].
      constructor; [| done]. by destruct He.
  - intros c t w now fo re _ _ _. unfold do_init, switch_logfile, fopen, emit.
    simpl. destruct (hd true fo); simpl;
      (split; [done |]); (split; [done |]); by repeat constructor.
Qed.

(** X11.  Each record is in the file of its day.  On a host whose clock
    never reads 0 and whose [localtime] returns dates that fit the format
    (and are not 1970-01-01, the initial value of [last_tm]), as long as
    no [fopen] has failed every record of a run was written to the stream
    opened under the name [YYYY-MM-DD.log] made of the date the record
    begins with, whatever the order in which the days come up. *)
Theorem records_in_file_of_their_day st :
  reachable localtime (civil localtime) st ->
  (forall name, EvOpen name None ∉ out st) ->
  forall fp s a d,
    EvRecord fp s a d ∈ out st ->
    exists f, fp = Some f /\ f_name f = take 10 s ++ str ".log".
Proof.
  intros Hr Hn fp s a d He.
  destruct (day_ok_reachable st Hr (failed_open_spec _ Hn)) as (_ & _ & Ho).
  rewrite Forall_forall in Ho. apply (Ho _ He).
Qed.

End Day.

Lemma reachable_two_days : reachable calendar (civil calendar) two_days.
Proof.
  apply reachable_round;
    [| by vm_compute | by apply civil_calendar; vm_compute | short_payloads].
  apply reachable_round;
    [| by vm_compute | by apply civil_calendar; vm_compute | short_payloads].
  apply reachable_round;
    [| by vm_compute | by apply civil_calendar; vm_compute | short_payloads].
  apply reach_init; [by apply civil_calendar; vm_compute | by vm_compute].
Qed.

Lemma records_in_file_of_their_day_witness :
  filed (out two_days) =
  [(str "2024-02-01.log", line "early"); (str "2024-01-31.log", line "late")] /\
  forall fp s a d,
    EvRecord fp s a d ∈ out two_days ->
    exists f, fp = Some f /\ f_name f = take 10 s ++ str ".log".
Proof.
  split; [by vm_compute |].
  apply (records_in_file_of_their_day calendar two_days reachable_two_days).
  apply no_failed_open. by vm_compute.
Defined.

(** ** The command line *)

Lemma has_prefix_head c p arg :
  has_prefix (c :: p) arg = true -> head arg = Some c.
Proof.
  destruct arg as [|a arg]; [done |]. simpl.
  intros [H _]%andb_true_iff. apply Ascii.eqb_eq in H. by subst.
Qed.

Section Options.

Variable atoi : list ascii -> Z.
Variable inet_addr : list ascii -> Z.
Variable localtime : Z -> option tm.

Lemma set_option_known arg o :
  is_Some (set_option atoi inet_addr arg o) <-> known arg = true.
Proof.
  unfold set_option, known, option_names. cbn [existsb].
  repeat (destruct (has_prefix _ arg)); simpl; split; try done;
    intros [? [=]].
Qed.

Lemma parse_options_known args o :
  is_Some (parse_options atoi inet_addr args o) <->
  forallb known args = true.
Proof.
  revert o. induction args as [|arg args IH]; intros o; simpl; [done |].
  pose proof (set_option_known arg o) as H.
  destruct (set_option atoi inet_addr arg o) as [o'|].
  - rewrite (proj1 H) by done. simpl. apply IH.
  - destruct (known arg); simpl; [| split; [by intros [? [=]] | done]].
    destruct (proj2 H eq_refl) as [? [=]].
Qed.

(** X12.  [do_init] accepts the command line if and only if each
    argument begins with one of the seven option names; otherwise it
    prints the usage with the name of the program and exits with
    status 1, before any file is opened. *)
Theorem unknown_option_is_usage argv now fo re :
  (forallb known (tail argv) = true ->
   exists o st,
     do_init_argv atoi inet_addr localtime argv now fo re = Ready o st) /\
  (forallb known (tail argv) = false ->
   do_init_argv atoi inet_addr localtime argv now fo re =
   Exit (usage (hd [] argv)) 1).
Proof.
  unfold do_init_argv.
  pose proof (parse_options_known (tail argv) default_options) as H.
  destruct (parse_options atoi inet_addr (tail argv) default_options) as [o|].
  - split; [eauto |]. intros Hf. rewrite (proj1 H) in Hf; done.
  - split; [| done]. intros Hf. destruct (proj2 H Hf) as [? [=]].
Qed.

(** The effect of one accepted argument on each variable. *)
Lemma set_option_fields arg o o' :
  set_option atoi inet_addr arg o = Some o' ->
  let pick name (f : list ascii -> Z) old :=
    if has_prefix (str name) arg
    then f (drop (length (str name)) arg) else old in
  opt_addr o' = pick "ip=" inet_addr (opt_addr o) /\
  opt_port o' = pick "port=" (fun s => htons (atoi s)) (opt_port o) /\
  log_dir o' =
    (if has_prefix (str "dir=") arg then drop 4 arg else log_dir o) /\
  opt_wait_timeout o' = pick "timeout=" atoi (opt_wait_timeout o) /\
  opt_max_clients o' = pick "clients=" atoi (opt_max_clients o) /\
  opt_wbuf_size o' = pick "wbuf=" atoi (opt_wbuf_size o) /\
  rbuf_size o' = pick "rbuf=" atoi (rbuf_size o).
Proof.
  unfold set_option. cbv zeta.
  destruct (has_prefix (str "ip=") arg) eqn:H1;
    [| destruct (has_prefix (str "port=") arg) eqn:H2;
       [| destruct (has_prefix (str "dir=") arg) eqn:H3;
          [| destruct (has_prefix (str "timeout=") arg) eqn:H4;
             [| destruct (has_prefix (str "clients=") arg) eqn:H5;
                [| destruct (has_prefix (str "wbuf=") arg) eqn:H6;
                   [| destruct (has_prefix (str "rbuf=") arg) eqn:H7;
                      [| done]]]]]]];
    intros [= <-];
    cbn [opt_addr opt_port log_dir opt_wait_timeout opt_max_clients
         opt_wbuf_size rbuf_size];
    repeat match goal with
           | H : has_prefix (str _) arg = true |- _ =>
               apply has_prefix_head in H
           end;
    repeat match goal with
           | |- context [has_prefix (str ?n) arg] =>
               let E := fresh in
               destruct (has_prefix (str n) arg) eqn:E;
                 [apply has_prefix_head in E; congruence |]
           end;
    done.
Qed.

Lemma parse_options_fields args o o' :
  parse_options atoi inet_addr args o = Some o' ->
  opt_addr o' =
    from_option inet_addr (opt_addr o) (last_value (str "ip=") args) /\
  opt_port o' =
    from_option (fun s => htons (atoi s)) (opt_port o)
      (last_value (str "port=") args) /\
  log_dir o' = default (log_dir o) (last_value (str "dir=") args) /\
  opt_wait_timeout o' =
    from_option atoi (opt_wait_timeout o) (last_value (str "timeout=") args) /\
  opt_max_clients o' =
    from_option atoi (opt_max_clients o) (last_value (str "clients=") args) /\
  opt_wbuf_size o' =
    from_option atoi (opt_wbuf_size o) (last_value (str "wbuf=") args) /\
  rbuf_size o' =
    from_option atoi (rbuf_size o) (last_value (str "rbuf=") args).
Proof.
  revert o. induction args as [|arg args IH]; intros o;
    cbn [parse_options last_value].
  - by intros [= <-].
  - destruct (set_option atoi inet_addr arg o) as [o1|] eqn:E; [| done].
    intros H. specialize (IH o1 H).
    destruct (set_option_fields arg o o1 E)
      as (F1 & F2 & F3 & F4 & F5 & F6 & F7).
    destruct IH as (I1 & I2 & I3 & I4 & I5 & I6 & I7).
    rewrite I1, I2, I3, I4, I5, I6, I7, F1, F2, F3, F4, F5, F6, F7.
    clear. cbv zeta.
    repeat split;
      match goal with
      | |- context [last_value ?n args] => destruct (last_value n args)
      end; cbn [from_option default]; try done;
      by destruct (has_prefix _ arg).
Qed.

(** X13.  The options are taken from left to right and the last
    occurrence of an option wins: after the loop over the arguments each
    variable holds the value of the last argument that begins with its
    name ([atoi] of it for the numbers, [htons] of that for the port,
    [inet_addr] of it for the address), or its initial value if there is
    none. *)
Theorem last_option_wins args o o' :
  parse_options atoi inet_addr args o = Some o' ->
  opt_addr o' =
    from_option inet_addr (opt_addr o) (last_value (str "ip=") args) /\
  opt_port o' =
    from_option (fun s => htons (atoi s)) (opt_port o)
      (last_value (str "port=") args) /\
  log_dir o' = default (log_dir o) (last_value (str "dir=") args) /\
  opt_wait_timeout o' =
    from_option atoi (opt_wait_timeout o) (last_value (str "timeout=") args) /\
  opt_max_clients o' =
    from_option atoi (opt_max_clients o) (last_value (str "clients=") args) /\
  opt_wbuf_size o' =
    from_option atoi (opt_wbuf_size o) (last_value (str "wbuf=") args) /\
  rbuf_size o' =
    from_option atoi (rbuf_size o) (last_value (str "rbuf=") args).
Proof. apply parse_options_fields. Qed.

(** X14.  The settings of a started program: each of [wait_timeout],
    [max_clients] and [wbuf_size] is the value of its last option on the
    command line, or 10, 1024 and 65536 without one, brought into its
    range 5..600, 10..65536 and 1024..1048576: a value in the range is
    used as given, a value outside is replaced by the nearest bound and
    never refused. *)
Theorem settings_from_command_line argv now fo re o st :
  do_init_argv atoi inet_addr localtime argv now fo re = Ready o st ->
  let given name dflt :=
    from_option atoi dflt (last_value (str name) (tail argv)) in
  wait_timeout st = Z.max 5 (Z.min 600 (given "timeout=" 10)) /\
  max_clients st = Z.max 10 (Z.min 65536 (given "clients=" 1024)) /\
  wbuf_size st = Z.max 1024 (Z.min 1048576 (given "wbuf=" 65536)) /\
  opt_wait_timeout o = wait_timeout st /\
  opt_max_clients o = max_clients st /\
  opt_wbuf_size o = wbuf_size st.
Proof.
  unfold do_init_argv.
  destruct (parse_options atoi inet_addr (tail argv) default_options)
    as [o1|] eqn:E; [| done].
  intros [= <- <-]. cbv zeta.
  destruct (parse_options_fields _ _ _ E) as (_ & _ & _ & F4 & F5 & F6 & _).
  unfold default_options in F4, F5, F6.
  cbn [opt_wait_timeout opt_max_clients opt_wbuf_size] in F4, F5, F6.
  rewrite <- F4, <- F5, <- F6.
  assert (Hc : forall lo hi v, lo <= hi ->
            clamp lo hi v = Z.max lo (Z.min hi v)).
  { intros lo hi v H. unfold clamp.
    destruct (Z.ltb_spec v lo); destruct (Z.gtb_spec lo hi);
      try destruct (Z.gtb_spec v hi); lia. }
  unfold do_init.
  set (st0 := Build_state _ _ _ _ _ _ _ _ _ _ _ _ _ _ _).
  set (tm0 := default _ _).
  pose proof (switch_logfile_unchanged tm0 st0) as U.
  assert (Hst : forall s : state,
            wait_timeout (match log_fp s with
                          | Some _ => s | None => set_status (Some 1) s
                          end) = wait_timeout s /\
            max_clients (match log_fp s with
                         | Some _ => s | None => set_status (Some 1) s
                         end) = max_clients s /\
            wbuf_size (match log_fp s with
                       | Some _ => s | None => set_status (Some 1) s
                       end) = wbuf_size s).
  { intros s. by destruct (log_fp s). }
  destruct (Hst (switch_logfile tm0 st0)) as (-> & -> & ->).
  rewrite (ubl_wait_timeout _ _ U), (ubl_max_clients _ _ U),
    (ubl_wbuf_size _ _ U).
  simpl. rewrite !Hc by lia. done.
Qed.

End Options.

Lemma unknown_option_is_usage_witness :
  (exists o st,
     do_init_argv decimal loopback utc
       [str "udplogger"; str "clients=20"; str "ip=127.0.0.1"]
       1706745590 [] [] = Ready o st) /\
  do_init_argv decimal loopback utc
    [str "udplogger"; str "clients=20"; str "verbose"] 1706745590 [] [] =
  Exit (usage (str "udplogger")) 1.
Proof.
  split.
  - apply (proj1 (unknown_option_is_usage decimal loopback utc
      [str "udplogger"; str "clients=20"; str "ip=127.0.0.1"]
      1706745590 [] [])).
    by vm_compute.
  - apply (proj2 (unknown_option_is_usage decimal loopback utc
      [str "udplogger"; str "clients=20"; str "verbose"] 1706745590 [] [])).
    by vm_compute.
Defined.

Lemma last_option_wins_witness :
  exists o',
    parse_options decimal loopback
      [str "timeout=7"; str "wbuf=2048"; str "timeout=30"; str "port=514"]
      default_options = Some o' /\
    opt_wait_timeout o' = 30 /\ opt_wbuf_size o' = 2048 /\
    opt_max_clients o' = 1024 /\ opt_port o' = htons 514.
Proof.
  destruct (parse_options decimal loopback
    [str "timeout=7"; str "wbuf=2048"; str "timeout=30"; str "port=514"]
    default_options) as [o'|] eqn:H; [| by vm_compute in H].
  exists o'. split; [done |].
  destruct (last_option_wins decimal loopback _ _ _ H)
    as (_ & F2 & _ & F4 & F5 & F6 & _).
  rewrite F2, F4, F5, F6. by vm_compute.
Defined.

Lemma settings_from_command_line_witness :
  exists o st,
    do_init_argv decimal loopback utc
      [str "udplogger"; str "timeout=3"; str "clients=70000"; str "wbuf=2048"]
      1706745590 [] [] = Ready o st /\
    wait_timeout st = 5 /\ max_clients st = 65536 /\ wbuf_size st = 2048.
Proof.
  destruct (do_init_argv decimal loopback utc
    [str "udplogger"; str "timeout=3"; str "clients=70000"; str "wbuf=2048"]
    1706745590 [] []) as [e code|o st] eqn:H; [by vm_compute in H |].
  exists o, st. split; [done |].
  destruct (settings_from_command_line decimal loopback utc _ _ _ _ _ _ H)
    as (F1 & F2 & F3 & _).
  rewrite F1, F2, F3. by vm_compute.
Defined.

(** ** As long as memory lasts *)

Lemma drop_loop_tape cs st :
  all_succeed (realloc_tape st) ->
  all_succeed (realloc_tape (drop_loop cs st).2) /\
  Forall2 (fun c c' => c' = set_buffer_size (round_up 32 (avail c)) c)
    (filter has_data cs) (drop_loop cs st).1.
Proof.
  revert st. induction cs as [|c cs IH]; intros st Ht; cbn [drop_loop].
  - split; [done | constructor].
  - rewrite avail_zero. case_bool_decide as Hb; cbn [negb].
    + rewrite filter_cons_False by (unfold has_data; tauto). by apply IH.
    + rewrite filter_cons_True by done. unfold realloc.
      rewrite (all_succeed_hd _ Ht).
      destruct (IH (set_realloc_tape (tail (realloc_tape st)) st)
        (all_succeed_tail _ Ht)) as [H1 H2].
      destruct (drop_loop cs _) as [cs' st2]. simpl in *.
      split; [done |]. by constructor.
Qed.

Lemma drop_memory_usage_tape st :
  all_succeed (realloc_tape st) ->
  all_succeed (realloc_tape (drop_memory_usage st)).
Proof.
  intros Ht. unfold drop_memory_usage.
  destruct (try_drop_memory_usage st); cbn [negb]; [| done].
  destruct (drop_loop_tape (clients st) (set_try_drop_memory_usage false st) Ht)
    as [H1 _].
  destruct (drop_loop _ _) as [cs st2]. simpl in H1. unfold realloc.
  destruct (negb _); simpl; [| done].
  destruct (hd true (realloc_tape st2)); simpl; by apply all_succeed_tail.
Qed.

Lemma find_client_tape a st :
  all_succeed (realloc_tape st) ->
  all_succeed (realloc_tape (find_client a st).2) /\
  status (find_client a st).2 = status st.
Proof.
  intros Ht.
  destruct (find_client_spec a st)
    as [j Hl | st' Hl Hn Hh Hc Htp U Hd | Hl Hn | Hl Hn Hh].
  - done.
  - rewrite Htp. split; [by apply all_succeed_tail | apply (ubm_status _ _ U)].
  - split; [apply drop_memory_usage_tape; exact Ht |].
    exact (ubm_status _ _
             (drop_memory_usage_unchanged (set_try_drop_memory_usage true st))).
  - split; [by apply all_succeed_tail | done].
Qed.

Section Running.

Variable localtime : Z -> option tm.

Lemma store_datagram_unchanged d c st :
  unchanged_but_log st (store_datagram localtime d c st).2.
Proof.
  unfold store_datagram.
  set (c2 := set_buffer_size _ _).
  assert (H1 : unchanged_but_log st
    (if bool_decide (is_Some (memchr nl (payload d)))
     then write_logfile localtime c2 false st else (c2, st)).2).
  { destruct (bool_decide _); [apply write_logfile_unchanged |].
    apply unchanged_but_log_refl. }
  destruct (if bool_decide _ then _ else _) as [c3 st3]. simpl in H1.
  destruct (avail c3 >=? wbuf_size st3); [| done].
  eapply unchanged_but_log_trans; [exact H1 | apply write_logfile_unchanged].
Qed.

Lemma recv_datagram_runs now d st :
  all_succeed (realloc_tape st) ->
  all_succeed (realloc_tape (recv_datagram localtime now d st)) /\
  status (recv_datagram localtime now d st) = status st.
Proof.
  intros Ht. unfold recv_datagram.
  destruct (find_client_tape (sockaddr_of d) st Ht) as [Ht1 Hs1].
  destruct (find_client (sockaddr_of d) st) as [[i|] st1]; simpl in *;
    [| done].
  destruct (clients st1 !! i) as [c0|]; [| done].
  unfold realloc. rewrite (all_succeed_hd _ Ht1). cbv beta iota zeta delta [negb].
  pose proof (store_datagram_unchanged d
    (if avail c0 =? 0 then set_stamp now c0 else c0)
    (set_realloc_tape (tail (realloc_tape st1)) st1)) as U.
  destruct (store_datagram _ _ _ _) as [c4 st4]. simpl in U. simpl.
  rewrite (ubl_realloc_tape _ _ U), (ubl_status _ _ U). simpl.
  split; [by apply all_succeed_tail | exact Hs1].
Qed.

Lemma drain_runs now burst st :
  all_succeed (realloc_tape st) ->
  all_succeed (realloc_tape (drain localtime now burst st)) /\
  status (drain localtime now burst st) = status st.
Proof.
  revert st. induction burst as [|d burst IH]; intros st Ht; simpl; [done |].
  destruct (Z.of_nat (length (payload d)) <=? 0); [done |].
  destruct (recv_datagram_runs now d st Ht) as [H1 H2].
  destruct (status (recv_datagram localtime now d st)) eqn:E;
    [split; [done | congruence] |].
  destruct (IH _ H1) as [H3 H4]. split; [done | congruence].
Qed.

(** X15.  Only a lack of memory stops the program.  From a running
    state in which the coming calls of [realloc] all succeed, a round of
    the main loop ends with the program running, whatever is received and
    whatever [fopen] and [localtime] return; and the calls of [realloc]
    that are left still succeed, so that the next round runs as well. *)
Theorem runs_while_memory_lasts now burst st :
  status st = None ->
  all_succeed (realloc_tape st) ->
  let st' := do_main_round localtime now burst st in
  status st' = None /\ all_succeed (realloc_tape st').
Proof.
  intros Hs Ht. unfold do_main_round, do_main_receive.
  set (st1 := emit _ st).
  pose proof (flush_where_unchanged localtime
    (fun c => negb (avail c =? 0) && (now - stamp c >=? wait_timeout st1))
    (clients st1) st1) as U.
  assert (H2 : status (check_timeout localtime now st1) = None /\
               all_succeed (realloc_tape (check_timeout localtime now st1))).
  { unfold check_timeout. destruct (flush_where _ _ _ _) as [cs st2].
    simpl in *. by rewrite (ubl_status _ _ U), (ubl_realloc_tape _ _ U). }
  destruct H2 as [H2 H3].
  destruct (drain_runs now burst _ H3) as [H4 H5].
  rewrite H5, H2. cbv zeta.
  split.
  - rewrite (ubm_status _ _ (drop_memory_usage_unchanged _)). congruence.
  - by apply drop_memory_usage_tape.
Qed.

End Running.

Lemma runs_while_memory_lasts_witness :
  let st' :=
    do_main_round utc 1706832000 [from_host 3 (line "next day")] disk_full in
  status st' = None /\ all_succeed (realloc_tape st').
Proof.
  assert (H1 : status disk_full = None) by by vm_compute.
  assert (H2 : all_succeed (realloc_tape disk_full)) by by vm_compute.
  exact (runs_while_memory_lasts utc 1706832000
           [from_host 3 (line "next day")] disk_full H1 H2).
Defined.

(** ** What a pass of [drop_memory_usage] leaves allocated *)

(** X16.  After a pass of [drop_memory_usage] in which [realloc]
    succeeds, the memory fits the data up to the granularity of 4096
    bytes: each client left has data and a buffer of the next multiple of
    4096 bytes, less than 4096 bytes more than its data, and the array
    has the next multiple of 4096 bytes for its clients, or is freed when
    none is left. *)
Theorem reclamation_trims_allocations localtime st :
  reachable localtime any_time st ->
  try_drop_memory_usage st = true ->
  all_succeed (realloc_tape st) ->
  let st' := drop_memory_usage st in
  Forall (fun c => has_data c /\
                   avail c <= buffer_size c < avail c + 4096 /\
                   buffer_size c mod 4096 = 0) (clients st') /\
  (num_clients st' = 0 -> clients_size st' = 0) /\
  sizeof_client * num_clients st' <= clients_size st'
    < sizeof_client * num_clients st' + 4096 /\
  clients_size st' mod 4096 = 0.
Proof.
  intros Hr Hf Ht. pose proof (reachable_inv _ _ _ Hr) as Hi.
  pose proof (inv_clients _ Hi) as Hok. pose proof (inv_wbuf_size _ Hi) as Hw.
  pose proof (inv_count _ Hi) as Hn. pose proof (inv_max_clients _ Hi) as Hm.
  cbv zeta. unfold drop_memory_usage. rewrite Hf. cbn [negb].
  destruct (drop_loop_tape (clients st) (set_try_drop_memory_usage false st) Ht)
    as [H1 H2].
  destruct (drop_loop _ _) as [cs st2]. simpl in H1, H2.
  assert (Hlen : (length cs <= length (clients st))%nat).
  { apply Forall2_length in H2. rewrite <- H2. apply length_filter. }
  assert (Hcs : Forall (fun c => has_data c /\
                   avail c <= buffer_size c < avail c + 4096 /\
                   buffer_size c mod 4096 = 0) cs).
  { assert (Hf2 : Forall (fun c => has_data c /\ avail c < wbuf_size st)
                    (filter has_data (clients st))).
    { apply Forall_forall. intros c [Hd Hc]%list_elem_of_filter.
      rewrite Forall_forall in Hok. by destruct (Hok c Hc) as (_ & _ & _ & _ & ?). }
    clear -H2 Hf2 Hw. induction H2 as [|c c' l l' -> _ IH]; [constructor |].
    apply Forall_cons in Hf2 as [[Hd Ha] Hf2]. constructor; [| auto].
    split; [done |]. unfold avail in *. cbn [buffer buffer_size set_buffer_size].
    destruct (round_up_fits 32 (Z.of_nat (length (buffer c))))
      as [Hx Hy]; [lia | lia |]. done. }
  unfold realloc, num_clients in *. cbn [clients set_clients realloc_tape].
  destruct (Z.eqb_spec (Z.of_nat (length cs)) 0) as [E0|E0]; cbn [negb].
  - cbn [clients set_clients clients_size set_clients_size]. rewrite E0.
    split_and!; try done; unfold sizeof_client; lia.
  - rewrite (all_succeed_hd _ H1).
    cbn [clients set_clients clients_size set_clients_size set_realloc_tape].
    destruct (round_up_fits 64 (sizeof_client * Z.of_nat (length cs)))
      as [Hx Hy]; [lia | unfold sizeof_client; lia |].
    split_and!; try done; lia.
Qed.

Lemma reachable_unfinished : reachable utc any_time unfinished.
Proof.
  unfold unfinished, do_main_receive.
  apply reachable_drain; [| by vm_compute | done | short_payloads].
  apply reach_timeout; [| by vm_compute | done].
  apply reach_wait; [apply reachable_boot | by vm_compute].
Qed.

Lemma reclamation_trims_allocations_witness :
  let st' := drop_memory_usage unfinished in
  map (fun c => (buffer c, buffer_size c)) (clients st') = [(str "par", 4096)] /\
  Forall (fun c => has_data c /\
                   avail c <= buffer_size c < avail c + 4096 /\
                   buffer_size c mod 4096 = 0) (clients st') /\
  clients_size st' mod 4096 = 0.
Proof.
  assert (H1 : try_drop_memory_usage unfinished = true) by by vm_compute.
  assert (H2 : all_succeed (realloc_tape unfinished)) by by vm_compute.
  pose proof (reclamation_trims_allocations utc unfinished
                reachable_unfinished H1 H2) as (Ha & _ & _ & Hb).
  split; [by vm_compute |]. exact (conj Ha Hb).
Defined.
